(** * mat64/qr.go: QR factorization, extraction of the factors, QR solve

    A shallow embedding of [src/mat64/qr.go] and proofs about it.

    Conventions of the embedding.
    - A [float64] is Rocq's primitive binary64 [float].
    - A Go [int] holding a dimension or an index is a [nat]: every such value
      in this file is bounded by the length of an allocated slice.  The
      [lwork] argument of the LAPACK kernels and [int(work[0])] are [Z].
    - A slice is a header (backing array, length, capacity) into a store of
      backing arrays, so that two matrices can share storage as they do in Go.
    - A function that can panic and that reads or writes the store is a
      computation [M A = World -> Res A].
    - The kernels of [blas64] and [lapack64] are external to the repository:
      they are parameters of the development (class [Kernels]). *)

From Stdlib Require Import ZArith PrimFloat FloatOps SpecFloat Lia.
From stdpp Require Import base tactics option list.

Set Default Proof Using "Type".
Open Scope nat_scope.

(** ** Scalars *)

Definition f0 : float := 0%float.
Definition f1 : float := 1%float.

(** ** Slices and the store of backing arrays *)

Definition loc := nat.

(** A Go slice header: the backing array (none for the nil slice), the
    length and the capacity.  Every slice of this file starts at offset 0 of
    its backing array. *)
Record slice := mkSlice { s_ptr : option loc; s_len : nat; s_cap : nat }.

Definition nil_slice : slice := mkSlice None 0 0.

(** [f[:l]] *)
Definition reslice (s : slice) (l : nat) : slice :=
  mkSlice (s_ptr s) l (s_cap s).

Module blas64.
Record General (D : Type) :=
  mkGeneral { Rows : nat; Cols : nat; Stride : nat; Data : D }.
Record Triangular (D : Type) :=
  mkTriangular { N : nat; tStride : nat; tData : D;
                 Uplo : bool (* true = blas.Upper *);
                 Diag : bool (* true = blas.Unit *) }.
Record Vector (D : Type) := mkVector { Inc : nat; vData : D }.
Arguments mkGeneral {D}.
Arguments Rows {D}.
Arguments Cols {D}.
Arguments Stride {D}.
Arguments Data {D}.
Arguments mkTriangular {D}.
Arguments N {D}.
Arguments tStride {D}.
Arguments tData {D}.
Arguments Uplo {D}.
Arguments Diag {D}.
Arguments mkVector {D}.
Arguments Inc {D}.
Arguments vData {D}.
End blas64.
Import blas64.

Definition Upper := true.
Definition NonUnit := false.

Inductive Transpose := NoTrans | Trans.
Inductive Side := Left | Right.

(** mat64.Dense, mat64.TriDense and mat64.Vector. *)
Record Dense := mkDense { mat : General slice; capRows : nat; capCols : nat }.
Record TriDense := mkTriDense { tmat : Triangular slice }.
Record Vector := mkVec { vmat : blas64.Vector slice; n : nat }.

(** The zero value [Dense{}]. *)
Definition emptyDense : Dense := mkDense (mkGeneral 0 0 0 nil_slice) 0 0.

(** The implementations of the interface [Matrix] that this file builds. *)
Inductive Matrix := MDense (d : Dense) | MTri (t : TriDense).

(** An argument that Go passes to a method by pointer: another object, or
    the receiver of the call itself ([m.SolveQR(qr, trans, m)]).  A method
    that resizes its receiver and then reads the argument finds, in the
    second case, the receiver as it has just made it. *)
Inductive operand (A : Type) := Self | Other (a : A).
Arguments Self {A}.
Arguments Other {A} a.

(** The argument as the method reads it while its receiver is [self]. *)
Definition read {A} (self : A) (b : operand A) : A :=
  match b with
  | Self => self
  | Other a => a
  end.

(** QR: [qr] is a pointer that is nil before the first [Factorize]. *)
Record QR := mkQR { qr : option Dense; tau : list float }.

(** mat64.Condition, an [error] carrying a float. *)
Inductive error := Condition (x : float).

Inductive panic := ErrShape | RuntimeError.

(** The process: the store of backing arrays, the workspace pool with the
    number of buffers taken from it and given back to it. *)
Record World := mkWorld {
  heap : list (list float);
  pool : list slice;
  gets : nat;
  puts : nat }.

Definition set_heap (w : World) (h : list (list float)) : World :=
  mkWorld h (pool w) (gets w) (puts w).

Inductive Res (A : Type) := Done (a : A) (w : World) | Panic (p : panic).
Arguments Done {A}. Arguments Panic {A}.

Definition M (A : Type) := World -> Res A.

Definition ret {A} (a : A) : M A := fun w => Done a w.
Definition bind {A B} (c : M A) (k : A -> M B) : M B :=
  fun w => match c w with Done a w' => k a w' | Panic p => Panic p end.
Definition throw {A} (p : panic) : M A := fun _ => Panic p.

Notation "x <- c ;; k" := (bind c (fun x => k))
  (at level 100, c at next level, right associativity).
Notation "c ;;; k" := (bind c (fun _ => k))
  (at level 100, right associativity).

(** [for i := lo; i < hi; i++ { s = body(i, s) }] *)
Fixpoint for_n {S} (cnt i : nat) (body : nat -> S -> M S) (s : S) : M S :=
  match cnt with
  | 0 => ret s
  | Datatypes.S cnt' => s' <- body i s ;; for_n cnt' (Datatypes.S i) body s'
  end.
Definition for_range {S} (lo hi : nat) (body : nat -> S -> M S) (s : S) : M S :=
  for_n (hi - lo) lo body s.
Definition for_ (lo hi : nat) (body : nat -> M unit) : M unit :=
  for_range lo hi (fun i _ => body i) tt.

(** *** Store primitives *)

(** The backing array of a slice, and the elements the slice shows. *)
Definition arr_of (h : list (list float)) (s : slice) : list float :=
  match s_ptr s with
  | Some b => default [] (h !! b)
  | None => []
  end.

Definition contents (h : list (list float)) (s : slice) : list float :=
  take (s_len s) (arr_of h s).

(** [old] overwritten by [new], never changing its length. *)
Definition fit (old new : list float) : list float :=
  take (length old) new ++ drop (length new) old.

(** [s[i]] and [s[i] = x]; an index out of range panics. *)
Definition rd (s : slice) (i : nat) : M float := fun w =>
  if i <? s_len s then
    match arr_of (heap w) s !! i with
    | Some x => Done x w
    | None => Panic RuntimeError
    end
  else Panic RuntimeError.

(** The store with the backing array of [s] replaced. *)
Definition set_arr (w : World) (s : slice) (a : list float) : World :=
  match s_ptr s with
  | Some b => set_heap w (<[b := a]> (heap w))
  | None => w
  end.

Definition wr (s : slice) (i : nat) (x : float) : M unit := fun w =>
  if (i <? s_len s) && (i <? length (arr_of (heap w) s))
  then Done tt (set_arr w s (<[i := x]> (arr_of (heap w) s)))
  else Panic RuntimeError.

(** An in-place kernel result written through a slice. *)
Definition store (s : slice) (new : list float) : M unit := fun w =>
  let a := arr_of (heap w) s in
  Done tt (set_arr w s (fit (take (s_len s) a) new ++ drop (s_len s) a)).

(** [make([]float64, l)] *)
Definition make (l : nat) : M slice := fun w =>
  Done (mkSlice (Some (length (heap w))) l l)
       (set_heap w (heap w ++ [replicate l f0])).

(** Local slices that no other value aliases are lists. *)
Definition lrd (l : list float) (i : nat) : M float :=
  match l !! i with Some x => ret x | None => throw RuntimeError end.
Definition lwr (l : list float) (i : nat) (x : float) : M (list float) :=
  if i <? length l then ret (<[i := x]> l) else throw RuntimeError.
Definition make_local (l : Z) : M (list float) :=
  if (l <? 0)%Z then throw RuntimeError else ret (replicate (Z.to_nat l) f0).

Definition deref {A} (p : option A) : M A :=
  match p with Some a => ret a | None => throw RuntimeError end.

(** [int(x)] for a float64 [x]: truncation toward zero; what cannot be
    represented converts to the smallest int64, as on amd64. *)
Definition min_int64 : Z := (- 2 ^ 63)%Z.
Definition int_of_float (x : float) : Z :=
  match Prim2SF x with
  | S754_zero _ => 0%Z
  | S754_finite s m e =>
      let a := if (0 <=? e)%Z then (Zpos m * 2 ^ e)%Z
               else (Zpos m / 2 ^ (- e))%Z in
      if (a <? 2 ^ 63)%Z then (if s then (- a)%Z else a) else min_int64
  | _ => min_int64
  end.

(** ** The storage abstraction of mat64 *)

(** Modelled from the spec: [Dims] of Dense and of TriDense (mat64/dense.go
    and mat64/triangular.go are not under src/): the shape of the matrix; a
    triangular matrix of order N is N×N. *)
Definition Dims (d : Dense) : nat * nat := (Rows (mat d), Cols (mat d)).

Definition MDims (a : Matrix) : nat * nat :=
  match a with
  | MDense d => Dims d
  | MTri t => (N (tmat t), N (tmat t))
  end.

(** Modelled from the spec: [Matrix.At] of Dense and of an upper TriDense
    (mat64/dense.go and mat64/triangular.go are not under src/): the entry
    stored at [i*Stride+j]; a triangular matrix reads zero outside of its
    triangle. *)
Definition At (a : Matrix) (i j : nat) : M float :=
  match a with
  | MDense d => rd (Data (mat d)) (i * Stride (mat d) + j)
  | MTri t =>
      if Uplo (tmat t)
      then (if j <? i then ret f0
            else rd (tData (tmat t)) (i * tStride (tmat t) + j))
      else (if i <? j then ret f0
            else rd (tData (tmat t)) (i * tStride (tmat t) + j))
  end.

(** Modelled from the spec: [Dense.reuseAs] (mat64/dense.go is not under
    src/): the receiver is resized to exactly r×c, reusing its storage when
    that is already large enough and allocating fresh (zeroed) storage
    otherwise. *)
Definition reuseAs (m : Dense) (r c : nat) : M Dense :=
  if r * c <=? s_cap (Data (mat m))
  then ret (mkDense (mkGeneral r c c (reslice (Data (mat m)) (r * c))) r c)
  else s <- make (r * c) ;; ret (mkDense (mkGeneral r c c s) r c).

(** Modelled from the spec: [Vector.reuseAs] (mat64/vector.go is not under
    src/): the same for a vector of [r] elements. *)
Definition VreuseAs (v : Vector) (r : nat) : M Vector :=
  if r <=? s_cap (vData (vmat v))
  then ret (mkVec (mkVector 1 (reslice (vData (vmat v)) r)) r)
  else s <- make r ;; ret (mkVec (mkVector 1 s) r).

(** Modelled from the spec: [Dense.Copy] (mat64/dense.go is not under src/):
    the elements of [a] are copied into the receiver over the rows and
    columns the two share; the rest of the receiver is left as it is (SolveQR
    copies a c×bc matrix into an r×bc scratch and zeroes the other rows
    itself, and copies the scratch into a smaller receiver). *)
Definition Copy (m : Dense) (a : Matrix) : M (nat * nat) :=
  let r := Nat.min (fst (MDims a)) (Rows (mat m)) in
  let c := Nat.min (snd (MDims a)) (Cols (mat m)) in
  for_ 0 r (fun i =>
    for_ 0 c (fun j =>
      x <- At a i j ;;
      wr (Data (mat m)) (i * Stride (mat m) + j) x)) ;;;
  ret (r, c).

(** Modelled from the spec: [Dense.Clone] (mat64/dense.go is not under
    src/): the receiver becomes a copy of [a] in storage of its own, whatever
    it held before. *)
Definition Clone (m : Dense) (a : Matrix) : M Dense :=
  let r := fst (MDims a) in
  let c := snd (MDims a) in
  s <- make (r * c) ;;
  let m := mkDense (mkGeneral r c c s) r c in
  Copy m a ;;; ret m.

(** Modelled from the spec: the workspace pool (mat64/pool.go is not under
    src/).  [getWorkspace r c clear] takes from the pool a buffer that is
    large enough, or allocates one, and shapes it r×c; it is zeroed only when
    [clear] is set.  [putWorkspace] gives a buffer back. *)
Fixpoint take_buf (need : nat) (p : list slice) : option (slice * list slice) :=
  match p with
  | [] => None
  | s :: p' =>
      if need <=? s_cap s then Some (s, p')
      else match take_buf need p' with
           | Some (s', q) => Some (s', s :: q)
           | None => None
           end
  end.

(** What getWorkspace gives for [need] elements from the pool [p] of a store
    of [len] backing arrays, and the pool it leaves: the first buffer of the
    pool that is large enough, cut to [need] elements, or else a slice of a
    new array, which lies at the end of the store. *)
Definition taken (need : nat) (p : list slice) (len : nat)
  : slice * list slice :=
  match take_buf need p with
  | Some (s, p') => (reslice s need, p')
  | None => (mkSlice (Some len) need need, p)
  end.

(** What the scratch of [need] elements shows when getWorkspace gives it
    without clearing it: what the buffer of the pool held, or the zeros of a
    new array. *)
Definition held (need : nat) (p : list slice) (h : list (list float))
  : list float :=
  match take_buf need p with
  | Some (s, _) => take need (arr_of h s)
  | None => replicate need f0
  end.

Definition count_get : M unit := fun w =>
  Done tt (mkWorld (heap w) (pool w) (S (gets w)) (puts w)).
Definition set_pool (p : list slice) : M unit := fun w =>
  Done tt (mkWorld (heap w) p (gets w) (puts w)).
Definition get_pool : M (list slice) := fun w => Done (pool w) w.

Definition getWorkspace (r c : nat) (clear : bool) : M Dense :=
  count_get ;;;
  p <- get_pool ;;
  s <- match take_buf (r * c) p with
       | Some (s, p') => set_pool p' ;;; ret (reslice s (r * c))
       | None => make (r * c)
       end ;;
  (if clear then store s (replicate (r * c) f0) else ret tt) ;;;
  ret (mkDense (mkGeneral r c c s) r c).

Definition putWorkspace (x : Dense) : M unit := fun w =>
  Done tt (mkWorld (heap w) (Data (mat x) :: pool w) (gets w) (S (puts w))).

(** ** The numeric kernels *)

(** blas64 and lapack64 are other repositories.  A kernel is a function
    from the values of its arguments to the new values of the slices it
    writes; the wrappers below write these through the slices. *)
Class Kernels := {
  k_Geqrf : General (list float) -> list float -> list float -> Z ->
            list float * list float * list float;
  k_Ormqr : Side -> Transpose -> General (list float) -> list float ->
            General (list float) -> list float -> Z ->
            list float * list float;
  k_Trtrs : Transpose -> Triangular (list float) -> General (list float) ->
            bool * list float;
  k_Ger : float -> blas64.Vector (list float) -> blas64.Vector (list float) ->
          General (list float) -> list float;
  k_Gemm : Transpose -> Transpose -> float -> General (list float) ->
           General (list float) -> float -> General (list float) -> list float
}.

Definition gen_val (h : list (list float)) (g : General slice)
  : General (list float) :=
  mkGeneral (Rows g) (Cols g) (Stride g) (contents h (Data g)).

Definition tri_val (h : list (list float)) (t : Triangular slice)
  : Triangular (list float) :=
  mkTriangular (N t) (tStride t) (contents h (tData t)) (Uplo t) (Diag t).

Section Code.
Context {K : Kernels}.

(** lapack64.Geqrf(a, tau, work, lwork): overwrites a, tau and work. *)
Definition Geqrf (a : General slice) (tau work : list float) (lwork : Z)
  : M (list float * list float) := fun w =>
  let res := k_Geqrf (gen_val (heap w) a) tau work lwork in
  (store (Data a) (fst (fst res)) ;;;
   ret (fit tau (snd (fst res)), fit work (snd res))) w.

(** lapack64.Ormqr(side, trans, a, tau, c, work, lwork): overwrites c and
    work. *)
Definition Ormqr (side : Side) (trans : Transpose) (a : General slice)
    (tau : list float) (c : General slice) (work : list float) (lwork : Z)
  : M (list float) := fun w =>
  let res := k_Ormqr side trans (gen_val (heap w) a) tau
                     (gen_val (heap w) c) work lwork in
  (store (Data c) (fst res) ;;; ret (fit work (snd res))) w.

(** lapack64.Trtrs(trans, a, b): overwrites b, reports success. *)
Definition Trtrs (trans : Transpose) (a : Triangular slice) (b : General slice)
  : M bool := fun w =>
  let res := k_Trtrs trans (tri_val (heap w) a) (gen_val (heap w) b) in
  (store (Data b) (snd res) ;;; ret (fst res)) w.

(** blas64.Ger(alpha, x, y, a) on local slices: the new a.Data. *)
Definition Ger (alpha : float) (x y : blas64.Vector (list float))
    (a : General (list float)) : list float :=
  fit (Data a) (k_Ger alpha x y a).

(** blas64.Gemm(tA, tB, alpha, a, b, beta, c): overwrites c; here b is held
    in a local slice. *)
Definition Gemm (tA tB : Transpose) (alpha : float) (a : General slice)
    (b : General (list float)) (beta : float) (c : General slice)
  : M unit := fun w =>
  store (Data c)
        (k_Gemm tA tB alpha (gen_val (heap w) a) b beta (gen_val (heap w) c)) w.

(** ** src/mat64/qr.go *)

(** [work = make([]float64, int(work[0]))] *)
Definition work_alloc (work : list float) : M (list float) :=
  x <- lrd work 0 ;; make_local (int_of_float x).

(** QR.Factorize (qr.go:28).  The receiver is returned updated. *)
Definition Factorize (q : QR) (a : Matrix) : M QR :=
  let m := fst (MDims a) in
  let n := snd (MDims a) in
  if m <? n then throw ErrShape else
  let k := Nat.min m n in
  let d := match qr q with None => emptyDense | Some d => d end in
  d <- Clone d a ;;
  let work := replicate 1 f0 in
  let tau0 := replicate k f0 in
  tw <- Geqrf (mat d) tau0 work (-1) ;;
  work <- work_alloc (snd tw) ;;
  tw <- Geqrf (mat d) (fst tw) work (Z.of_nat (length work)) ;;
  ret (mkQR (Some d) (fst tw)).

(** Dense.RFromQR (qr.go:50). *)
Definition RFromQR (m : Dense) (q : QR) : M Dense :=
  d <- deref (qr q) ;;
  let r := fst (Dims d) in
  let c := snd (Dims d) in
  m <- reuseAs m r c ;;
  let t := mkTriDense (mkTriangular c (Stride (mat d)) (Data (mat d))
                                    Upper NonUnit) in
  Copy m (MTri t) ;;;
  ret m.

(** The body of the loop over the reflectors of QFromQR (qr.go:96-120);
    the state is (h.Data, v.Data). *)
Definition QFromQR_step (m d qCopy : Dense) (tau : list float) (r : nat)
    (i : nat) (hv : list float * list float) : M (list float * list float) :=
  (* Set h = I. *)
  hD <- for_range 0 (length (fst hv)) (fun i hD => lwr hD i f0) (fst hv) ;;
  hD <- for_range 0 r (fun j hD => lwr hD (j * r + j) f1) hD ;;
  (* Set the vector data as the elementary reflector. *)
  vD <- for_range 0 i (fun j vD => lwr vD j f0) (snd hv) ;;
  vD <- lwr vD i f1 ;;
  vD <- for_range (i + 1) r (fun j vD =>
          x <- rd (Data (mat d)) (j * Stride (mat d) + i) ;; lwr vD j x) vD ;;
  (* Compute the multiplication matrix. *)
  t <- lrd tau i ;;
  let v := mkVector 1 vD in
  let hD := Ger (- t)%float v v (mkGeneral r r r hD) in
  Copy qCopy (MDense m) ;;;
  Gemm NoTrans NoTrans f1 (mat qCopy) (mkGeneral r r r hD) f0 (mat m) ;;;
  ret (hD, vD).

(** Dense.QFromQR (qr.go:68). *)
Definition QFromQR (m : Dense) (q : QR) : M Dense :=
  d <- deref (qr q) ;;
  let r := fst (Dims d) in
  let c := snd (Dims d) in
  m <- reuseAs m r r ;;
  (* Set Q = I. *)
  for_ 0 r (fun i =>
    for_ 0 i (fun j => wr (Data (mat m)) (i * Stride (mat m) + j) f0) ;;;
    wr (Data (mat m)) (i * Stride (mat m) + i) f1 ;;;
    for_ (i + 1) r (fun j => wr (Data (mat m)) (i * Stride (mat m) + j) f0)) ;;;
  (* Construct Q from the elementary reflectors. *)
  let hD := replicate (r * r) f0 in
  qCopy <- getWorkspace r r false ;;
  let vD := replicate r f0 in
  let k := Nat.min r c in
  for_range 0 k (QFromQR_step m d qCopy (tau q) r) (hD, vD) ;;;
  ret m.

(** The two calls of Ormqr: the workspace query, then the product. *)
Definition Ormqr2 (side : Side) (trans : Transpose) (a : General slice)
    (tau : list float) (c : General slice) : M unit :=
  let work := replicate 1 f0 in
  work <- Ormqr side trans a tau c work (-1) ;;
  work <- work_alloc work ;;
  Ormqr side trans a tau c work (Z.of_nat (length work)) ;;;
  ret tt.

(** Dense.SolveQR (qr.go:134).  The receiver is returned updated, with the
    error. *)
Definition SolveQR (m : Dense) (q : QR) (trans : bool) (b : operand Matrix)
  : M (Dense * option error) :=
  d <- deref (qr q) ;;
  let r := fst (Dims d) in
  let c := snd (Dims d) in
  let br := fst (MDims (read (MDense m) b)) in
  let bc := snd (MDims (read (MDense m) b)) in
  m <- (if trans
        then (if negb (c =? br) then throw ErrShape else reuseAs m r bc)
        else (if negb (r =? br) then throw ErrShape else reuseAs m c bc)) ;;
  x <- getWorkspace (Nat.max r c) bc false ;;
  (* b is read again here; when it is the receiver, it has been resized *)
  Copy x (read (MDense m) b) ;;;
  let t := mkTriangular (Cols (mat d)) (Stride (mat d)) (Data (mat d))
                        Upper NonUnit in
  if trans then
    ok <- Trtrs Trans t (mat x) ;;
    if negb ok then ret (m, Some (Condition infinity)) else
    for_ c r (fun i =>
      for_ 0 bc (fun j => wr (Data (mat x)) (i * Stride (mat x) + j) f0)) ;;;
    Ormqr2 Left NoTrans (mat d) (tau q) (mat x) ;;;
    Copy m (MDense x) ;;;
    putWorkspace x ;;;
    ret (m, None)
  else
    Ormqr2 Left Trans (mat d) (tau q) (mat x) ;;;
    ok <- Trtrs NoTrans t (mat x) ;;
    if negb ok then ret (m, Some (Condition infinity)) else
    Copy m (MDense x) ;;;
    putWorkspace x ;;;
    ret (m, None).

(** vecAsDense (qr.go:210). *)
Definition vecAsDense (v : Vector) : Dense :=
  mkDense (mkGeneral (n v) 1 (Inc (vmat v)) (vData (vmat v))) (n v) 1.

(** Vector.SolveQRVec (qr.go:195).  The receiver is returned updated. *)
Definition SolveQRVec (v : Vector) (q : QR) (trans : bool)
    (b : operand Vector) : M (Vector * option error) :=
  d <- deref (qr q) ;;
  let r := fst (Dims d) in
  let c := snd (Dims d) in
  v <- (if trans then VreuseAs v r else VreuseAs v c) ;;
  (* m and bm are two new Dense, also when b is the receiver *)
  let m := vecAsDense v in
  let bm := vecAsDense (read v b) in
  me <- SolveQR m q trans (Other (MDense bm)) ;;
  ret (v, snd me).

End Code.

(** ** Predicates of the statements *)

(** [c] never panics with ErrShape. *)
Definition noshape {A} (c : M A) : Prop := forall w, c w <> Panic ErrShape.

(** [s] is a slice of the store [h]: its capacity lies within its backing
    array, which is allocated. *)
Definition valid (h : list (list float)) (s : slice) : Prop :=
  s_len s <= s_cap s /\ s_cap s <= length (arr_of h s) /\
  match s_ptr s with Some b => b < length h | None => True end.

(** The list [g 0; ...; g (n-1)]. *)
Definition tab (n : nat) (g : nat -> float) : list float := g <$> seq 0 n.

(** [k] elements of [l] followed by what [arr] holds from [k] on: an array
    that is being filled from the left. *)
Definition pre (l arr : list float) (k : nat) : list float :=
  take k l ++ drop k arr.

(** The slice a matrix reads. *)
Definition mdata (a : Matrix) : slice :=
  match a with
  | MDense d => Data (mat d)
  | MTri t => tData (tmat t)
  end.

(** The value of [a.At(i, j)] in the store [h], when it does not panic. *)
Definition sl_get (h : list (list float)) (s : slice) (i : nat) : option float :=
  if i <? s_len s then arr_of h s !! i else None.

Definition at_val (h : list (list float)) (a : Matrix) (i j : nat)
  : option float :=
  match a with
  | MDense d => sl_get h (Data (mat d)) (i * Stride (mat d) + j)
  | MTri t =>
      if Uplo (tmat t)
      then (if j <? i then Some f0
            else sl_get h (tData (tmat t)) (i * tStride (tmat t) + j))
      else (if i <? j then Some f0
            else sl_get h (tData (tmat t)) (i * tStride (tmat t) + j))
  end.

(** Modelled from the spec: element [i] of a vector (mat64/vector.go is not
    under src/): the element of its slice that lies [i] increments after the
    first one; nothing out of the slice. *)
Definition vat (h : list (list float)) (v : Vector) (i : nat) : option float :=
  sl_get h (vData (vmat v)) (i * Inc (vmat v)).

(** The r×r identity, row by row. *)
Definition eye (r : nat) : list float :=
  tab (r * r) (fun k => if k / r =? k mod r then f1 else f0).

(** Every buffer of the pool is an allocated slice of the store. *)
Definition pool_ok (w : World) : Prop :=
  Forall (fun s => is_Some (s_ptr s) /\ valid (heap w) s) (pool w).

(** The storage of [s] is not a buffer of the pool. *)
Definition off_pool (w : World) (s : slice) : Prop :=
  Forall (fun s' => s_ptr s' <> s_ptr s) (pool w).

(** Every entry of the r×c matrix with stride [s] lies within [len]
    elements. *)
Definition in_range (g : General slice) : Prop :=
  Rows g = 0 \/ Cols g = 0 \/
  (Rows g - 1) * Stride g + Cols g <= s_len (Data g).

(** A dense matrix of the store. *)
Definition wf_dense (h : list (list float)) (d : Dense) : Prop :=
  valid h (Data (mat d)) /\ in_range (mat d).

(** A factorized QR of the store: the factor with one scalar per
    reflector. *)
Definition wf_QR (h : list (list float)) (q : QR) (d : Dense) : Prop :=
  qr q = Some d /\ wf_dense h d /\
  length (tau q) = Nat.min (Rows (mat d)) (Cols (mat d)).

(** Entry (i, j) of a matrix value, zero out of its data. *)
Definition entry (g : General (list float)) (i j : nat) : float :=
  default f0 (Data g !! (i * Stride g + j)).

(** The vector that defines reflector [i] of the factor [g]: zero above
    index [i], one at index [i], column [i] of the factor below. *)
Definition reflector (g : General (list float)) (i : nat) : list float :=
  tab (Rows g) (fun j =>
    if j <? i then f0 else if j =? i then f1 else entry g j i).

(** ** What the extractors and the solver compute, in terms of the kernels *)

Section Spec.
Context {K : Kernels}.

(** An r×r matrix value with contiguous rows. *)
Definition sq (r : nat) (l : list float) : General (list float) :=
  mkGeneral r r r l.

(** H = I - tau[i] v vᵗ, formed by the rank-1-update kernel from the
    identity and the vector of reflector [i]. *)
Definition householder (g : General (list float)) (tau : list float) (i : nat)
  : list float :=
  let v := mkVector 1 (reflector g i) in
  Ger (- default f0 (tau !! i))%float v v (sq (Rows g) (eye (Rows g))).

(** Q <- Q·H, formed by the matrix-multiply kernel. *)
Definition Q_step (g : General (list float)) (tau : list float)
    (Q : list float) (i : nat) : list float :=
  fit Q (k_Gemm NoTrans NoTrans f1 (sq (Rows g) Q)
           (sq (Rows g) (householder g tau i)) f0 (sq (Rows g) Q)).

(** The explicit Q: the identity multiplied on the right by the reflectors
    0, 1, ..., k-1 in this order, k = min(m, n). *)
Definition Q_explicit (g : General (list float)) (tau : list float)
  : list float :=
  foldl (Q_step g tau) (eye (Rows g))
        (seq 0 (Nat.min (Rows g) (Cols g))).

(** The matrix value [g] with other data. *)
Definition with_data (g : General (list float)) (l : list float)
  : General (list float) :=
  mkGeneral (Rows g) (Cols g) (Stride g) l.

(** The factor seen as its upper triangle R. *)
Definition tri_of (g : General (list float)) : Triangular (list float) :=
  mkTriangular (Cols g) (Stride g) (Data g) Upper NonUnit.

(** The orthogonal factor (or its transpose) applied to the matrix value
    [x] by the apply-reflectors kernel, called for its workspace size and
    then for the product: the new data of [x], or nothing when the reported
    workspace size is negative. *)
Definition apply_Q (side : Side) (trans : Transpose)
    (g : General (list float)) (tau : list float) (x : General (list float))
  : option (list float) :=
  let q := k_Ormqr side trans g tau x (replicate 1 f0) (-1) in
  let x1 := fit (Data x) (fst q) in
  let lw := int_of_float (default f0 (fit (replicate 1 f0) (snd q) !! 0)) in
  if (lw <? 0)%Z then None else
  let work := replicate (Z.to_nat lw) f0 in
  Some (fit x1 (fst (k_Ormqr side trans g tau (with_data x x1) work
                             (Z.of_nat (length work))))).

(** The first [c] rows of [x], extended by r-c rows of zeros. *)
Definition zero_extend (c r bc : nat) (x : list float) : list float :=
  take (c * bc) x ++ replicate ((r - c) * bc) f0.

(** The solve on the scratch matrix value [x] that holds B: the report of
    the triangular solve and the final data of the scratch; nothing when a
    workspace size is negative.
    Not transposed: Qᵗ is applied on the left, then R X = Qᵗ B is solved in
    place.  Transposed: Rᵗ X' = B is solved in place, X' is extended by zero
    rows and Q is applied on the left. *)
Definition solve_scratch (trans : bool) (g : General (list float))
    (tau : list float) (x : General (list float))
  : option (bool * list float) :=
  if trans then
    let t := k_Trtrs Trans (tri_of g) x in
    let x1 := fit (Data x) (snd t) in
    if fst t then
      let x2 := zero_extend (Cols g) (Rows g) (Cols x) x1 in
      x3 ← apply_Q Left NoTrans g tau (with_data x x2); Some (true, x3)
    else Some (false, x1)
  else
    x1 ← apply_Q Left Trans g tau x;
    let t := k_Trtrs NoTrans (tri_of g) (with_data x x1) in
    Some (fst t, fit x1 (snd t)).

(** The factorization kernel on the matrix value [g], called for its
    workspace size and then for the factorization: the factor and the
    scalars of its reflectors, or nothing when the reported workspace size
    is negative. *)
Definition factor_of (g : General (list float))
  : option (list float * list float) :=
  let tau0 := replicate (Nat.min (Rows g) (Cols g)) f0 in
  let q := k_Geqrf g tau0 (replicate 1 f0) (-1) in
  let a1 := fit (Data g) (fst (fst q)) in
  let tau1 := fit tau0 (snd (fst q)) in
  let lw := int_of_float (default f0 (fit (replicate 1 f0) (snd q) !! 0)) in
  if (lw <? 0)%Z then None else
  let work := replicate (Z.to_nat lw) f0 in
  let f := k_Geqrf (with_data g a1) tau1 work (Z.of_nat (length work)) in
  Some (fit a1 (fst (fst f)), fit tau1 (snd (fst f))).

(** The workspace queries of the kernels report a size that is not
    negative. *)
Definition Ormqr_query_ok : Prop :=
  forall side trans g tau x,
    (0 <= int_of_float (default f0
            (fit (replicate 1 f0)
                 (snd (k_Ormqr side trans g tau x (replicate 1 f0) (-1))) !! 0%nat)))%Z.

Definition Geqrf_query_ok : Prop :=
  forall g tau,
    (0 <= int_of_float (default f0
            (fit (replicate 1 f0)
                 (snd (k_Geqrf g tau (replicate 1 f0) (-1))) !! 0%nat)))%Z.

End Spec.

(** Entry (i, j) of the matrix [a] in the store [h], and its elements row
    by row. *)
Definition mentry (h : list (list float)) (a : Matrix) (i j : nat) : float :=
  default f0 (at_val h a i j).

Definition flat (h : list (list float)) (a : Matrix) : list float :=
  tab (fst (MDims a) * snd (MDims a))
      (fun k => mentry h a (k / snd (MDims a)) (k mod snd (MDims a))).

(** What [x.Copy(b)] of SolveQR finds in B, row by row, the receiver [m]
    having been resized to [rows] rows: the elements of B when B is another
    object; when B is the receiver itself, the elements of the resized
    receiver, which are the first elements of its storage when that was
    large enough, and zeros when it was allocated anew. *)
Definition copied (h : list (list float)) (m : Dense) (rows : nat)
    (b : operand Matrix) : list float :=
  match b with
  | Other a => flat h a
  | Self =>
      let len := rows * Cols (mat m) in
      if len <=? s_cap (Data (mat m))
      then take len (arr_of h (Data (mat m)))
      else replicate len f0
  end.

(** A matrix of the store. *)
Definition wf_matrix (h : list (list float)) (a : Matrix) : Prop :=
  match a with
  | MDense d => wf_dense h d
  | MTri t =>
      valid h (tData (tmat t)) /\
      in_range (mkGeneral (N (tmat t)) (N (tmat t)) (tStride (tmat t))
                          (tData (tmat t)))
  end.

(** What a call of SolveQR leaves of the store [w] in the store [w'] after
    it, [s] being the storage of the receiver before the call, [sm] after it,
    [xs] the scratch and [ok] the report of the triangular solve: every slice
    stays a slice; a slice that is off the pool and is not the storage of the
    receiver keeps its backing array, which is neither that of the resized
    receiver nor that of the scratch; when the solve fails no backing array
    off the pool is written; the pool gains the scratch when the solve
    succeeds, and nothing else; the scratch is not the storage of any slice
    that is off the pool. *)
Definition SolveQR_frame (w : World) (s sm xs : slice) (ok : bool)
    (w' : World) : Prop :=
  (forall t, valid (heap w) t -> valid (heap w') t) /\
  (forall t, valid (heap w) t -> off_pool w t -> s_ptr t <> s_ptr s ->
     arr_of (heap w') t = arr_of (heap w) t /\
     s_ptr t <> s_ptr sm /\ s_ptr t <> s_ptr xs) /\
  (ok = false -> forall t, valid (heap w) t -> off_pool w t ->
     arr_of (heap w') t = arr_of (heap w) t) /\
  valid (heap w') sm /\ valid (heap w') xs /\ is_Some (s_ptr xs) /\
  off_pool w sm /\
  (forall p, p ∈ pool w' -> p ∈ pool w \/ (ok = true /\ p = xs)) /\
  (ok = true -> xs ∈ pool w') /\
  (forall t, valid (heap w) t -> off_pool w t -> s_ptr t <> s_ptr xs).

(** The scratch [xs] shows [C], followed by [tl] in its backing array. *)
Definition scratch (w : World) (xs : slice) (bx : loc) (C tl : list float) : Prop :=
  s_ptr xs = Some bx /\ bx < length (heap w) /\
  arr_of (heap w) xs = C ++ tl /\ length C = s_len xs.


(** ** Reference kernels

    An instance of [Kernels] to run the embedding on concrete matrices: the
    textbook algorithms of the five kernels, for the arguments qr.go gives
    them (upper non-unit triangles, reflectors applied on the left).  They
    need no workspace and report the minimum size 1. *)

Open Scope float_scope.

Definition getf (l : list float) (k : nat) : float := default f0 (l !! k).

Definition fsum (f : nat -> float) (l : list nat) : float :=
  foldl (fun acc k => acc + f k) f0 l.

(** A += alpha x yᵗ *)
Definition ref_Ger (alpha : float) (x y : blas64.Vector (list float))
    (a : General (list float)) : list float :=
  imap (fun k v =>
    let i := (k / Stride a)%nat in
    let j := (k mod Stride a)%nat in
    if (i <? Rows a)%nat && (j <? Cols a)%nat
    then v + alpha * getf (vData x) (i * Inc x) * getf (vData y) (j * Inc y)
    else v) (Data a).

Definition mat_at (t : Transpose) (a : General (list float)) (i j : nat)
  : float :=
  match t with
  | NoTrans => getf (Data a) (i * Stride a + j)
  | Trans => getf (Data a) (j * Stride a + i)
  end.

(** C = alpha A B + beta C *)
Definition ref_Gemm (tA tB : Transpose) (alpha : float)
    (a b : General (list float)) (beta : float) (c : General (list float))
  : list float :=
  let inner := match tA with NoTrans => Cols a | Trans => Rows a end in
  imap (fun k v =>
    let i := (k / Stride c)%nat in
    let j := (k mod Stride c)%nat in
    if (i <? Rows c)%nat && (j <? Cols c)%nat
    then alpha * fsum (fun l => mat_at tA a i l * mat_at tB b l j) (seq 0 inner)
         + (if beta =? 0 then 0 else beta * v)
    else v) (Data c).

Definition tri_at (t : Triangular (list float)) (i j : nat) : float :=
  getf (tData t) (i * tStride t + j).

(** One unknown of U x = b, the rows below being solved. *)
Definition back_step (t : Triangular (list float)) (S col : nat)
    (x : list float) (i : nat) : list float :=
  let s := fsum (fun j => tri_at t i j * getf x (j * S + col))
                (seq (i + 1) (N t - (i + 1))) in
  <[(i * S + col)%nat := (getf x (i * S + col) - s) / tri_at t i i]> x.

(** One unknown of Uᵗ x = b, the rows above being solved. *)
Definition forward_step (t : Triangular (list float)) (S col : nat)
    (x : list float) (i : nat) : list float :=
  let s := fsum (fun j => tri_at t j i * getf x (j * S + col)) (seq 0 i) in
  <[(i * S + col)%nat := (getf x (i * S + col) - s) / tri_at t i i]> x.

(** Solves U X = B or Uᵗ X = B in place; fails on a zero diagonal entry. *)
Definition ref_Trtrs (trans : Transpose) (t : Triangular (list float))
    (b : General (list float)) : bool * list float :=
  if existsb (fun i => tri_at t i i =? 0) (seq 0 (N t))
  then (false, Data b)
  else (true,
        foldl (fun x col =>
                 match trans with
                 | NoTrans => foldl (back_step t (Stride b) col) x
                                    (reverse (seq 0 (N t)))
                 | Trans => foldl (forward_step t (Stride b) col) x
                                  (seq 0 (N t))
                 end)
              (Data b) (seq 0 (Cols b))).

(** H C for the reflector H = I - tau v vᵗ held in column [i] of [a] (v is 1
    at row i), on the columns [cols] of the data [x] with stride [S]. *)
Definition reflect (a : General (list float)) (tau_i : float) (i : nat)
    (S : nat) (cols : list nat) (x : list float) : list float :=
  let below := seq (i + 1) (Rows a - (i + 1)) in
  foldl (fun x j =>
    let w := getf x (i * S + j)
             + fsum (fun l => mat_at NoTrans a l i * getf x (l * S + j)) below in
    let x := <[(i * S + j)%nat := getf x (i * S + j) - tau_i * w]> x in
    foldl (fun x l =>
             <[(l * S + j)%nat :=
                 getf x (l * S + j) - tau_i * w * mat_at NoTrans a l i]> x)
          x below) x cols.

(** Reflector [i] of the factorization: column i is replaced by R(i,i) and
    v; the scalar tau is returned. *)
Definition make_reflector (a : General (list float)) (i : nat)
  : list float * float :=
  let below := seq (i + 1) (Rows a - (i + 1)) in
  let alpha := mat_at NoTrans a i i in
  let xnorm := sqrt (fsum (fun l => mat_at NoTrans a l i * mat_at NoTrans a l i)
                          below) in
  if xnorm =? 0 then (Data a, 0)
  else
    let norm := sqrt (alpha * alpha + xnorm * xnorm) in
    let beta := if alpha <? 0 then norm else - norm in
    let x := foldl (fun x l =>
               <[(l * Stride a + i)%nat :=
                   getf x (l * Stride a + i) / (alpha - beta)]> x)
                   (Data a) below in
    (<[(i * Stride a + i)%nat := beta]> x, (beta - alpha) / beta).

(** Householder QR, column by column. *)
Definition ref_Geqrf (a : General (list float)) (tau work : list float)
    (lwork : Z) : list float * list float * list float :=
  if (lwork =? -1)%Z then (Data a, tau, [1])
  else
    let step := fun (st : list float * list float) (i : nat) =>
      let g := mkGeneral (Rows a) (Cols a) (Stride a) (fst st) in
      let rt := make_reflector g i in
      let g1 := mkGeneral (Rows a) (Cols a) (Stride a) (fst rt) in
      (reflect g1 (snd rt) i (Stride a) (seq (i + 1) (Cols a - (i + 1))) (fst rt),
       <[i := snd rt]> (snd st)) in
    (foldl step (Data a, tau) (seq 0 (Nat.min (Rows a) (Cols a))), work).

(** Q C or Qᵗ C for Q = H(0) H(1) ... H(k-1). *)
Definition ref_Ormqr (side : Side) (trans : Transpose)
    (a : General (list float)) (tau : list float) (c : General (list float))
    (work : list float) (lwork : Z) : list float * list float :=
  if (lwork =? -1)%Z then (Data c, [1])
  else
    match side with
    | Left =>
        let order := match trans with
                     | Trans => seq 0 (length tau)
                     | NoTrans => reverse (seq 0 (length tau))
                     end in
        (foldl (fun x i => reflect a (getf tau i) i (Stride c)
                                   (seq 0 (Cols c)) x) (Data c) order, work)
    | Right => (Data c, work)
    end.

Close Scope float_scope.

Definition RefKernels : Kernels :=
  {| k_Geqrf := ref_Geqrf; k_Ormqr := ref_Ormqr; k_Trtrs := ref_Trtrs;
     k_Ger := ref_Ger; k_Gemm := ref_Gemm |}.

(** ** Concrete inputs *)

(** A 3×2 matrix A, a 3×1 right-hand side and a 2×1 right-hand side. *)
Definition ex_A : Dense := mkDense (mkGeneral 3 2 2 (mkSlice (Some 0) 6 6)) 3 2.
Definition ex_B : Dense := mkDense (mkGeneral 3 1 1 (mkSlice (Some 1) 3 3)) 3 1.
Definition ex_Bt : Dense := mkDense (mkGeneral 2 1 1 (mkSlice (Some 2) 2 2)) 2 1.
Definition ex_b : Vector := mkVec (mkVector 1 (mkSlice (Some 1) 3 3)) 3.
Definition ex_v : Vector := mkVec (mkVector 0 nil_slice) 0.
Definition ex_w0 : World :=
  mkWorld [[1; 2; 3; 4; 5; 6]%float; [1; 2; 4]%float; [1; 2]%float] [] 0 0.

(** A factorized by the reference kernels. *)
Definition ex_fact : Res QR :=
  Eval vm_compute in @Factorize RefKernels (mkQR None []) (MDense ex_A) ex_w0.
Definition ex_F : Dense := mkDense (mkGeneral 3 2 2 (mkSlice (Some 3) 6 6)) 3 2.
Definition ex_qr : QR :=
  Eval vm_compute in
    match ex_fact with Done q _ => q | Panic _ => mkQR None [] end.
Definition ex_w1 : World :=
  Eval vm_compute in
    match ex_fact with Done _ w => w | Panic _ => ex_w0 end.

(** A 3×2 matrix whose second column is zero, factorized. *)
Definition sing_w0 : World := mkWorld [[1; 0; 0; 0; 0; 0]%float; [1; 2; 4]%float] [] 0 0.
Definition sing_fact : Res QR :=
  Eval vm_compute in @Factorize RefKernels (mkQR None []) (MDense ex_A) sing_w0.
Definition sing_qr : QR :=
  Eval vm_compute in
    match sing_fact with Done q _ => q | Panic _ => mkQR None [] end.
Definition sing_w1 : World :=
  Eval vm_compute in
    match sing_fact with Done _ w => w | Panic _ => sing_w0 end.

(** The 2×1 matrix (3, 4)ᵗ factorized, and a 2×1 destination that holds
    (9, 9)ᵗ. *)
Definition tall_A : Dense := mkDense (mkGeneral 2 1 1 (mkSlice (Some 0) 2 2)) 2 1.
Definition tall_dst : Dense := mkDense (mkGeneral 2 1 1 (mkSlice (Some 1) 2 2)) 2 1.
Definition tall_w0 : World := mkWorld [[3; 4]%float; [9; 9]%float] [] 0 0.
Definition tall_fact : Res QR :=
  Eval vm_compute in @Factorize RefKernels (mkQR None []) (MDense tall_A) tall_w0.
Definition tall_F : Dense := mkDense (mkGeneral 2 1 1 (mkSlice (Some 2) 2 2)) 2 1.
Definition tall_qr : QR :=
  Eval vm_compute in
    match tall_fact with Done q _ => q | Panic _ => mkQR None [] end.
Definition tall_w1 : World :=
  Eval vm_compute in
    match tall_fact with Done _ w => w | Panic _ => tall_w0 end.

(** The store of the example with one buffer on the pool, which holds three
    stale elements. *)
Definition ex_w2 : World :=
  mkWorld (heap ex_w1 ++ [[7; 7; 7]%float]) [mkSlice (Some 4) 3 3] 0 0.

(** A factor of two rows and no column, with no reflector. *)
Definition nocol_F : Dense := mkDense (mkGeneral 2 0 0 (mkSlice (Some 0) 0 0)) 2 0.
Definition nocol_qr : QR := mkQR (Some nocol_F) [].
Definition nocol_w : World := mkWorld [[]] [] 0 0.

(** * Proofs *)

(** ** The monad and the loops *)

Lemma bind_Done {A B} (c : M A) (k : A -> M B) w a w' :
  c w = Done a w' -> bind c k w = k a w'.
Proof. intros E. unfold bind. by rewrite E. Qed.

Lemma bind_Panic {A B} (c : M A) (k : A -> M B) w p :
  c w = Panic p -> bind c k w = Panic p.
Proof. intros E. unfold bind. by rewrite E. Qed.

(** The invariant rule of the counted loop, for total correctness. *)
Lemma for_n_inv {S} (I : nat -> S -> World -> Prop) (body : nat -> S -> M S) cnt :
  forall lo s w,
  I lo s w ->
  (forall i s w, lo <= i < lo + cnt -> I i s w ->
     exists s' w', body i s w = Done s' w' /\ I (Datatypes.S i) s' w') ->
  exists s' w', for_n cnt lo body s w = Done s' w' /\ I (lo + cnt) s' w'.
Proof.
  induction cnt as [|cnt IH]; intros lo s w H0 Hstep; simpl.
  - exists s, w. split; [done|]. by rewrite Nat.add_0_r.
  - destruct (Hstep lo s w) as (s1 & w1 & E1 & H1); [lia|done|].
    rewrite (bind_Done _ _ _ _ _ E1).
    destruct (IH (Datatypes.S lo) s1 w1 H1) as (s2 & w2 & E2 & H2).
    { intros i s' w' Hi. apply Hstep. lia. }
    exists s2, w2. split; [done|].
    by replace (lo + Datatypes.S cnt) with (Datatypes.S lo + cnt) by lia.
Qed.

Lemma for_range_inv {S} (I : nat -> S -> World -> Prop) body lo hi s w :
  lo <= hi ->
  I lo s w ->
  (forall i s w, lo <= i < hi -> I i s w ->
     exists s' w', body i s w = Done s' w' /\ I (Datatypes.S i) s' w') ->
  exists s' w', for_range lo hi body s w = Done s' w' /\ I hi s' w'.
Proof.
  intros Hle H0 Hstep. unfold for_range.
  destruct (for_n_inv I body (hi - lo) lo s w H0) as (s' & w' & E & H).
  { intros i s1 w1 Hi. apply Hstep. lia. }
  exists s', w'. split; [done|]. by replace hi with (lo + (hi - lo)) by lia.
Qed.

Lemma for_range_empty {S} (body : nat -> S -> M S) lo hi s w :
  hi <= lo -> for_range lo hi body s w = Done s w.
Proof. intros H. unfold for_range. by replace (hi - lo) with 0 by lia. Qed.

(** A loop over the store alone whose state after [i] steps is [W i]. *)
Lemma for_chain (W : nat -> World) (body : nat -> M unit) lo hi :
  lo <= hi ->
  (forall i, lo <= i < hi -> body i (W i) = Done tt (W (Datatypes.S i))) ->
  for_ lo hi body (W lo) = Done tt (W hi).
Proof.
  intros Hle Hstep. unfold for_.
  destruct (for_range_inv (fun i (_ : unit) w => w = W i)
              (fun i _ => body i) lo hi tt (W lo) Hle eq_refl)
    as ([] & w' & E & ->); [|done].
  intros i [] w Hi ->. exists tt, (W (Datatypes.S i)). split; [by apply Hstep|done].
Qed.

(** A loop over a local value whose state after [i] steps is [L i]. *)
Lemma for_chain_local {S} (L : nat -> S) (body : nat -> S -> M S) lo hi w :
  lo <= hi ->
  (forall i, lo <= i < hi -> body i (L i) w = Done (L (Datatypes.S i)) w) ->
  for_range lo hi body (L lo) w = Done (L hi) w.
Proof.
  intros Hle Hstep.
  destruct (for_range_inv (fun i s w' => s = L i /\ w' = w)
              body lo hi (L lo) w Hle (conj eq_refl eq_refl))
    as (s' & w' & E & -> & ->); [|done].
  intros i s w1 Hi [-> ->]. exists (L (Datatypes.S i)), w. by rewrite Hstep.
Qed.

(** ** Computations that never panic with ErrShape *)

Lemma noshape_ret {A} (a : A) : noshape (ret a).
Proof. by intros w. Qed.

Lemma noshape_throw {A} : noshape (@throw A RuntimeError).
Proof. by intros w. Qed.

Lemma noshape_bind {A B} (c : M A) (k : A -> M B) :
  noshape c -> (forall a, noshape (k a)) -> noshape (bind c k).
Proof.
  intros Hc Hk w. unfold bind. specialize (Hc w).
  destruct (c w) as [a w'|p]; [apply Hk|]. by destruct p.
Qed.

Lemma noshape_for_n {S} (body : nat -> S -> M S) cnt :
  (forall i s, noshape (body i s)) -> forall i s, noshape (for_n cnt i body s).
Proof.
  intros Hb. induction cnt as [|cnt IH]; intros i s; simpl.
  - apply noshape_ret.
  - apply noshape_bind; [apply Hb|]. intros s'. apply IH.
Qed.

Lemma noshape_for_range {S} (body : nat -> S -> M S) lo hi s :
  (forall i s, noshape (body i s)) -> noshape (for_range lo hi body s).
Proof. intros Hb. by apply noshape_for_n. Qed.

Lemma noshape_for (body : nat -> M unit) lo hi :
  (forall i, noshape (body i)) -> noshape (for_ lo hi body).
Proof. intros Hb. apply noshape_for_range. intros i _. apply Hb. Qed.

Lemma noshape_rd s i : noshape (rd s i).
Proof. intros w. unfold rd. repeat case_match; done. Qed.

Lemma noshape_wr s i x : noshape (wr s i x).
Proof. intros w. unfold wr. repeat case_match; done. Qed.

Lemma noshape_store s l : noshape (store s l).
Proof. by intros w. Qed.

Lemma noshape_make l : noshape (make l).
Proof. by intros w. Qed.

Lemma noshape_lrd l i : noshape (lrd l i).
Proof. intros w. unfold lrd. by case_match. Qed.

Lemma noshape_lwr l i x : noshape (lwr l i x).
Proof. intros w. unfold lwr. by case_match. Qed.

Lemma noshape_make_local l : noshape (make_local l).
Proof. intros w. unfold make_local. by case_match. Qed.

Lemma noshape_deref {A} (p : option A) : noshape (deref p).
Proof. intros w. unfold deref. by case_match. Qed.

Lemma noshape_At a i j : noshape (At a i j).
Proof.
  destruct a as [d|t]; simpl; [apply noshape_rd|].
  repeat case_match; auto using noshape_ret, noshape_rd.
Qed.

Lemma noshape_Copy m a : noshape (Copy m a).
Proof.
  unfold Copy. apply noshape_bind; [|intros; apply noshape_ret].
  apply noshape_for. intros i. apply noshape_for. intros j.
  apply noshape_bind; [apply noshape_At|]. intros x. apply noshape_wr.
Qed.

Lemma noshape_reuseAs m r c : noshape (reuseAs m r c).
Proof.
  unfold reuseAs. case_match; [apply noshape_ret|].
  apply noshape_bind; [apply noshape_make|]. intros; apply noshape_ret.
Qed.

Lemma noshape_getWorkspace r c clear : noshape (getWorkspace r c clear).
Proof.
  unfold getWorkspace. apply noshape_bind; [done|]. intros _.
  apply noshape_bind; [done|]. intros p.
  apply noshape_bind.
  { destruct (take_buf (r * c) p) as [[s p']|]; [|apply noshape_make].
    apply noshape_bind; [done|]. intros; apply noshape_ret. }
  intros s. apply noshape_bind; [|intros; apply noshape_ret].
  destruct clear; [apply noshape_store|apply noshape_ret].
Qed.

Lemma noshape_putWorkspace x : noshape (putWorkspace x).
Proof. by intros w. Qed.

(** ** The store *)

Lemma fit_length old new : length (fit old new) = length old.
Proof. unfold fit. rewrite length_app, length_take, length_drop. lia. Qed.

Lemma tab_length n g : length (tab n g) = n.
Proof. unfold tab. by rewrite length_fmap, length_seq. Qed.

Lemma tab_lookup n g k : k < n -> tab n g !! k = Some (g k).
Proof. intros H. unfold tab. by rewrite list_lookup_fmap, lookup_seq_lt. Qed.

Lemma tab_ext n g g' : (forall k, k < n -> g k = g' k) -> tab n g = tab n g'.
Proof.
  intros H. apply list_eq. intros k.
  destruct (decide (k < n)) as [Hk|Hk].
  - rewrite !tab_lookup by done. f_equal. by apply H.
  - rewrite !lookup_ge_None_2; [done| |]; rewrite tab_length; lia.
Qed.

Lemma div_mod_rc i j c : j < c -> (i * c + j) / c = i /\ (i * c + j) mod c = j.
Proof.
  intros H. split.
  - rewrite Nat.add_comm, Nat.div_add by lia. rewrite Nat.div_small by done. lia.
  - rewrite Nat.add_comm, Nat.Div0.mod_add. by apply Nat.mod_small.
Qed.

Lemma set_arr_pool w s a : pool (set_arr w s a) = pool w.
Proof. unfold set_arr. by destruct (s_ptr s). Qed.
Lemma set_arr_gets w s a : gets (set_arr w s a) = gets w.
Proof. unfold set_arr. by destruct (s_ptr s). Qed.
Lemma set_arr_puts w s a : puts (set_arr w s a) = puts w.
Proof. unfold set_arr. by destruct (s_ptr s). Qed.
Lemma set_arr_heap_length w s a : length (heap (set_arr w s a)) = length (heap w).
Proof. unfold set_arr. destruct (s_ptr s); simpl; [apply length_insert|done]. Qed.

Lemma arr_of_set_arr w s s' a b :
  s_ptr s = Some b -> s_ptr s' = Some b -> b < length (heap w) ->
  arr_of (heap (set_arr w s a)) s' = a.
Proof.
  intros E E' Hb. unfold set_arr, arr_of. rewrite E, E'. simpl.
  by rewrite list_lookup_insert_eq.
Qed.

Lemma arr_of_set_arr_ne w s s' a :
  s_ptr s <> s_ptr s' -> arr_of (heap (set_arr w s a)) s' = arr_of (heap w) s'.
Proof.
  intros Hne. unfold set_arr, arr_of.
  destruct (s_ptr s) as [b|], (s_ptr s') as [b'|]; simpl; try done.
  rewrite list_lookup_insert_ne; [done|congruence].
Qed.

Lemma set_arr_set_arr w s s' a a' :
  s_ptr s = s_ptr s' -> set_arr (set_arr w s a) s' a' = set_arr w s' a'.
Proof.
  intros E. unfold set_arr. rewrite <- E. destruct (s_ptr s); simpl; [|done].
  unfold set_heap. simpl. by rewrite list_insert_insert_eq.
Qed.

Lemma set_arr_id w s : set_arr w s (arr_of (heap w) s) = w.
Proof.
  unfold set_arr, arr_of. destruct w as [h p g q]. simpl.
  destruct (s_ptr s) as [b|]; [|done]. unfold set_heap. simpl. f_equal.
  destruct (h !! b) as [a|] eqn:E; simpl.
  - by apply list_insert_id.
  - apply list_insert_ge. by apply lookup_ge_None.
Qed.

Lemma set_arr_comm w s s' a a' :
  s_ptr s <> s_ptr s' ->
  set_arr (set_arr w s a) s' a' = set_arr (set_arr w s' a') s a.
Proof.
  intros Hne. unfold set_arr.
  destruct (s_ptr s) as [b|], (s_ptr s') as [b'|]; simpl; try done.
  unfold set_heap. simpl. f_equal. apply list_insert_insert_ne. congruence.
Qed.

(** *** Filling an array from the left *)

Lemma pre_length l arr k :
  k <= length l -> k <= length arr -> length (pre l arr k) = length arr.
Proof. intros. unfold pre. rewrite length_app, length_take, length_drop. lia. Qed.

Lemma pre_0 l arr : pre l arr 0 = arr.
Proof. done. Qed.

Lemma pre_insert l arr k x :
  l !! k = Some x -> k < length arr ->
  <[k := x]> (pre l arr k) = pre l arr (Datatypes.S k).
Proof.
  intros Hl Hk. unfold pre.
  assert (Hlt : k < length l) by (by eapply lookup_lt_Some).
  rewrite insert_app_r_alt; rewrite length_take; [|lia].
  replace (k - k `min` length l) with 0 by lia.
  rewrite (take_S_r _ _ _ Hl), <- app_assoc. f_equal.
  destruct (lookup_lt_is_Some_2 arr k Hk) as [y Hy].
  by rewrite (drop_S _ _ _ Hy).
Qed.

Lemma pre_lookup_lt l arr k p :
  p < k -> k <= length l -> pre l arr k !! p = l !! p.
Proof.
  intros Hp Hk. unfold pre.
  rewrite lookup_app_l by (rewrite length_take; lia).
  by rewrite lookup_take_lt.
Qed.

Lemma pre_lookup_ge l arr k p :
  k <= p -> k <= length l -> pre l arr k !! p = arr !! p.
Proof.
  intros Hp Hk. unfold pre.
  rewrite lookup_app_r; rewrite length_take; [|lia].
  rewrite lookup_drop. f_equal. lia.
Qed.

Lemma wr_pre w s l arr k x b :
  s_ptr s = Some b -> b < length (heap w) ->
  l !! k = Some x -> k < s_len s -> k < length arr ->
  wr s k x (set_arr w s (pre l arr k)) = Done tt (set_arr w s (pre l arr (Datatypes.S k))).
Proof.
  intros Hb Hlt Hl Hk Ha. unfold wr.
  rewrite (arr_of_set_arr _ _ _ _ b) by done.
  assert (k < length l) by (by eapply lookup_lt_Some).
  rewrite pre_length by lia.
  destruct (Nat.ltb_spec k (s_len s)); [|lia].
  destruct (Nat.ltb_spec k (length arr)); [|lia]. simpl.
  by rewrite set_arr_set_arr, pre_insert.
Qed.

(** *** Reading a matrix *)

Lemma rd_eq s i w :
  rd s i w = match sl_get (heap w) s i with
             | Some x => Done x w
             | None => Panic RuntimeError
             end.
Proof. unfold rd, sl_get. by destruct (i <? s_len s). Qed.

Lemma At_eq a i j w :
  At a i j w = match at_val (heap w) a i j with
               | Some x => Done x w
               | None => Panic RuntimeError
               end.
Proof.
  destruct a as [d|t]; simpl; [apply rd_eq|].
  destruct (Uplo (tmat t)); case_match; try done; apply rd_eq.
Qed.

Lemma sl_get_set_arr_ne w s s' a i :
  s_ptr s <> s_ptr s' -> sl_get (heap (set_arr w s a)) s' i = sl_get (heap w) s' i.
Proof. intros H. unfold sl_get. by rewrite arr_of_set_arr_ne. Qed.

Lemma at_val_set_arr_ne w s a m i j :
  s_ptr s <> s_ptr (mdata m) ->
  at_val (heap (set_arr w s a)) m i j = at_val (heap w) m i j.
Proof.
  intros H. destruct m as [d|t]; simpl in *.
  - by apply sl_get_set_arr_ne.
  - by rewrite !sl_get_set_arr_ne.
Qed.

(** ** Dense.Copy *)

(** A copy that is as wide as the receiver, into a receiver whose rows are
    contiguous, fills the receiver's array from the left, row by row. *)
Lemma Copy_full m a w f rc cd :
  match s_ptr (Data (mat m)) with
  | Some b => b < length (heap w) | None => True end ->
  Stride (mat m) = cd -> Cols (mat m) = cd -> snd (MDims a) = cd ->
  rc = Nat.min (fst (MDims a)) (Rows (mat m)) ->
  rc * cd <= s_len (Data (mat m)) ->
  rc * cd <= length (arr_of (heap w) (Data (mat m))) ->
  (rc * cd = 0 \/ s_ptr (Data (mat m)) <> s_ptr (mdata a)) ->
  (forall i j, i < rc -> j < cd -> at_val (heap w) a i j = Some (f i j)) ->
  Copy m a w =
    Done (rc, cd)
      (set_arr w (Data (mat m))
         (pre (tab (rc * cd) (fun k => f (k / cd) (k mod cd)))
              (arr_of (heap w) (Data (mat m))) (rc * cd))).
Proof.
  intros Hb Hs Hc Ha Hrc Hlen Harr Hsep Hf.
  set (s := Data (mat m)) in *.
  set (arr := arr_of (heap w) s) in *.
  set (l := tab (rc * cd) (fun k => f (k / cd) (k mod cd))).
  set (W := fun k => set_arr w s (pre l arr k)).
  unfold Copy. rewrite Ha, Hc, Nat.min_id, <- Hrc, Hs. fold s.
  assert (E : for_ 0 rc (fun i => for_ 0 cd (fun j =>
                x <- At a i j ;; wr s (i * cd + j) x)) (W (0 * cd))
              = Done tt (W (rc * cd))).
  { apply (for_chain (fun i => W (i * cd))); [lia|].
    intros i Hi.
    replace (Datatypes.S i * cd) with (i * cd + cd) by lia.
    pose proof (for_chain (fun j => W (i * cd + j))
      (fun j => x <- At a i j ;; wr s (i * cd + j) x) 0 cd) as Ein.
    cbv beta in Ein. rewrite Nat.add_0_r in Ein. apply Ein; [lia|]. clear Ein.
    intros j Hj.
    assert (Hk : i * cd + j < rc * cd) by nia.
    assert (Hp : exists b, s_ptr s = Some b /\ b < length (heap w)).
    { destruct (s_ptr s) as [b|] eqn:Eb; [by exists b|].
      exfalso. unfold arr, arr_of in Harr. rewrite Eb in Harr. simpl in Harr. lia. }
    destruct Hp as (b & Eb & Hblt).
    assert (Hne : s_ptr s <> s_ptr (mdata a)) by (destruct Hsep; [lia|done]).
    unfold W at 1.
    erewrite bind_Done; cycle 1.
    { rewrite At_eq, at_val_set_arr_ne, Hf by (done || lia). reflexivity. }
    replace (i * cd + Datatypes.S j) with (Datatypes.S (i * cd + j)) by lia.
    apply (wr_pre _ _ _ _ _ _ b); try done; try lia.
    unfold l. rewrite tab_lookup by done.
    destruct (div_mod_rc i j cd) as [-> ->]; [lia|done]. }
  simpl in E. unfold W at 1 in E. rewrite pre_0 in E.
  unfold arr in E at 1. rewrite set_arr_id in E.
  by rewrite (bind_Done _ _ _ _ _ E).
Qed.

(** ** Setting a matrix to the identity (qr.go:73-81) *)

Lemma eye_lookup r i j :
  i < r -> j < r -> eye r !! (i * r + j) = Some (if i =? j then f1 else f0).
Proof.
  intros Hi Hj. unfold eye. rewrite tab_lookup by nia.
  by destruct (div_mod_rc i j r Hj) as [-> ->].
Qed.

Lemma eye_length r : length (eye r) = r * r.
Proof. apply tab_length. Qed.

Lemma init_identity s w r b :
  s_ptr s = Some b -> b < length (heap w) ->
  r * r <= s_len s -> r * r <= length (arr_of (heap w) s) ->
  for_ 0 r (fun i =>
    for_ 0 i (fun j => wr s (i * r + j) f0) ;;;
    wr s (i * r + i) f1 ;;;
    for_ (i + 1) r (fun j => wr s (i * r + j) f0)) w
  = Done tt (set_arr w s (pre (eye r) (arr_of (heap w) s) (r * r))).
Proof.
  intros Hb Hlt Hlen Harr.
  set (arr := arr_of (heap w) s) in *.
  set (W := fun k => set_arr w s (pre (eye r) arr k)).
  assert (Hw : forall i j x, i < r -> j < r ->
            x = (if i =? j then f1 else f0) ->
            wr s (i * r + j) x (W (i * r + j)) = Done tt (W (Datatypes.S (i * r + j)))).
  { intros i j x Hi Hj ->. apply (wr_pre _ _ _ _ _ _ b); try done; try nia.
    by apply eye_lookup. }
  rewrite <- (set_arr_id w s) at 1. fold arr. change (set_arr w s arr) with (W (0 * r)).
  apply (for_chain (fun i => W (i * r))); [lia|].
  intros i Hi.
  erewrite bind_Done; cycle 1.
  { pose proof (for_chain (fun j => W (i * r + j))
      (fun j => wr s (i * r + j) f0) 0 i) as E.
    cbv beta in E. rewrite Nat.add_0_r in E. apply E; [lia|].
    intros j Hj. replace (i * r + Datatypes.S j) with (Datatypes.S (i * r + j)) by lia.
    apply Hw; [lia..|]. destruct (Nat.eqb_spec i j); [lia|done]. }
  erewrite bind_Done; cycle 1.
  { apply Hw; [lia..|]. by rewrite Nat.eqb_refl. }
  replace (Datatypes.S (i * r + i)) with (i * r + (i + 1)) by lia.
  replace (Datatypes.S i * r) with (i * r + r) by lia.
  apply (for_chain (fun j => W (i * r + j))); [lia|].
  intros j Hj. replace (i * r + Datatypes.S j) with (Datatypes.S (i * r + j)) by lia.
  apply Hw; [lia..|]. destruct (Nat.eqb_spec i j); [lia|done].
Qed.

(** ** The local loops of QFromQR (qr.go:97-112) *)

Lemma lwr_pre l arr k x w :
  l !! k = Some x -> k < length arr ->
  lwr (pre l arr k) k x w = Done (pre l arr (Datatypes.S k)) w.
Proof.
  intros Hl Hk. unfold lwr.
  assert (k < length l) by (by eapply lookup_lt_Some).
  rewrite pre_length by lia.
  destruct (Nat.ltb_spec k (length arr)); [|lia].
  by rewrite pre_insert.
Qed.

Lemma pre_all l arr : length l = length arr -> pre l arr (length arr) = l.
Proof.
  intros E. unfold pre. rewrite <- E at 1. rewrite firstn_all.
  rewrite drop_ge by lia. apply app_nil_r.
Qed.

(** [for i := range h.Data { h.Data[i] = 0 }] *)
Lemma zero_local hD w :
  for_range 0 (length hD) (fun i hD => lwr hD i f0) hD w
  = Done (replicate (length hD) f0) w.
Proof.
  set (l := replicate (length hD) f0).
  pose proof (for_chain_local (pre l hD) (fun i hD => lwr hD i f0)
                0 (length hD) w) as E.
  rewrite pre_0 in E. rewrite pre_all in E; [|unfold l; by rewrite length_replicate].
  apply E; [lia|].
  intros i Hi. apply lwr_pre; [|lia]. unfold l. apply lookup_replicate_2. lia.
Qed.

(** [for j := 0; j < r; j++ { h.Data[j*r+j] = 1 }] on a zero matrix *)
Lemma diag_local r w :
  for_range 0 r (fun j hD => lwr hD (j * r + j) f1) (replicate (r * r) f0) w
  = Done (eye r) w.
Proof.
  set (L := fun n => tab (r * r) (fun k =>
              if (k / r =? k mod r) && (k / r <? n) then f1 else f0)).
  assert (E0 : replicate (r * r) f0 = L 0).
  { apply list_eq. intros k. destruct (decide (k < r * r)).
    - unfold L. rewrite lookup_replicate_2, tab_lookup by done.
      by rewrite andb_false_r.
    - rewrite !lookup_ge_None_2; [done|..].
      + unfold L. rewrite tab_length. lia.
      + rewrite length_replicate. lia. }
  assert (Er : eye r = L r).
  { apply tab_ext. intros k Hk.
    assert (k / r < r) by (apply Nat.Div0.div_lt_upper_bound; lia).
    destruct (Nat.ltb_spec (k / r) r); [|lia]. by rewrite andb_true_r. }
  rewrite E0, Er. apply (for_chain_local L); [lia|].
  intros j Hj. unfold lwr.
  unfold L at 1. rewrite tab_length.
  destruct (Nat.ltb_spec (j * r + j) (r * r)); [|nia].
  simpl. unfold ret. f_equal.
  apply list_eq. intros k.
  destruct (decide (k = j * r + j)) as [->|Hne].
  - rewrite list_lookup_insert_eq by (unfold L; rewrite tab_length; lia).
    unfold L. rewrite tab_lookup by done.
    destruct (div_mod_rc j j r) as [-> ->]; [lia|].
    rewrite Nat.eqb_refl. destruct (Nat.ltb_spec j (Datatypes.S j)); [done|lia].
  - rewrite list_lookup_insert_ne by done.
    destruct (decide (k < r * r)).
    + unfold L. rewrite !tab_lookup by done. f_equal.
      destruct (Nat.eqb_spec (k / r) (k mod r)) as [Eq|]; [|done]. simpl.
      destruct (Nat.ltb_spec (k / r) j), (Nat.ltb_spec (k / r) (Datatypes.S j));
        try done; try lia.
      exfalso. apply Hne. assert (k / r = j) by lia.
      rewrite (Nat.div_mod_eq k r). lia.
    + rewrite !lookup_ge_None_2; [done|..]; unfold L; rewrite tab_length; lia.
Qed.

Lemma in_range_lt g i j :
  in_range g -> i < Rows g -> j < Cols g -> i * Stride g + j < s_len (Data g).
Proof. unfold in_range. intros [?|[?|?]] Hi Hj; [lia|lia|nia]. Qed.

Lemma valid_arr_len h s : valid h s -> s_len s <= length (arr_of h s).
Proof. intros (? & ? & _). lia. Qed.

Lemma sl_get_entry h g i j :
  valid h (Data g) -> in_range g -> i < Rows g -> j < Cols g ->
  sl_get h (Data g) (i * Stride g + j) = Some (entry (gen_val h g) i j).
Proof.
  intros Hv Hr Hi Hj. pose proof (in_range_lt g i j Hr Hi Hj) as Hlt.
  pose proof (valid_arr_len h _ Hv) as Hlen.
  unfold sl_get, entry, gen_val, contents. simpl.
  destruct (Nat.ltb_spec (i * Stride g + j) (s_len (Data g))); [|lia].
  rewrite lookup_take_lt by done.
  destruct (lookup_lt_is_Some_2 (arr_of h (Data g)) (i * Stride g + j)) as [x ->];
    [lia|done].
Qed.

(** The three loops that set v to reflector i (qr.go:106-112). *)
Lemma reflector_local {B} (d : Dense) r vD i w (k : list float -> M B) :
  Rows (mat d) = r ->
  wf_dense (heap w) d -> length vD = Rows (mat d) ->
  i < Rows (mat d) -> i < Cols (mat d) ->
  (vD <- for_range 0 i (fun j vD => lwr vD j f0) vD ;;
   vD <- lwr vD i f1 ;;
   vD <- for_range (i + 1) r (fun j vD =>
     x <- rd (Data (mat d)) (j * Stride (mat d) + i) ;; lwr vD j x) vD ;;
   k vD) w
  = k (reflector (gen_val (heap w) (mat d)) i) w.
Proof.
  intros <- [Hv Hr] Hlen Hi Hc.
  set (V := reflector (gen_val (heap w) (mat d)) i).
  assert (HV : forall j, j < Rows (mat d) -> V !! j = Some
            (if j <? i then f0 else if j =? i then f1
             else entry (gen_val (heap w) (mat d)) j i)).
  { intros j Hj. unfold V, reflector. simpl. by rewrite tab_lookup. }
  assert (HVl : length V = length vD).
  { unfold V, reflector. simpl. by rewrite tab_length. }
  erewrite bind_Done; cycle 1.
  { pose proof (for_chain_local (pre V vD) (fun j vD => lwr vD j f0) 0 i w) as E.
    rewrite pre_0 in E. apply E; [lia|].
    intros j Hj. apply lwr_pre; [|lia]. rewrite HV by lia.
    by destruct (Nat.ltb_spec j i); [|lia]. }
  erewrite bind_Done; cycle 1.
  { apply lwr_pre; [|lia]. rewrite HV by lia.
    destruct (Nat.ltb_spec i i); [lia|]. by rewrite Nat.eqb_refl. }
  replace (Datatypes.S i) with (i + 1) by lia.
  erewrite bind_Done; [reflexivity|].
  pose proof (for_chain_local (pre V vD) (fun j vD =>
     x <- rd (Data (mat d)) (j * Stride (mat d) + i) ;; lwr vD j x)
     (i + 1) (length vD) w) as E.
  rewrite (pre_all V vD HVl), Hlen in E. apply E; [lia|].
  intros j Hj. erewrite bind_Done; cycle 1.
  { rewrite rd_eq, (sl_get_entry _ (mat d)) by (done || lia). reflexivity. }
  apply lwr_pre; [|lia]. rewrite HV by lia.
  destruct (Nat.ltb_spec j i); [lia|]. destruct (Nat.eqb_spec j i); [lia|done].
Qed.

(** ** Allocation, reuseAs and the workspace pool *)

Lemma arr_of_prefix h h1 s :
  valid h s -> h `prefix_of` h1 -> arr_of h1 s = arr_of h s.
Proof.
  intros (_ & _ & Hb) [t ->]. unfold arr_of.
  destruct (s_ptr s) as [b|]; [|done]. by rewrite lookup_app_l.
Qed.

Lemma valid_prefix h h1 s : valid h s -> h `prefix_of` h1 -> valid h1 s.
Proof.
  intros Hv Hp. pose proof (arr_of_prefix _ _ _ Hv Hp) as E.
  destruct Hv as (H1 & H2 & H3). destruct Hp as [t ->].
  split; [done|]. split; [by rewrite E|].
  destruct (s_ptr s); [|done]. rewrite length_app. lia.
Qed.

Lemma contents_prefix h h1 s :
  valid h s -> h `prefix_of` h1 -> contents h1 s = contents h s.
Proof. intros Hv Hp. unfold contents. by rewrite (arr_of_prefix h h1). Qed.

Lemma valid_ptr_lt h s b : valid h s -> s_ptr s = Some b -> b < length h.
Proof. intros (_ & _ & H) E. by rewrite E in H. Qed.

Lemma valid_set_arr w s t a :
  valid (heap w) t -> s_ptr s <> s_ptr t -> valid (heap (set_arr w s a)) t.
Proof.
  intros (H1 & H2 & H3) Hne. split; [done|]. split.
  - by rewrite arr_of_set_arr_ne.
  - destruct (s_ptr t); [|done]. by rewrite set_arr_heap_length.
Qed.

Lemma valid_set_arr_same w s t a :
  valid (heap w) t -> s_ptr s = s_ptr t -> is_Some (s_ptr s) ->
  length a = length (arr_of (heap w) t) -> valid (heap (set_arr w s a)) t.
Proof.
  intros (H1 & H2 & H3) E [b Eb] Hl. split; [done|].
  assert (Et : s_ptr t = Some b) by congruence.
  rewrite Et in H3. split.
  - rewrite (arr_of_set_arr _ _ _ _ b) by done. lia.
  - rewrite Et. by rewrite set_arr_heap_length.
Qed.

Lemma valid_set_arr_len w s t a :
  valid (heap w) t -> length a = length (arr_of (heap w) s) ->
  valid (heap (set_arr w s a)) t.
Proof.
  intros Hv Hl. destruct (decide (s_ptr s = s_ptr t)) as [E|E].
  - destruct (s_ptr s) as [b|] eqn:Eb.
    + apply valid_set_arr_same; [done|congruence|rewrite Eb; by eexists|].
      rewrite Hl. unfold arr_of. by rewrite Eb, <- E.
    + unfold set_arr. by rewrite Eb.
  - by apply valid_set_arr.
Qed.

Lemma make_spec l w :
  make l w = Done (mkSlice (Some (length (heap w))) l l)
                  (set_heap w (heap w ++ [replicate l f0])).
Proof. done. Qed.

Lemma valid_fresh h l :
  valid (h ++ [replicate l f0]) (mkSlice (Some (length h)) l l).
Proof.
  unfold valid, arr_of. simpl. rewrite list_lookup_middle by done. simpl.
  rewrite length_replicate, length_app. simpl. lia.
Qed.

Lemma arr_of_fresh h l :
  arr_of (h ++ [replicate l f0]) (mkSlice (Some (length h)) l l) = replicate l f0.
Proof. unfold arr_of. simpl. by rewrite list_lookup_middle. Qed.

(** What reuseAs gives: a receiver of r×c contiguous rows whose storage is
    the old one or a fresh zeroed one; nothing else changes. *)
Lemma reuseAs_spec m r c w :
  valid (heap w) (Data (mat m)) ->
  exists s1 w1,
    reuseAs m r c w = Done (mkDense (mkGeneral r c c s1) r c) w1 /\
    s_len s1 = r * c /\ valid (heap w1) s1 /\
    heap w `prefix_of` heap w1 /\
    pool w1 = pool w /\ gets w1 = gets w /\ puts w1 = puts w /\
    (forall t, valid (heap w) t -> s_ptr t <> s_ptr (Data (mat m)) ->
               s_ptr t <> s_ptr s1) /\
    ((r * c <= s_cap (Data (mat m)) /\ w1 = w /\
      s1 = reslice (Data (mat m)) (r * c)) \/
     (s_cap (Data (mat m)) < r * c /\
      s_ptr s1 = Some (length (heap w)) /\
      arr_of (heap w1) s1 = replicate (r * c) f0 /\
      heap w1 = heap w ++ [replicate (r * c) f0])).
Proof.
  intros Hv. unfold reuseAs.
  destruct (Nat.leb_spec (r * c) (s_cap (Data (mat m)))) as [Hle|Hgt].
  - exists (reslice (Data (mat m)) (r * c)), w. unfold ret.
    destruct Hv as (H1 & H2 & H3).
    repeat split; try done; simpl; try lia.
    left. done.
  - eexists _, _. rewrite (bind_Done _ _ _ _ _ (make_spec _ _)). unfold ret.
    split; [reflexivity|]. simpl.
    split; [done|]. split; [apply valid_fresh|].
    split; [by eexists|]. do 3 (split; [done|]).
    split.
    + intros t Ht _ E. pose proof (valid_ptr_lt _ _ (length (heap w)) Ht) as Hlt.
      rewrite E in Hlt. specialize (Hlt eq_refl). lia.
    + right. split; [done|]. split; [done|]. split; [apply arr_of_fresh|done].
Qed.

Lemma take_buf_Some need p s p' :
  take_buf need p = Some (s, p') -> s ∈ p /\ need <= s_cap s.
Proof.
  revert s p'. induction p as [|s0 p IH]; intros s p' E; simpl in E; [done|].
  destruct (Nat.leb_spec need (s_cap s0)).
  - injection E as <- <-. split; [left|done].
  - destruct (take_buf need p) as [[s1 q]|]; [|done].
    injection E as <- <-. destruct (IH s1 q eq_refl). split; [by right|done].
Qed.

Lemma take_buf_sub need p s p' :
  take_buf need p = Some (s, p') -> forall x, x ∈ p' -> x ∈ p.
Proof.
  revert s p'. induction p as [|s0 p IH]; intros s p' E; simpl in E; [done|].
  destruct (Nat.leb_spec need (s_cap s0)).
  - injection E as <- <-. intros x Hx. by right.
  - destruct (take_buf need p) as [[s1 q]|]; [|done].
    injection E as <- <-. intros x Hx. apply elem_of_cons in Hx as [->|Hx].
    + left.
    + right. by apply (IH s1 q).
Qed.

(** What getWorkspace gives without clearing: an r×c matrix on a buffer that
    is not the storage of any slice that is off the pool. *)
Lemma getWorkspace_spec r c w :
  pool_ok w ->
  exists xs w1,
    getWorkspace r c false w = Done (mkDense (mkGeneral r c c xs) r c) w1 /\
    s_len xs = r * c /\ is_Some (s_ptr xs) /\ valid (heap w1) xs /\
    heap w `prefix_of` heap w1 /\
    gets w1 = Datatypes.S (gets w) /\ puts w1 = puts w /\
    (forall t, valid (heap w) t -> off_pool w t -> s_ptr t <> s_ptr xs) /\
    (forall p, p ∈ pool w1 -> p ∈ pool w) /\
    (xs, pool w1) = taken (r * c) (pool w) (length (heap w)) /\
    take (r * c) (arr_of (heap w1) xs) = held (r * c) (pool w) (heap w).
Proof.
  intros Hp. unfold getWorkspace, taken, held.
  rewrite (bind_Done count_get _ w tt _ eq_refl).
  erewrite (bind_Done get_pool); [|reflexivity]. simpl.
  destruct (take_buf (r * c) (pool w)) as [[s0 p']|] eqn:E.
  - destruct (take_buf_Some _ _ _ _ E) as [Hin Hcap].
    unfold pool_ok in Hp. rewrite Forall_forall in Hp.
    destruct (Hp s0 Hin) as (Hs & H1 & H2 & H3).
    eexists (reslice s0 (r * c)), _. split; [reflexivity|]. simpl.
    split; [done|]. split; [done|].
    split; [repeat split; simpl; try done; lia|].
    do 3 (split; [done|]).
    split.
    { intros t _ Ht. unfold off_pool in Ht. rewrite Forall_forall in Ht.
      intros Ett. by apply (Ht s0 Hin). }
    split; [exact (take_buf_sub _ _ _ _ E)|]. split; [done|].
    by unfold arr_of.
  - eexists _, _. split; [reflexivity|]. simpl.
    split; [done|]. split; [by eexists|]. split; [apply valid_fresh|].
    split; [by eexists|]. do 2 (split; [done|]).
    split.
    { intros t Ht _ Ett.
      pose proof (valid_ptr_lt _ _ (length (heap w)) Ht) as Hlt.
      rewrite Ett in Hlt. specialize (Hlt eq_refl). lia. }
    split; [done|]. split; [done|].
    rewrite arr_of_fresh. apply take_ge. by rewrite length_replicate.
Qed.

(** ** QFromQR *)

Lemma tab_row_major (Q : list float) r c :
  length Q = r * c ->
  tab (r * c) (fun k => default f0 (Q !! (k / c * c + k mod c))) = Q.
Proof.
  intros HQ. apply list_eq. intros k. destruct (decide (k < r * c)).
  - rewrite tab_lookup by done.
    replace (k / c * c + k mod c) with k by (rewrite (Nat.div_mod_eq k c) at 1; lia).
    destruct (lookup_lt_is_Some_2 Q k) as [x ->]; [lia|done].
  - rewrite !lookup_ge_None_2; [done|lia|rewrite tab_length; lia].
Qed.

Lemma pre_app_exact (Q arr : list float) k :
  length Q = k -> pre Q arr k = Q ++ drop k arr.
Proof. intros <-. unfold pre. by rewrite firstn_all. Qed.

Section QFromQR_proofs.
Context {K : Kernels}.

Lemma Gemm_eq tA tB alpha a b beta c w :
  Gemm tA tB alpha a b beta c w =
  Done tt (set_arr w (Data c)
    (fit (contents (heap w) (Data c))
         (k_Gemm tA tB alpha (gen_val (heap w) a) b beta (gen_val (heap w) c))
     ++ drop (s_len (Data c)) (arr_of (heap w) (Data c)))).
Proof. done. Qed.

(** One turn of the loop over the reflectors. *)
Lemma QFromQR_step_spec m d qCopy tau0 r i hD vD w sm sx bm bx Q tm X :
  mat m = mkGeneral r r r sm -> mat qCopy = mkGeneral r r r sx ->
  Rows (mat d) = r -> wf_dense (heap w) d ->
  s_ptr sm = Some bm -> s_ptr sx = Some bx -> bm <> bx ->
  bm < length (heap w) -> bx < length (heap w) ->
  s_ptr (Data (mat d)) <> Some bm -> s_ptr (Data (mat d)) <> Some bx ->
  s_len sm = r * r -> s_len sx = r * r ->
  arr_of (heap w) sm = Q ++ tm -> length Q = r * r ->
  arr_of (heap w) sx = X -> r * r <= length X ->
  length hD = r * r -> length vD = r ->
  i < r -> i < Cols (mat d) -> i < length tau0 ->
  QFromQR_step m d qCopy tau0 r i (hD, vD) w =
  Done (householder (gen_val (heap w) (mat d)) tau0 i,
        reflector (gen_val (heap w) (mat d)) i)
       (set_arr (set_arr w sx (Q ++ drop (r * r) X)) sm
          (Q_step (gen_val (heap w) (mat d)) tau0 Q i ++ tm)).
Proof.
  intros Hm Hq Hr Hd Hbm Hbx Hne Hlm Hlx Hdm Hdx Hsm Hsx Harr HQ HX HXl HhD HvD
         Hi Hic Hit.
  unfold QFromQR_step. simpl fst. simpl snd.
  erewrite bind_Done; [|apply zero_local]. rewrite HhD.
  erewrite bind_Done; [|apply diag_local].
  rewrite (reflector_local d r) by (done || lia).
  destruct (lookup_lt_is_Some_2 tau0 i Hit) as [t Ht].
  unfold lrd at 1. rewrite Ht.
  erewrite (bind_Done (ret t)); [|reflexivity].
  erewrite bind_Done; cycle 1.
  { apply (Copy_full qCopy (MDense m) w
             (fun i j => default f0 (Q !! (i * r + j))) r r).
    all: rewrite ?Hq; cbn [MDims Dims fst snd mdata]; rewrite ?Hm;
      cbn [Rows Cols Stride Data]; rewrite ?Hbx, ?HX; try done; try lia.
    - right. congruence.
    - intros i' j' Hi' Hj'. cbn [at_val]. rewrite Hm. cbn [Stride Data].
      unfold sl_get. rewrite Hsm.
      destruct (Nat.ltb_spec (i' * r + j') (r * r)); [|nia].
      rewrite Harr, lookup_app_l by lia.
      destruct (lookup_lt_is_Some_2 Q (i' * r + j')) as [x ->]; [lia|done]. }
  rewrite (tab_row_major Q r r HQ). rewrite Hq. simpl Data.
  rewrite HX, (pre_app_exact Q X (r * r) HQ).
  erewrite bind_Done; [|apply Gemm_eq].
  assert (EH : Ger (- t)%float
             {| Inc := 1; vData := reflector (gen_val (heap w) (mat d)) i |}
             {| Inc := 1; vData := reflector (gen_val (heap w) (mat d)) i |}
             (mkGeneral r r r (eye r))
           = householder (gen_val (heap w) (mat d)) tau0 i).
  { unfold householder, sq. rewrite Ht. simpl. by rewrite Hr. }
  rewrite EH. unfold ret. f_equal.
  rewrite Hm. simpl Data. f_equal.
  unfold gen_val. cbn [Rows Cols Stride Data]. unfold contents.
  rewrite (arr_of_set_arr w sx sx _ bx) by done.
  rewrite (arr_of_set_arr_ne w sx sm) by congruence.
  rewrite Hsm, Hsx, Harr.
  rewrite !take_app_length' by done.
  rewrite drop_app_length' by done.
  unfold Q_step, sq. simpl. by rewrite Hr.
Qed.


Lemma gen_val_eq h h' g :
  arr_of h' (Data g) = arr_of h (Data g) -> gen_val h' g = gen_val h g.
Proof. intros E. unfold gen_val, contents. by rewrite E. Qed.

Lemma wf_dense_eq h h' d :
  wf_dense h d -> arr_of h' (Data (mat d)) = arr_of h (Data (mat d)) ->
  length h <= length h' -> wf_dense h' d.
Proof.
  intros [(H1 & H2 & H3) Hr] E Hl. split; [|done].
  split; [done|]. split; [by rewrite E|].
  destruct (s_ptr (Data (mat d))); [lia|done].
Qed.

Lemma Q_step_length g tau0 Q i : length (Q_step g tau0 Q i) = length Q.
Proof. apply fit_length. Qed.

Lemma Q_prefix_length g tau0 i :
  length (foldl (Q_step g tau0) (eye (Rows g)) (seq 0 i)) = Rows g * Rows g.
Proof.
  induction i as [|i IH]; [apply eye_length|].
  rewrite seq_S, foldl_app. simpl. by rewrite Q_step_length.
Qed.

(** The loop over the reflectors. *)
Lemma QFromQR_loop m d qCopy tau0 r k w sm sx bm bx tm hD vD :
  mat m = mkGeneral r r r sm -> mat qCopy = mkGeneral r r r sx ->
  Rows (mat d) = r -> wf_dense (heap w) d ->
  s_ptr sm = Some bm -> s_ptr sx = Some bx -> bm <> bx ->
  bm < length (heap w) -> bx < length (heap w) ->
  s_ptr (Data (mat d)) <> Some bm -> s_ptr (Data (mat d)) <> Some bx ->
  s_len sm = r * r -> s_len sx = r * r ->
  arr_of (heap w) sm = eye r ++ tm ->
  r * r <= length (arr_of (heap w) sx) ->
  length hD = r * r -> length vD = r ->
  k <= r -> k <= Cols (mat d) -> k <= length tau0 ->
  exists hv X,
    length X = length (arr_of (heap w) sx) /\
    for_range 0 k (QFromQR_step m d qCopy tau0 r) (hD, vD) w =
    Done hv
      (set_arr (set_arr w sx X) sm
         (foldl (Q_step (gen_val (heap w) (mat d)) tau0) (eye r) (seq 0 k) ++ tm)).
Proof.
  intros Hm Hq Hr Hd Hbm Hbx Hne Hlm Hlx Hdm Hdx Hsm Hsx Harr HXl HhD HvD
         Hkr Hkc Hkt.
  set (g := gen_val (heap w) (mat d)).
  set (Qs := fun i => foldl (Q_step g tau0) (eye r) (seq 0 i)).
  assert (HQs : forall i, length (Qs i) = r * r).
  { intros i. unfold Qs. rewrite <- Hr. apply (Q_prefix_length g). }
  destruct (for_range_inv
    (fun i (hv : list float * list float) w' =>
       length hv.1 = r * r /\ length hv.2 = r /\
       exists X, r * r <= length X /\
         length X = length (arr_of (heap w) sx) /\
         w' = set_arr (set_arr w sx X) sm (Qs i ++ tm))
    (QFromQR_step m d qCopy tau0 r) 0 k (hD, vD) w)
    as (hv & w' & E & _ & _ & X & _ & HXe & ->).
  - lia.
  - split; [done|]. split; [done|].
    exists (arr_of (heap w) sx). split; [done|]. split; [done|].
    rewrite set_arr_id. unfold Qs. simpl. rewrite <- Harr. by rewrite set_arr_id.
  - intros i [hD' vD'] w' Hi (Hh & Hv & X & HX & HXe & ->). simpl in Hh, Hv.
    set (w' := set_arr (set_arr w sx X) sm (Qs i ++ tm)).
    assert (Ed : arr_of (heap w') (Data (mat d)) = arr_of (heap w) (Data (mat d))).
    { unfold w'. rewrite !arr_of_set_arr_ne; [done|congruence..]. }
    assert (Eg : gen_val (heap w') (mat d) = g) by (by apply gen_val_eq).
    assert (Hl : length (heap w') = length (heap w)).
    { unfold w'. by rewrite !set_arr_heap_length. }
    eexists _, _. split.
    + apply (QFromQR_step_spec m d qCopy tau0 r i hD' vD' w' sm sx bm bx
               (Qs i) tm X); try done; try lia.
      * apply (wf_dense_eq (heap w)); [done|done|lia].
      * unfold w'. rewrite (arr_of_set_arr _ sm sm _ bm); [done..|].
        by rewrite set_arr_heap_length.
      * unfold w'. rewrite (arr_of_set_arr_ne _ sm sx) by congruence.
        by rewrite (arr_of_set_arr w sx sx _ bx).
    + simpl. split.
      { unfold householder, Ger. rewrite fit_length. cbn [Data sq].
        rewrite eye_length. cbn [gen_val Rows]. by rewrite Hr. }
      split; [unfold reflector; rewrite tab_length, Eg; by subst g|].
      exists (Qs i ++ drop (r * r) X). split.
      { rewrite length_app, length_drop, HQs. lia. }
      split.
      { rewrite length_app, length_drop, HQs. lia. }
      rewrite Eg. unfold w'.
      rewrite (set_arr_comm (set_arr w sx X) sm sx) by congruence.
      rewrite (set_arr_set_arr w sx sx) by done.
      rewrite (set_arr_set_arr _ sm sm) by done.
      do 2 f_equal. unfold Qs. by rewrite seq_S, foldl_app.
  - exists hv, X. split; [done|apply E].
Qed.


Lemma pool_ok_step w w1 :
  pool_ok w -> pool w1 = pool w ->
  (forall t, t ∈ pool w -> valid (heap w) t -> valid (heap w1) t) ->
  pool_ok w1.
Proof.
  unfold pool_ok. intros Hp E Hv. rewrite E.
  rewrite Forall_forall in *. intros t Ht.
  destruct (Hp t Ht) as [Hs Hval]. split; [done|]. by apply Hv.
Qed.

Lemma valid_ptr_Some h s :
  valid h s -> 0 < s_len s -> exists b, s_ptr s = Some b /\ b < length h.
Proof.
  intros (H1 & H2 & H3) Hpos. unfold arr_of in H2.
  destruct (s_ptr s) as [b|]; [by exists b|]. simpl in H2. lia.
Qed.

(** QFromQR, in full: the receiver becomes r×r with contiguous rows and
    holds the explicit Q; one buffer is taken from the pool and none is given
    back; the factor is not written. *)
Lemma QFromQR_core m q d w :
  wf_QR (heap w) q d -> valid (heap w) (Data (mat m)) ->
  s_ptr (Data (mat m)) <> s_ptr (Data (mat d)) ->
  pool_ok w -> off_pool w (Data (mat d)) -> off_pool w (Data (mat m)) ->
  exists sm w',
    QFromQR m q w =
      Done (mkDense (mkGeneral (Rows (mat d)) (Rows (mat d)) (Rows (mat d)) sm)
                    (Rows (mat d)) (Rows (mat d))) w' /\
    s_len sm = Rows (mat d) * Rows (mat d) /\
    contents (heap w') sm = Q_explicit (gen_val (heap w) (mat d)) (tau q) /\
    gets w' = Datatypes.S (gets w) /\ puts w' = puts w /\
    contents (heap w') (Data (mat d)) = contents (heap w) (Data (mat d)) /\
    (Rows (mat d) * Rows (mat d) <= s_cap (Data (mat m)) ->
     sm = reslice (Data (mat m)) (Rows (mat d) * Rows (mat d))) /\
    valid (heap w') sm /\
    (forall t, valid (heap w) t -> valid (heap w') t) /\
    (forall t, valid (heap w) t -> off_pool w t ->
       s_ptr t <> s_ptr (Data (mat m)) ->
       arr_of (heap w') t = arr_of (heap w) t /\ s_ptr t <> s_ptr sm) /\
    (forall p, p ∈ pool w' -> p ∈ pool w) /\
    off_pool w' sm.
Proof.
  intros (Hq & Hd & Ht) Hvm Hsep Hp Hpd Hpm.
  set (r := Rows (mat d)). set (c := Cols (mat d)).
  unfold QFromQR. rewrite Hq.
  rewrite (bind_Done (deref (Some d)) _ w d w eq_refl).
  cbn [Dims fst snd]. fold r c.
  destruct (reuseAs_spec m r r w Hvm)
    as (s1 & w1 & E1 & Hl1 & Hv1 & Hpre1 & Hpool1 & Hg1 & Hpu1 & Hfr1 & Hcase).
  rewrite (bind_Done _ _ _ _ _ E1). cbn [mat Stride Data].
  assert (Hsm : r * r <= s_cap (Data (mat m)) ->
                s1 = reslice (Data (mat m)) (r * r)).
  { intros Hle. destruct Hcase as [(_ & _ & ->)|(Hlt & _)]; [done|lia]. }
  assert (Hvd1 : valid (heap w1) (Data (mat d))).
  { destruct Hd. by apply (valid_prefix (heap w)). }
  assert (Hnd1 : s_ptr (Data (mat d)) <> s_ptr s1).
  { destruct Hd. apply Hfr1; [done|congruence]. }
  assert (Hnp1 : forall t, t ∈ pool w -> s_ptr t <> s_ptr s1).
  { intros t Hin. unfold pool_ok, off_pool in *.
    rewrite Forall_forall in Hp, Hpm.
    destruct (Hp t Hin) as [_ Hvt]. apply Hfr1; [done|]. by apply Hpm. }
  destruct (decide (r = 0)) as [Hr0|Hr0].
  - (* no rows: no loop runs *)
    assert (Hp1 : pool_ok w1).
    { apply (pool_ok_step w); [done..|]. intros t _ Hvt.
      by apply (valid_prefix (heap w)). }
    rewrite Hr0. rewrite Hr0 in Hl1. simpl in Hl1.
    erewrite bind_Done; [|apply for_range_empty; lia].
    destruct (getWorkspace_spec 0 0 w1 Hp1)
      as (xs & w2 & E2 & Hlx & Hsx & Hvx & Hpre2 & Hg2 & Hpu2 & Hfr2 & Hsub2 & _ & _).
    rewrite (bind_Done _ _ _ _ _ E2). cbn [Nat.min].
    erewrite bind_Done; [|apply for_range_empty; lia].
    exists s1, w2. split; [done|]. split; [lia|].
    split.
    { unfold contents, Q_explicit. rewrite Hl1. cbn [gen_val Rows].
      fold r. rewrite Hr0. done. }
    split; [lia|]. split; [lia|].
    split.
    { rewrite (contents_prefix (heap w1) (heap w2)) by done.
      destruct Hd. by apply contents_prefix. }
    split; [intros Hle; rewrite Hr0 in Hsm; by apply Hsm|].
    split; [by apply (valid_prefix (heap w1))|].
    split.
    { intros t Hvt. apply (valid_prefix (heap w1)); [|done].
      by apply (valid_prefix (heap w)). }
    split.
    { intros t Hvt Hot Hnt. split; [|by apply Hfr1].
      rewrite (arr_of_prefix (heap w1)); [by apply arr_of_prefix| |done].
      by apply (valid_prefix (heap w)). }
    split; [intros p Hin; rewrite <- Hpool1; by apply Hsub2|].
    unfold off_pool. rewrite Forall_forall. intros p Hin.
    apply Hnp1. rewrite <- Hpool1. by apply Hsub2.
  - (* at least one row *)
    destruct (valid_ptr_Some _ _ Hv1) as (bm & Hbm & Hbml); [nia|].
    pose proof (valid_arr_len _ _ Hv1) as Hal1.
    erewrite bind_Done; cycle 1.
    { apply (init_identity s1 w1 r bm); try done; lia. }
    set (arr1 := arr_of (heap w1) s1) in *.
    rewrite (pre_app_exact (eye r) arr1 (r * r) (eye_length r)).
    set (tm := drop (r * r) arr1).
    set (wI := set_arr w1 s1 (eye r ++ tm)).
    assert (HlI : length (eye r ++ tm) = length arr1).
    { unfold tm. rewrite length_app, eye_length, length_drop. lia. }
    assert (HvI : valid (heap wI) s1).
    { apply valid_set_arr_same; [done|done|by rewrite Hbm|done]. }
    assert (HvdI : valid (heap wI) (Data (mat d))).
    { apply valid_set_arr; [done|congruence]. }
    assert (HpI : pool_ok wI).
    { apply (pool_ok_step w); [done|unfold wI; by rewrite set_arr_pool|].
      intros t Hin Hvt. apply valid_set_arr.
      - by apply (valid_prefix (heap w)).
      - intros E. by apply (Hnp1 t Hin). }
    assert (HoI : forall t, (forall p, p ∈ pool w -> s_ptr p <> s_ptr t) ->
                            off_pool wI t).
    { intros t Hoff. unfold off_pool, wI. rewrite set_arr_pool, Hpool1.
      by rewrite Forall_forall. }
    destruct (getWorkspace_spec r r wI HpI)
      as (xs & w2 & E2 & Hlx & [bx Hbx] & Hvx & Hpre2 & Hg2 & Hpu2 & Hfr2 & Hsub2
          & _ & _).
    rewrite (bind_Done _ _ _ _ _ E2).
    assert (Hxm : s_ptr s1 <> s_ptr xs).
    { apply Hfr2; [done|]. apply HoI. intros p Hin. by apply Hnp1. }
    assert (Hxd : s_ptr (Data (mat d)) <> s_ptr xs).
    { apply Hfr2; [done|]. apply HoI. intros p Hin.
      unfold off_pool in Hpd. rewrite Forall_forall in Hpd. by apply Hpd. }
    assert (Ea2 : arr_of (heap w2) s1 = eye r ++ tm).
    { rewrite (arr_of_prefix (heap wI)) by done.
      unfold wI. by rewrite (arr_of_set_arr w1 s1 s1 _ bm). }
    assert (Ed2 : arr_of (heap w2) (Data (mat d)) = arr_of (heap w) (Data (mat d))).
    { rewrite (arr_of_prefix (heap wI)) by done.
      unfold wI. rewrite arr_of_set_arr_ne by congruence.
      destruct Hd. by apply arr_of_prefix. }
    assert (Hll : length (heap w) <= length (heap w2)).
    { destruct Hpre2 as [t2 ->]. destruct Hpre1 as [t1 E1']. rewrite length_app.
      unfold wI. rewrite set_arr_heap_length, E1', length_app. lia. }
    destruct (QFromQR_loop
      (mkDense (mkGeneral r r r s1) r r) d (mkDense (mkGeneral r r r xs) r r)
      (tau q) r (Nat.min r c) w2 s1 xs bm bx tm
      (replicate (r * r) f0) (replicate r f0)) as (hv & X & HXe & E3);
      try done; try lia; try congruence.
    { by apply (wf_dense_eq (heap w)). }
    { destruct Hpre2 as [t2 ->]. rewrite length_app.
      unfold wI. rewrite set_arr_heap_length. lia. }
    { eapply valid_ptr_lt; done. }
    { pose proof (valid_arr_len _ _ Hvx). lia. }
    { apply length_replicate. }
    { apply length_replicate. }
    rewrite (bind_Done _ _ _ _ _ E3).
    rewrite (gen_val_eq (heap w) (heap w2)) in * by done.
    eexists s1, _. split; [reflexivity|]. split; [done|].
    assert (Hbxl : bx < length (heap w2)) by (eapply valid_ptr_lt; done).
    split.
    { unfold contents. rewrite (arr_of_set_arr _ s1 s1 _ bm); try done.
      - rewrite Hl1. apply take_app_length'.
        unfold Q_explicit. cbn [gen_val Rows Cols]. fold r c.
        pose proof (Q_prefix_length (gen_val (heap w) (mat d)) (tau q)
                      (Nat.min r c)) as Hlen.
        cbn [gen_val Rows] in Hlen. by fold r in Hlen.
      - rewrite set_arr_heap_length. destruct Hpre2 as [t2 ->].
        rewrite length_app. unfold wI. rewrite set_arr_heap_length. lia. }
    rewrite !set_arr_gets, !set_arr_puts.
    split; [unfold wI in Hg2; rewrite set_arr_gets in Hg2; lia|].
    split; [unfold wI in Hpu2; rewrite set_arr_puts in Hpu2; lia|].
    split.
    { unfold contents. rewrite !arr_of_set_arr_ne by congruence. by rewrite Ed2. }
    split; [exact Hsm|].
    set (Q := foldl (Q_step (gen_val (heap w) (mat d)) (tau q)) (eye r)
                    (seq 0 (Nat.min r c))).
    assert (HQ : length Q = r * r).
    { pose proof (Q_prefix_length (gen_val (heap w) (mat d)) (tau q)
                    (Nat.min r c)) as Hlen.
      cbn [gen_val Rows] in Hlen. by fold r in Hlen. }
    assert (Hval2 : forall t, valid (heap w2) t ->
              valid (heap (set_arr (set_arr w2 xs X) s1 (Q ++ tm))) t).
    { intros t Hvt. apply valid_set_arr_len; [by apply valid_set_arr_len|].
      rewrite arr_of_set_arr_ne by congruence. rewrite Ea2.
      rewrite !length_app, HQ, eye_length. done. }
    assert (HvalI : forall t, valid (heap w) t -> valid (heap wI) t).
    { intros t Hvt. apply valid_set_arr_len; [|done].
      by apply (valid_prefix (heap w)). }
    split; [apply Hval2; by apply (valid_prefix (heap wI))|].
    split.
    { intros t Hvt. apply Hval2. apply (valid_prefix (heap wI)); [|done].
      by apply HvalI. }
    split.
    { intros t Hvt Hot Hnt.
      assert (Hn1 : s_ptr t <> s_ptr s1) by (by apply Hfr1).
      assert (Hnx : s_ptr t <> s_ptr xs).
      { apply Hfr2; [by apply HvalI|]. apply HoI. intros p Hin.
        unfold off_pool in Hot. rewrite Forall_forall in Hot. by apply Hot. }
      split; [|done].
      rewrite !arr_of_set_arr_ne by congruence.
      rewrite (arr_of_prefix (heap wI)); [|by apply HvalI|done].
      unfold wI. rewrite arr_of_set_arr_ne by congruence.
      by apply arr_of_prefix. }
    split.
    { intros p Hin. rewrite !set_arr_pool in Hin. apply Hsub2 in Hin.
      unfold wI in Hin. rewrite set_arr_pool in Hin. by rewrite <- Hpool1. }
    unfold off_pool. rewrite Forall_forall. intros p Hin.
    rewrite !set_arr_pool in Hin. apply Hsub2 in Hin.
    unfold wI in Hin. rewrite set_arr_pool, Hpool1 in Hin. by apply Hnp1.
Qed.

End QFromQR_proofs.

(** ** SolveQR *)

Lemma sl_get_is_Some h s k :
  valid h s -> k < s_len s -> is_Some (sl_get h s k).
Proof.
  intros Hv Hk. pose proof (valid_arr_len _ _ Hv).
  unfold sl_get. destruct (Nat.ltb_spec k (s_len s)); [|lia].
  apply lookup_lt_is_Some_2. lia.
Qed.

Lemma at_val_wf h a i j :
  wf_matrix h a -> i < fst (MDims a) -> j < snd (MDims a) ->
  at_val h a i j = Some (mentry h a i j).
Proof.
  intros Hwf Hi Hj. unfold mentry.
  assert (Hs : is_Some (at_val h a i j)); [|by destruct Hs as [x ->]].
  destruct a as [d|t]; unfold MDims, Dims in *; simpl in *.
  - destruct Hwf as [Hv Hr]. apply sl_get_is_Some; [done|].
    by apply (in_range_lt (mat d)).
  - destruct Hwf as [Hv Hr].
    pose proof (in_range_lt _ i j Hr Hi Hj) as Hlt. simpl in Hlt.
    destruct (Uplo (tmat t)); case_match; try (by eexists);
      by apply sl_get_is_Some.
Qed.

Lemma at_val_prefix h h1 a i j :
  wf_matrix h a -> h `prefix_of` h1 -> at_val h1 a i j = at_val h a i j.
Proof.
  intros Hwf Hp.
  assert (E : arr_of h1 (mdata a) = arr_of h (mdata a)).
  { destruct a as [d|t]; simpl in *; destruct Hwf; by apply arr_of_prefix. }
  destruct a as [d|t]; simpl in *; unfold sl_get; by rewrite E.
Qed.

Lemma wf_matrix_valid h a : wf_matrix h a -> valid h (mdata a).
Proof. destruct a; simpl; by intros []. Qed.

Lemma flat_length h a : length (flat h a) = fst (MDims a) * snd (MDims a).
Proof. apply tab_length. Qed.

Section SolveQR_proofs.
Context {K : Kernels}.

Lemma scratch_contents w xs bx C tl :
  scratch w xs bx C tl -> contents (heap w) xs = C.
Proof.
  intros (_ & _ & E & Hl). unfold contents. rewrite E. by apply take_app_length'.
Qed.

Lemma scratch_set w xs bx C tl C' :
  scratch w xs bx C tl -> length C' = length C ->
  scratch (set_arr w xs (C' ++ tl)) xs bx C' tl.
Proof.
  intros (Hb & Hlt & E & Hl) Hl'. split; [done|].
  split; [by rewrite set_arr_heap_length|].
  split; [by rewrite (arr_of_set_arr w xs xs _ bx)|lia].
Qed.

Lemma store_scratch w xs bx C tl new :
  scratch w xs bx C tl ->
  store xs new w = Done tt (set_arr w xs (fit C new ++ tl)).
Proof.
  intros (Hb & Hlt & E & Hl). unfold store. rewrite E.
  rewrite <- Hl. by rewrite take_app_length, drop_app_length.
Qed.

Lemma Ormqr_scratch side trans a tau0 x work lwork w bx C tl :
  scratch w (Data x) bx C tl ->
  Ormqr side trans a tau0 x work lwork w =
  let res := k_Ormqr side trans (gen_val (heap w) a) tau0
                     (mkGeneral (Rows x) (Cols x) (Stride x) C) work lwork in
  Done (fit work (snd res)) (set_arr w (Data x) (fit C (fst res) ++ tl)).
Proof.
  intros Hs. unfold Ormqr.
  assert (E : gen_val (heap w) x = mkGeneral (Rows x) (Cols x) (Stride x) C).
  { unfold gen_val. by rewrite (scratch_contents _ _ _ _ _ Hs). }
  rewrite E. by erewrite bind_Done; [|by eapply store_scratch].
Qed.

Lemma Trtrs_scratch trans t x w bx C tl :
  scratch w (Data x) bx C tl ->
  Trtrs trans t x w =
  let res := k_Trtrs trans (tri_val (heap w) t)
                     (mkGeneral (Rows x) (Cols x) (Stride x) C) in
  Done (fst res) (set_arr w (Data x) (fit C (snd res) ++ tl)).
Proof.
  intros Hs. unfold Trtrs.
  assert (E : gen_val (heap w) x = mkGeneral (Rows x) (Cols x) (Stride x) C).
  { unfold gen_val. by rewrite (scratch_contents _ _ _ _ _ Hs). }
  rewrite E. by erewrite bind_Done; [|by eapply store_scratch].
Qed.

Lemma gen_val_set_arr_ne w s a g :
  s_ptr s <> s_ptr (Data g) ->
  gen_val (heap (set_arr w s a)) g = gen_val (heap w) g.
Proof. intros H. apply gen_val_eq. by apply arr_of_set_arr_ne. Qed.

Lemma work_alloc_ok work y w :
  work !! 0 = Some y -> (0 <= int_of_float y)%Z ->
  work_alloc work w = Done (replicate (Z.to_nat (int_of_float y)) f0) w.
Proof.
  intros Hy Hle. unfold work_alloc, lrd. rewrite Hy.
  rewrite (bind_Done (ret y) _ _ y _ eq_refl). unfold make_local.
  by destruct (Z.ltb_spec (int_of_float y) 0) as [|_]; [lia|].
Qed.

(** The two calls of Ormqr on the scratch. *)
Lemma Ormqr2_scratch side trans a tau0 x w bx C tl :
  Ormqr_query_ok -> scratch w (Data x) bx C tl ->
  s_ptr (Data x) <> s_ptr (Data a) ->
  exists C',
    apply_Q side trans (gen_val (heap w) a) tau0
            (mkGeneral (Rows x) (Cols x) (Stride x) C) = Some C' /\
    length C' = length C /\
    Ormqr2 side trans a tau0 x w = Done tt (set_arr w (Data x) (C' ++ tl)).
Proof.
  intros Hq Hs Hne. unfold Ormqr2, apply_Q.
  set (g := gen_val (heap w) a).
  set (xv := mkGeneral (Rows x) (Cols x) (Stride x) C).
  specialize (Hq side trans g tau0 xv).
  set (q := k_Ormqr side trans g tau0 xv (replicate 1 f0) (-1)) in *.
  set (work1 := fit (replicate 1 f0) (snd q)) in *.
  set (lw := int_of_float (default f0 (work1 !! 0))) in *.
  destruct (Z.ltb_spec lw 0) as [|Hlw]; [lia|].
  eexists. split; [reflexivity|]. split.
  { by rewrite !fit_length. }
  erewrite bind_Done; [|by eapply Ormqr_scratch]. cbn zeta.
  fold g xv q work1.
  assert (Hw1 : exists y, work1 !! 0 = Some y).
  { apply lookup_lt_is_Some_2. unfold work1. rewrite fit_length. simpl. lia. }
  destruct Hw1 as [y Hy].
  unfold lw in Hlw. rewrite Hy in Hlw. simpl in Hlw.
  erewrite bind_Done; [|by apply (work_alloc_ok _ y)].
  assert (Hs1 : scratch (set_arr w (Data x) (fit C (fst q) ++ tl)) (Data x) bx
                        (fit C (fst q)) tl).
  { apply (scratch_set w (Data x) bx C); [done|apply fit_length]. }
  erewrite bind_Done; [|eapply Ormqr_scratch; apply Hs1]. cbn zeta.
  rewrite gen_val_set_arr_ne by done. fold g.
  rewrite (set_arr_set_arr w (Data x) (Data x)) by done.
  unfold lw. rewrite Hy. simpl. done.
Qed.

(** The loop that zeroes rows c..r-1 of the scratch (qr.go:169-173). *)
Lemma zero_rows_scratch w xs bx C tl c r bc :
  scratch w xs bx C tl -> s_len xs = Nat.max r c * bc ->
  for_ c r (fun i => for_ 0 bc (fun j => wr xs (i * bc + j) f0)) w =
  Done tt (set_arr w xs (zero_extend c r bc C ++ tl)).
Proof.
  intros (Hb & Hlt & E & Hl) Hlen. unfold zero_extend.
  destruct (decide (r <= c)) as [Hle|Hgt].
  - unfold for_. rewrite for_range_empty by done.
    replace ((r - c) * bc) with 0 by nia. simpl. rewrite app_nil_r.
    rewrite take_ge by nia. rewrite <- E. by rewrite set_arr_id.
  - set (L := take (c * bc) C ++ replicate ((r - c) * bc) f0).
    set (arr := C ++ tl).
    set (W := fun k => set_arr w xs (pre L arr k)).
    assert (HLl : length L = r * bc).
    { unfold L. rewrite length_app, length_take, length_replicate. nia. }
    assert (E0 : w = W (c * bc)).
    { unfold W, pre, L, arr. rewrite take_app_le by (rewrite length_take; nia).
      rewrite take_take, Nat.min_id.
      rewrite drop_app_le by nia. rewrite app_assoc, take_drop.
      rewrite <- E. by rewrite set_arr_id. }
    assert (E1 : set_arr w xs (L ++ tl) = W (r * bc)).
    { unfold W, pre, arr. rewrite take_ge by lia.
      rewrite drop_app_length'; [done|nia]. }
    rewrite E1. rewrite E0 at 1.
    apply (for_chain (fun i => W (i * bc))); [lia|].
    intros i Hi.
    replace (Datatypes.S i * bc) with (i * bc + bc) by lia.
    pose proof (for_chain (fun j => W (i * bc + j))
      (fun j => wr xs (i * bc + j) f0) 0 bc) as Ein.
    cbv beta in Ein. rewrite Nat.add_0_r in Ein. apply Ein; [lia|]. clear Ein.
    intros j Hj.
    replace (i * bc + Datatypes.S j) with (Datatypes.S (i * bc + j)) by lia.
    apply (wr_pre _ _ _ _ _ _ bx); try done.
    + unfold L. rewrite lookup_app_r; rewrite length_take; [|nia].
      apply lookup_replicate_2. nia.
    + nia.
    + unfold arr. rewrite length_app. nia.
Qed.

End SolveQR_proofs.

Section SolveQR_core_proofs.
Context {K : Kernels}.

Lemma zero_extend_length c r bc C :
  length C = Nat.max r c * bc -> length (zero_extend c r bc C) = length C.
Proof.
  intros E. unfold zero_extend.
  rewrite length_app, length_take, length_replicate. nia.
Qed.

Lemma valid_len_cap_nil h s : valid h s -> s_ptr s = None -> s_len s = 0.
Proof.
  intros (H1 & H2 & _) E. unfold arr_of in H2. rewrite E in H2. simpl in H2. lia.
Qed.

(** The end of a successful solve (qr.go:190-192): the scratch is copied
    into the receiver and given back to the pool. *)
Lemma finish_copy {E} m1 x w s1 xs bx C tl rows bc R (e : E) :
  mat m1 = mkGeneral rows bc bc s1 -> mat x = mkGeneral R bc bc xs ->
  scratch w xs bx C tl -> s_len xs = R * bc -> rows <= R ->
  valid (heap w) s1 -> s_len s1 = rows * bc -> s_ptr s1 <> s_ptr xs ->
  exists w',
    (Copy m1 (MDense x) ;;; putWorkspace x ;;; ret (m1, e)) w = Done (m1, e) w' /\
    contents (heap w') s1 = take (rows * bc) C /\
    gets w' = gets w /\ puts w' = Datatypes.S (puts w) /\
    (forall t, s_ptr t <> s_ptr s1 -> arr_of (heap w') t = arr_of (heap w) t) /\
    (forall t, valid (heap w) t -> valid (heap w') t) /\
    pool w' = xs :: pool w.
Proof.
  intros Hm Hx Hs Hlx Hle Hv Hl1 Hne.
  pose proof Hs as (Hbx & Hbxl & Earr & HlC).
  pose proof (valid_arr_len _ _ Hv) as Hal.
  eexists. split.
  - erewrite bind_Done; cycle 1.
    { apply (Copy_full m1 (MDense x) w
               (fun i j => default f0 (C !! (i * bc + j))) rows bc).
      all: rewrite ?Hm, ?Hx; cbn [MDims Dims fst snd mdata];
        rewrite ?Hm, ?Hx; cbn [Rows Cols Stride Data]; try done; try lia.
      - destruct (s_ptr s1) as [b1|] eqn:E1; [|done].
        by apply (valid_ptr_lt _ s1).
      - right. done.
      - intros i j Hi Hj. cbn [at_val]. rewrite Hx. cbn [Stride Data].
        unfold sl_get. destruct (Nat.ltb_spec (i * bc + j) (s_len xs)); [|nia].
        rewrite Earr, lookup_app_l by nia.
        destruct (lookup_lt_is_Some_2 C (i * bc + j)) as [y ->]; [nia|done]. }
    by erewrite bind_Done; [|reflexivity].
  - simpl. rewrite set_arr_gets, set_arr_puts, set_arr_pool.
    rewrite Hm, Hx. cbn [Data].
    split; [|split; [done|split; [done|split; [|split; [|done]]]]]; cycle 1.
    { intros t Hnt. by rewrite arr_of_set_arr_ne by congruence. }
    { intros t Hvt. apply valid_set_arr_len; [done|].
      apply pre_length; [by rewrite tab_length|lia]. }
    destruct (s_ptr s1) as [b1|] eqn:E1.
    + unfold contents.
      rewrite (arr_of_set_arr w s1 s1 _ b1);
        [|done|done|by apply (valid_ptr_lt _ s1)].
      unfold pre. rewrite (take_ge (tab _ _)) by (rewrite tab_length; lia).
      rewrite Hl1, take_app_length' by (by rewrite tab_length).
      apply list_eq. intros k. destruct (decide (k < rows * bc)).
      * rewrite tab_lookup, lookup_take_lt by done.
        replace (k / bc * bc + k mod bc) with k
          by (rewrite (Nat.div_mod_eq k bc) at 1; lia).
        destruct (lookup_lt_is_Some_2 C k) as [y ->]; [nia|done].
      * rewrite !lookup_ge_None_2; [done|..].
        -- rewrite length_take. lia.
        -- rewrite tab_length. lia.
    + pose proof (valid_len_cap_nil _ _ Hv E1) as H0.
      unfold contents. rewrite H0. replace (rows * bc) with 0 by lia. done.
Qed.


Lemma off_pool_step w w1 t :
  off_pool w t -> pool w1 = pool w -> off_pool w1 t.
Proof. unfold off_pool. by intros H ->. Qed.

Lemma pre_take_drop (l X : list float) k n :
  k <= n -> pre l (take n X) k ++ drop n X = pre l X k.
Proof.
  intros Hk. unfold pre. rewrite <- app_assoc. f_equal.
  rewrite <- (take_drop n X) at 3.
  destruct (decide (n <= length X)) as [Hn|Hn].
  - by rewrite drop_app_le by (rewrite length_take; lia).
  - rewrite (take_ge X n), (drop_ge X n) by lia. by rewrite !app_nil_r.
Qed.

(** SolveQR on a call whose shapes agree, in full; B is another object or
    the receiver itself. *)
Lemma SolveQR_core m q d (trans : bool) (b : operand Matrix) w :
  wf_QR (heap w) q d -> wf_matrix (heap w) (read (MDense m) b) ->
  valid (heap w) (Data (mat m)) ->
  pool_ok w -> off_pool w (Data (mat d)) ->
  off_pool w (mdata (read (MDense m) b)) ->
  off_pool w (Data (mat m)) ->
  Ormqr_query_ok ->
  fst (MDims (read (MDense m) b))
    = (if trans then Cols (mat d) else Rows (mat d)) ->
  let rows := if trans then Rows (mat d) else Cols (mat d) in
  let bc := snd (MDims (read (MDense m) b)) in
  let R := Nat.max (Rows (mat d)) (Cols (mat d)) in
  let len := length (heap w) +
             (if rows * bc <=? s_cap (Data (mat m)) then 0 else 1) in
  exists sm xs (stale : list float) ok X w',
    length stale = R * bc /\
    s_ptr xs <> s_ptr (mdata (read (MDense m) b)) /\
    s_ptr xs <> s_ptr (Data (mat d)) /\
    s_ptr xs <> s_ptr sm /\
    solve_scratch trans (gen_val (heap w) (mat d)) (tau q)
      (mkGeneral R bc bc
                 (pre (copied (heap w) m rows b) stale
                      (length (copied (heap w) m rows b))))
      = Some (ok, X) /\
    SolveQR m q trans b w =
      Done (mkDense (mkGeneral rows bc bc sm) rows bc,
            if ok then None else Some (Condition infinity)) w' /\
    (rows * bc <= s_cap (Data (mat m)) ->
     sm = reslice (Data (mat m)) (rows * bc)) /\
    s_len sm = rows * bc /\
    (ok = true -> contents (heap w') sm = take (rows * bc) X) /\
    gets w' = Datatypes.S (gets w) /\
    puts w' = (if ok then Datatypes.S (puts w) else puts w) /\
    SolveQR_frame w (Data (mat m)) sm xs ok w' /\
    s_len xs = R * bc /\
    contents (heap w') xs = X /\
    xs = fst (taken (R * bc) (pool w) len) /\
    pool w' = (if ok then [xs] else []) ++ snd (taken (R * bc) (pool w) len) /\
    stale = held (R * bc) (pool w) (heap w).
Proof.
  intros (Hq & Hd & Ht) Hb Hvm Hp Hpd Hpb Hpm Hqok Hshape. cbv zeta.
  set (r := Rows (mat d)) in *. set (c := Cols (mat d)) in *.
  set (br := fst (MDims (read (MDense m) b))) in *.
  set (bc := snd (MDims (read (MDense m) b))) in *.
  set (R := Nat.max r c). set (rows := if trans then r else c).
  set (len := length (heap w) +
              (if rows * bc <=? s_cap (Data (mat m)) then 0 else 1)).
  set (g := gen_val (heap w) (mat d)).
  (* the receiver is resized *)
  destruct (reuseAs_spec m rows bc w Hvm)
    as (s1 & w1 & E1 & Hl1 & Hv1 & Hpre1 & Hpool1 & Hg1 & Hpu1 & Hfr1 & Hcase).
  assert (Hsm : rows * bc <= s_cap (Data (mat m)) ->
                s1 = reslice (Data (mat m)) (rows * bc)).
  { intros Hle. destruct Hcase as [(_ & _ & ->)|(Hlt & _)]; [done|lia]. }
  assert (Em : (if trans
                then (if negb (c =? br) then throw ErrShape else reuseAs m r bc)
                else (if negb (r =? br) then throw ErrShape else reuseAs m c bc)) w
               = Done (mkDense (mkGeneral rows bc bc s1) rows bc) w1).
  { unfold rows in E1. destruct trans; rewrite Hshape, Nat.eqb_refl; exact E1. }
  assert (Hp1 : pool_ok w1).
  { apply (pool_ok_step w); [done..|]. intros t _ Hvt.
    by apply (valid_prefix (heap w)). }
  assert (Ho1 : off_pool w1 s1).
  { unfold off_pool. rewrite Hpool1, Forall_forall. intros t Hin.
    unfold pool_ok, off_pool in Hp, Hpm. rewrite Forall_forall in Hp, Hpm.
    destruct (Hp t Hin) as [_ Hvt]. apply Hfr1; [done|]. by apply Hpm. }
  (* the scratch *)
  destruct (getWorkspace_spec R bc w1 Hp1)
    as (xs & w2 & E2 & Hlx & [bx Hbx] & Hvx & Hpre2 & Hg2 & Hpu2 & Hfr2 & Hsub2
        & Htk2 & Hheld2).
  assert (Hheld : take (R * bc) (arr_of (heap w2) xs)
                  = held (R * bc) (pool w) (heap w)).
  { rewrite Hheld2. unfold held. rewrite Hpool1.
    destruct (take_buf (R * bc) (pool w)) as [[s0 p']|] eqn:Etb; [|done].
    destruct (take_buf_Some _ _ _ _ Etb) as [Hin _].
    unfold pool_ok in Hp. rewrite Forall_forall in Hp.
    destruct (Hp s0 Hin) as [_ Hv0]. by rewrite (arr_of_prefix (heap w)). }
  assert (Htk : (xs, pool w2) = taken (R * bc) (pool w) len).
  { rewrite Htk2, Hpool1. f_equal. unfold len.
    destruct Hcase as [(Hle & -> & _)|(Hlt & _ & _ & ->)].
    - destruct (Nat.leb_spec (rows * bc) (s_cap (Data (mat m)))); lia.
    - rewrite length_app. simpl.
      destruct (Nat.leb_spec (rows * bc) (s_cap (Data (mat m)))); lia. }
  pose proof (wf_matrix_valid _ _ Hb) as Hvb.
  destruct Hd as [Hvd Hrd].
  assert (Hxb : s_ptr (mdata (read (MDense m) b)) <> s_ptr xs).
  { apply Hfr2; [by apply (valid_prefix (heap w))|by apply (off_pool_step w)]. }
  assert (Hxd : s_ptr (Data (mat d)) <> s_ptr xs).
  { apply Hfr2; [by apply (valid_prefix (heap w))|by apply (off_pool_step w)]. }
  assert (Hxm : s_ptr s1 <> s_ptr xs) by (by apply Hfr2).
  assert (Hbxl : bx < length (heap w2)) by (by apply (valid_ptr_lt _ xs)).
  set (X0 := arr_of (heap w2) xs).
  pose proof (valid_arr_len _ _ Hvx) as HX0. fold X0 in HX0.
  set (stale := take (R * bc) X0). set (tl := drop (R * bc) X0).
  assert (Hst : length stale = R * bc).
  { unfold stale. rewrite length_take. lia. }
  (* what the copy finds in B *)
  set (Bd := copied (heap w) m rows b).
  set (rc := fst (MDims (read (MDense (mkDense (mkGeneral rows bc bc s1) rows bc))
                              b))).
  assert (Hrc : rc <= R).
  { unfold rc. destruct b as [|a]; cbn [read MDims Dims mat Rows fst].
    - unfold rows, R. destruct trans; lia.
    - unfold br in Hshape. cbn [read] in Hshape. rewrite Hshape.
      unfold R. destruct trans; lia. }
  assert (HBd : length Bd = rc * bc).
  { unfold Bd, rc, bc.
    destruct b as [|a]; cbn [read copied MDims Dims mat Rows Cols fst snd].
    - destruct (Nat.leb_spec (rows * Cols (mat m)) (s_cap (Data (mat m)))).
      + rewrite length_take. destruct Hvm as (? & ? & ?). lia.
      + apply length_replicate.
    - apply flat_length. }
  rewrite HBd.
  set (C0 := pre Bd stale (rc * bc)).
  assert (HC0 : length C0 = R * bc).
  { unfold C0. rewrite pre_length; [done|lia|nia]. }
  (* B is copied into the scratch *)
  assert (Efin : forall f,
            tab (rc * bc) (fun k => f (k / bc) (k mod bc)) = Bd ->
            set_arr w2 xs (pre (tab (rc * bc) (fun k => f (k / bc) (k mod bc)))
                               (arr_of (heap w2) xs) (rc * bc))
            = set_arr w2 xs (C0 ++ tl)).
  { intros f ->. f_equal. fold X0. unfold C0, stale, tl. symmetry.
    apply pre_take_drop. nia. }
  assert (E3 : Copy (mkDense (mkGeneral R bc bc xs) R bc)
                    (read (MDense (mkDense (mkGeneral rows bc bc s1) rows bc)) b)
                    w2 =
               Done (rc, bc) (set_arr w2 xs (C0 ++ tl))).
  { destruct b as [|a]; cbn [read] in *.
    - (* B is the receiver, as it has been resized *)
      assert (EB : Bd = take (rows * bc) (arr_of (heap w1) s1)).
      { unfold Bd, copied. change (Cols (mat m)) with bc.
        destruct Hcase as [(Hle & Ew & Es)|(Hlt & _ & Hz & _)].
        - rewrite Ew, Es.
          by destruct (Nat.leb_spec (rows * bc) (s_cap (Data (mat m)))); [|lia].
        - destruct (Nat.leb_spec (rows * bc) (s_cap (Data (mat m)))); [lia|].
          rewrite Hz, take_ge; [done|]. rewrite length_replicate. lia. }
      pose proof (valid_arr_len _ _ Hv1) as Hal1.
      erewrite (Copy_full _ (MDense (mkDense (mkGeneral rows bc bc s1) rows bc))
                  w2 (fun i j => default f0 (Bd !! (i * bc + j))) rows bc);
        cbn [mat Rows Cols Stride Data MDims Dims fst snd mdata];
        try done; try lia.
      all: try (by rewrite Hbx).
      all: try (unfold rc in Hrc; cbn [MDims Dims mat Rows fst] in Hrc;
                fold X0; nia).
      all: try (right; congruence).
      + f_equal. apply (Efin (fun i j => default f0 (Bd !! (i * bc + j)))).
        by apply tab_row_major.
      + intros i j Hi Hj. cbn [at_val mat Stride Data]. unfold sl_get.
        destruct (Nat.ltb_spec (i * bc + j) (s_len s1)); [|nia].
        rewrite (arr_of_prefix (heap w1)) by done. rewrite EB.
        rewrite lookup_take_lt by nia.
        destruct (lookup_lt_is_Some_2 (arr_of (heap w1) s1) (i * bc + j))
          as [y ->]; [nia|done].
    - (* B is another object *)
      erewrite (Copy_full _ a w2 (mentry (heap w) a) br bc);
        cbn [mat Rows Cols Stride Data]; fold br bc; try done; try lia.
      all: try (by rewrite Hbx).
      all: try (unfold rc in Hrc; cbn [read] in Hrc; fold br in Hrc;
                fold X0; nia).
      all: try (right; congruence).
      + f_equal. by apply (Efin (mentry (heap w) a)).
      + intros i j Hi Hj.
        rewrite (at_val_prefix (heap w1)), (at_val_prefix (heap w));
          [by apply at_val_wf|done|done| |done].
        destruct a as [bd|bt]; simpl in *.
        * destruct Hb as [Hb1 Hb2]. split; [|done].
          by apply (valid_prefix (heap w)).
        * destruct Hb as [Hb1 Hb2]. split; [|done].
          by apply (valid_prefix (heap w)). }
  set (w3 := set_arr w2 xs (C0 ++ tl)).
  assert (Hs3 : scratch w3 xs bx C0 tl).
  { apply (scratch_set w2 xs bx stale); [|lia].
    split; [done|]. split; [done|]. split; [|lia].
    fold X0. unfold stale, tl. by rewrite take_drop. }
  assert (Ed2 : arr_of (heap w2) (Data (mat d)) = arr_of (heap w) (Data (mat d))).
  { rewrite (arr_of_prefix (heap w1)); [by apply arr_of_prefix| |done].
    by apply (valid_prefix (heap w)). }
  assert (Hvs2 : valid (heap w2) s1) by (by apply (valid_prefix (heap w1))).
  assert (Hgets : forall A B, gets (set_arr (set_arr w2 xs A) xs B) = Datatypes.S (gets w)).
  { intros. rewrite !set_arr_gets. lia. }
  assert (Hputs : forall A B, puts (set_arr (set_arr w2 xs A) xs B) = puts w).
  { intros. rewrite !set_arr_puts. lia. }
  assert (Hstep : forall C, length C = R * bc ->
            gen_val (heap (set_arr w2 xs (C ++ tl))) (mat d) = g /\
            valid (heap (set_arr w2 xs (C ++ tl))) s1).
  { intros C HC. split.
    - apply gen_val_eq. rewrite arr_of_set_arr_ne by congruence. done.
    - apply valid_set_arr; [done|congruence]. }
  assert (Hsc : forall C, length C = R * bc ->
            scratch (set_arr w2 xs (C ++ tl)) xs bx C tl).
  { intros C HC. apply (scratch_set w2 xs bx stale); [|lia].
    split; [done|]. split; [done|]. split; [|lia].
    fold X0. unfold stale, tl. by rewrite take_drop. }
  assert (Etri : forall h,
            tri_val h (mkTriangular c (Stride (mat d)) (Data (mat d))
                                    Upper NonUnit)
            = tri_of (gen_val h (mat d))) by done.
  (* what the writes to the scratch leave as it was *)
  assert (Hval2 : forall C u, length C = R * bc -> valid (heap w2) u ->
            valid (heap (set_arr w2 xs (C ++ tl))) u).
  { intros C u HC Hvu. apply valid_set_arr_len; [done|]. fold X0.
    unfold tl. rewrite length_app, length_drop. lia. }
  assert (Hval0 : forall u, valid (heap w) u -> valid (heap w2) u).
  { intros u Hvu. apply (valid_prefix (heap w1)); [|done].
    by apply (valid_prefix (heap w)). }
  assert (Hfr0 : forall A u, valid (heap w) u -> off_pool w u ->
            arr_of (heap (set_arr w2 xs A)) u = arr_of (heap w) u /\
            s_ptr u <> s_ptr xs).
  { intros A u Hvu Hou.
    assert (Hnx : s_ptr u <> s_ptr xs).
    { apply Hfr2; [by apply (valid_prefix (heap w))|by apply (off_pool_step w)]. }
    split; [|done]. rewrite arr_of_set_arr_ne by congruence.
    rewrite (arr_of_prefix (heap w1)); [by apply arr_of_prefix| |done].
    by apply (valid_prefix (heap w)). }
  assert (Hpl2 : forall p, p ∈ pool w2 -> p ∈ pool w).
  { intros p Hin. rewrite <- Hpool1. by apply Hsub2. }
  assert (Exs : xs = fst (taken (R * bc) (pool w) len)) by (by rewrite <- Htk).
  assert (Epl : pool w2 = snd (taken (R * bc) (pool w) len)) by (by rewrite <- Htk).
  assert (HtailF : forall C, length C = R * bc ->
            s_len xs = R * bc /\
            contents (heap (set_arr w2 xs (C ++ tl))) xs = C /\
            xs = fst (taken (R * bc) (pool w) len) /\
            pool (set_arr w2 xs (C ++ tl))
            = [] ++ snd (taken (R * bc) (pool w) len) /\
            stale = held (R * bc) (pool w) (heap w)).
  { intros C HC. split; [done|]. split; [|split; [done|split; [|done]]].
    - apply (scratch_contents _ xs bx C tl).
      apply (scratch_set w2 xs bx stale); [|lia].
      split; [done|]. split; [done|]. split; [|lia].
      fold X0. unfold stale, tl. by rewrite take_drop.
    - by rewrite set_arr_pool. }
  assert (HtailS : forall C w',
            length C = R * bc ->
            (forall u, s_ptr u <> s_ptr s1 ->
               arr_of (heap w') u = arr_of (heap (set_arr w2 xs (C ++ tl))) u) ->
            pool w' = xs :: pool (set_arr w2 xs (C ++ tl)) ->
            s_len xs = R * bc /\
            contents (heap w') xs = C /\
            xs = fst (taken (R * bc) (pool w) len) /\
            pool w' = [xs] ++ snd (taken (R * bc) (pool w) len) /\
            stale = held (R * bc) (pool w) (heap w)).
  { intros C w' HC Hfa Hfp. destruct (HtailF C HC) as (T1 & T2 & T3 & T4 & T5).
    split; [done|]. split; [|split; [done|split; [|done]]].
    - unfold contents in *. rewrite Hfa by congruence. exact T2.
    - rewrite Hfp. simpl in T4. by rewrite T4. }
  assert (Hfail : forall C, length C = R * bc ->
            SolveQR_frame w (Data (mat m)) s1 xs false
                          (set_arr w2 xs (C ++ tl))).
  { intros C HC. split; [intros u Hvu; apply Hval2; [done|by apply Hval0]|].
    split.
    { intros u Hvu Hou Hnu. destruct (Hfr0 (C ++ tl) u Hvu Hou) as [Ea Hnx].
      split; [done|]. split; [by apply Hfr1|done]. }
    split; [intros _ u Hvu Hou; by apply Hfr0|].
    split; [by apply Hval2|]. split; [by apply Hval2|].
    split; [by eexists|].
    split; [by apply (off_pool_step w1)|].
    split; [|split; [done|intros u Hvu Hou; exact (proj2 (Hfr0 [] u Hvu Hou))]].
    intros p Hin. rewrite set_arr_pool in Hin. left. by apply Hpl2. }
  assert (Hsucc : forall C w',
            length C = R * bc ->
            (forall u, s_ptr u <> s_ptr s1 ->
               arr_of (heap w') u = arr_of (heap (set_arr w2 xs (C ++ tl))) u) ->
            (forall u, valid (heap (set_arr w2 xs (C ++ tl))) u ->
               valid (heap w') u) ->
            pool w' = xs :: pool (set_arr w2 xs (C ++ tl)) ->
            SolveQR_frame w (Data (mat m)) s1 xs true w').
  { intros C w' HC Hfa Hfv Hfp.
    split; [intros u Hvu; apply Hfv, Hval2; [done|by apply Hval0]|].
    split.
    { intros u Hvu Hou Hnu. destruct (Hfr0 (C ++ tl) u Hvu Hou) as [Ea Hnx].
      assert (Hn1 : s_ptr u <> s_ptr s1) by (by apply Hfr1).
      split; [by rewrite Hfa|done]. }
    split; [done|].
    split; [by apply Hfv, Hval2|]. split; [by apply Hfv, Hval2|].
    split; [by eexists|].
    split; [by apply (off_pool_step w1)|].
    split; [|split; [intros _; rewrite Hfp; left|
                     intros u Hvu Hou; exact (proj2 (Hfr0 [] u Hvu Hou))]].
    intros p Hin. rewrite Hfp, set_arr_pool in Hin.
    apply elem_of_cons in Hin as [->|Hin]; [by right|left; by apply Hpl2]. }
  (* the body *)
  unfold SolveQR. rewrite Hq.
  rewrite (bind_Done (deref (Some d)) _ w d w eq_refl).
  cbn [Dims fst snd]. fold r c br bc.
  rewrite (bind_Done _ _ _ _ _ Em).
  fold R. rewrite (bind_Done _ _ _ _ _ E2).
  rewrite (bind_Done _ _ _ _ _ E3). fold w3.
  cbn [mat Stride Data].
  destruct trans.
  - (* Rᵗ X' = B, zero rows, Q X' *)
    erewrite bind_Done; [|eapply Trtrs_scratch; apply Hs3].
    cbn zeta. cbn [Rows Cols Stride Data].
    rewrite Etri. destruct (Hstep C0 HC0) as [Eg0 _]. fold w3 in Eg0.
    rewrite Eg0.
    set (t := k_Trtrs Trans (tri_of g) (mkGeneral R bc bc C0)).
    set (C1 := fit C0 (snd t)).
    assert (HC1 : length C1 = R * bc) by (unfold C1; by rewrite fit_length).
    unfold w3. rewrite (set_arr_set_arr w2 xs xs) by done.
    destruct (fst t) eqn:Eok; cbn [negb].
    + erewrite bind_Done; cycle 1.
      { apply (zero_rows_scratch _ xs bx C1 tl c r bc); [by apply Hsc|].
        rewrite Hlx. unfold R. done. }
      rewrite (set_arr_set_arr w2 xs xs) by done.
      set (C2 := zero_extend c r bc C1).
      assert (HC2 : length C2 = R * bc).
      { unfold C2. rewrite zero_extend_length; [done|]. by rewrite HC1. }
      destruct (Ormqr2_scratch Left NoTrans (mat d) (tau q)
                  (mkGeneral R bc bc xs) (set_arr w2 xs (C2 ++ tl)) bx C2 tl)
        as (C3 & EC3 & HC3 & EO); [done|by apply Hsc|cbn [Data]; congruence|].
      cbn [Rows Cols Stride Data] in EC3, EO.
      destruct (Hstep C2 HC2) as [Eg2 _]. rewrite Eg2 in EC3.
      rewrite (bind_Done _ _ _ _ _ EO).
      rewrite (set_arr_set_arr w2 xs xs) by done.
      destruct (finish_copy (mkDense (mkGeneral r bc bc s1) r bc)
                  (mkDense (mkGeneral R bc bc xs) R bc)
                  (set_arr w2 xs (C3 ++ tl)) s1 xs bx C3 tl r bc R (@None error))
        as (w' & EF & Hcont & Hge & Hpe & Hfa & Hfv & Hfp); try done.
      { apply Hsc. lia. }
      { unfold R. lia. }
      { apply Hstep. lia. }
      exists s1, xs, stale, true, C3, w'.
      split; [done|]. split; [congruence|]. split; [congruence|].
      split; [congruence|]. split.
      { unfold solve_scratch. cbn [Rows Cols Stride Data].
        fold C0. fold t. rewrite Eok. fold C1.
        change (Cols g) with c. change (Rows g) with r. fold C2.
        unfold with_data. cbn [Rows Cols Stride]. by rewrite EC3. }
      split; [exact EF|]. split; [exact Hsm|]. split; [done|].
      split; [by intros _|].
      rewrite Hge, Hpe, set_arr_gets, set_arr_puts.
      split; [lia|]. split; [lia|].
      split; [apply (Hsucc C3); [lia|done..]|]. apply (HtailS C3); [lia|done..].
    + exists s1, xs, stale, false, C1, (set_arr w2 xs (C1 ++ tl)).
      split; [done|]. split; [congruence|]. split; [congruence|].
      split; [congruence|]. split.
      { unfold solve_scratch. cbn [Rows Cols Stride Data]. fold C0. fold t.
        by rewrite Eok. }
      split; [done|]. split; [exact Hsm|]. split; [done|]. split; [done|].
      rewrite set_arr_gets, set_arr_puts.
      split; [lia|]. split; [lia|].
      split; [apply Hfail; lia|]. apply HtailF; lia.
  - (* Qᵗ B, R X = Qᵗ B *)
    destruct (Ormqr2_scratch Left Trans (mat d) (tau q)
                (mkGeneral R bc bc xs) w3 bx C0 tl)
      as (C1 & EC1 & HC1 & EO); [done|done|cbn [Data]; congruence|].
    cbn [Rows Cols Stride Data] in EC1, EO.
    destruct (Hstep C0 HC0) as [Eg0 _]. fold w3 in Eg0. rewrite Eg0 in EC1.
    rewrite (bind_Done _ _ _ _ _ EO).
    unfold w3. rewrite (set_arr_set_arr w2 xs xs) by done.
    erewrite bind_Done; [|eapply Trtrs_scratch; apply Hsc; lia].
    cbn zeta. cbn [Rows Cols Stride Data].
    rewrite Etri. destruct (Hstep C1) as [-> _]; [lia|].
    set (t := k_Trtrs NoTrans (tri_of g) (mkGeneral R bc bc C1)).
    set (C2 := fit C1 (snd t)).
    assert (HC2 : length C2 = R * bc) by (unfold C2; rewrite fit_length; lia).
    rewrite (set_arr_set_arr w2 xs xs) by done.
    assert (Esol : solve_scratch false g (tau q) (mkGeneral R bc bc C0)
                   = Some (fst t, C2)).
    { unfold solve_scratch. rewrite EC1. done. }
    destruct (fst t) eqn:Eok; cbn [negb].
    + destruct (finish_copy (mkDense (mkGeneral c bc bc s1) c bc)
                  (mkDense (mkGeneral R bc bc xs) R bc)
                  (set_arr w2 xs (C2 ++ tl)) s1 xs bx C2 tl c bc R (@None error))
        as (w' & EF & Hcont & Hge & Hpe & Hfa & Hfv & Hfp); try done.
      { by apply Hsc. }
      { unfold R. lia. }
      { by apply Hstep. }
      exists s1, xs, stale, true, C2, w'.
      split; [done|]. split; [congruence|]. split; [congruence|].
      split; [congruence|]. split; [done|].
      split; [exact EF|]. split; [exact Hsm|]. split; [done|].
      split; [by intros _|].
      rewrite Hge, Hpe, set_arr_gets, set_arr_puts.
      split; [lia|]. split; [lia|].
      split; [apply (Hsucc C2); [lia|done..]|]. apply (HtailS C2); [lia|done..].
    + exists s1, xs, stale, false, C2, (set_arr w2 xs (C2 ++ tl)).
      split; [done|]. split; [congruence|]. split; [congruence|].
      split; [congruence|]. split; [done|].
      split; [done|]. split; [exact Hsm|]. split; [done|]. split; [done|].
      rewrite set_arr_gets, set_arr_puts.
      split; [lia|]. split; [lia|].
      split; [apply Hfail; lia|]. apply HtailF; lia.
Qed.

(** The same when B is another object than the receiver: the copy finds
    the elements of B. *)
Lemma SolveQR_other m q d (trans : bool) (b : Matrix) w :
  wf_QR (heap w) q d -> wf_matrix (heap w) b ->
  valid (heap w) (Data (mat m)) ->
  pool_ok w -> off_pool w (Data (mat d)) -> off_pool w (mdata b) ->
  off_pool w (Data (mat m)) ->
  Ormqr_query_ok ->
  fst (MDims b) = (if trans then Cols (mat d) else Rows (mat d)) ->
  exists sm xs (stale : list float) ok X w',
    length stale = Nat.max (Rows (mat d)) (Cols (mat d)) * snd (MDims b) /\
    s_ptr xs <> s_ptr (mdata b) /\ s_ptr xs <> s_ptr (Data (mat d)) /\
    s_ptr xs <> s_ptr sm /\
    solve_scratch trans (gen_val (heap w) (mat d)) (tau q)
      (mkGeneral (Nat.max (Rows (mat d)) (Cols (mat d))) (snd (MDims b))
                 (snd (MDims b))
                 (pre (flat (heap w) b) stale (fst (MDims b) * snd (MDims b))))
      = Some (ok, X) /\
    SolveQR m q trans (Other b) w =
      Done (mkDense (mkGeneral (if trans then Rows (mat d) else Cols (mat d))
                               (snd (MDims b)) (snd (MDims b)) sm)
                    (if trans then Rows (mat d) else Cols (mat d))
                    (snd (MDims b)),
            if ok then None else Some (Condition infinity)) w' /\
    ((if trans then Rows (mat d) else Cols (mat d)) * snd (MDims b)
       <= s_cap (Data (mat m)) ->
     sm = reslice (Data (mat m))
            ((if trans then Rows (mat d) else Cols (mat d)) * snd (MDims b))) /\
    s_len sm = (if trans then Rows (mat d) else Cols (mat d)) * snd (MDims b) /\
    (ok = true ->
     contents (heap w') sm =
     take ((if trans then Rows (mat d) else Cols (mat d)) * snd (MDims b)) X) /\
    gets w' = Datatypes.S (gets w) /\
    puts w' = (if ok then Datatypes.S (puts w) else puts w) /\
    SolveQR_frame w (Data (mat m)) sm xs ok w' /\
    s_len xs = Nat.max (Rows (mat d)) (Cols (mat d)) * snd (MDims b) /\
    contents (heap w') xs = X /\
    (let len := length (heap w) +
                (if (if trans then Rows (mat d) else Cols (mat d)) * snd (MDims b)
                    <=? s_cap (Data (mat m)) then 0 else 1) in
     let need := Nat.max (Rows (mat d)) (Cols (mat d)) * snd (MDims b) in
     xs = fst (taken need (pool w) len) /\
     pool w' = (if ok then [xs] else []) ++ snd (taken need (pool w) len) /\
     stale = held need (pool w) (heap w)).
Proof.
  intros Hq Hb Hvm Hp Hpd Hpb Hpm Hqok Hshape.
  destruct (SolveQR_core m q d trans (Other b) w)
    as (sm & xs & stale & ok & X & w' & H1 & H2 & H3 & H4 & H5 & H6 & H7 & H8
        & H9 & H10 & H11 & H12 & H13 & H14 & H15 & H16 & H17); try done.
  cbn [read copied] in *. rewrite flat_length in H5.
  exists sm, xs, stale, ok, X, w'. cbn zeta. done.
Qed.

End SolveQR_core_proofs.

(** ** Factorize *)

Section Factorize_proofs.
Context {K : Kernels}.

Lemma Geqrf_scratch a tau0 work lwork w bx C tl :
  scratch w (Data a) bx C tl ->
  Geqrf a tau0 work lwork w =
  let res := k_Geqrf (mkGeneral (Rows a) (Cols a) (Stride a) C) tau0 work lwork in
  Done (fit tau0 (snd (fst res)), fit work (snd res))
       (set_arr w (Data a) (fit C (fst (fst res)) ++ tl)).
Proof.
  intros Hs. unfold Geqrf.
  assert (E : gen_val (heap w) a = mkGeneral (Rows a) (Cols a) (Stride a) C).
  { unfold gen_val. by rewrite (scratch_contents _ _ _ _ _ Hs). }
  rewrite E. by erewrite bind_Done; [|by eapply store_scratch].
Qed.

Lemma set_arr_fresh w l a :
  heap (set_arr (set_heap w (heap w ++ [l]))
                (mkSlice (Some (length (heap w))) (length l) (length l)) a)
  = heap w ++ [a].
Proof.
  unfold set_arr. simpl.
  rewrite insert_app_r_alt by lia. by rewrite Nat.sub_diag.
Qed.

(** Factorize on a matrix with at least as many rows as columns, in full:
    the factor is held in a new backing array; no array that existed is
    written. *)
Lemma Factorize_core q a w :
  wf_matrix (heap w) a -> snd (MDims a) <= fst (MDims a) ->
  Geqrf_query_ok ->
  exists F tau1 w',
    factor_of (mkGeneral (fst (MDims a)) (snd (MDims a)) (snd (MDims a))
                         (flat (heap w) a)) = Some (F, tau1) /\
    Factorize q a w =
      Done (mkQR (Some (mkDense
              (mkGeneral (fst (MDims a)) (snd (MDims a)) (snd (MDims a))
                 (mkSlice (Some (length (heap w)))
                          (fst (MDims a) * snd (MDims a))
                          (fst (MDims a) * snd (MDims a))))
              (fst (MDims a)) (snd (MDims a)))) tau1) w' /\
    heap w' = heap w ++ [F] /\
    length F = fst (MDims a) * snd (MDims a) /\
    length tau1 = Nat.min (fst (MDims a)) (snd (MDims a)) /\
    pool w' = pool w /\ gets w' = gets w /\ puts w' = puts w.
Proof.
  intros Ha Hmn Hqok.
  set (m := fst (MDims a)) in *. set (n := snd (MDims a)) in *.
  set (s := mkSlice (Some (length (heap w))) (m * n) (m * n)).
  set (w1 := set_heap w (heap w ++ [replicate (m * n) f0])).
  set (A := flat (heap w) a).
  assert (HA : length A = m * n) by apply flat_length.
  pose proof (wf_matrix_valid _ _ Ha) as Hva.
  assert (Hpre : heap w `prefix_of` heap w1) by (by eexists).
  assert (Hs1 : arr_of (heap w1) s = replicate (m * n) f0) by apply arr_of_fresh.
  (* the clone *)
  assert (EC : Clone (match qr q with None => emptyDense | Some d => d end) a w
               = Done (mkDense (mkGeneral m n n s) m n) (set_arr w1 s (A ++ []))).
  { unfold Clone. fold m n. rewrite (bind_Done _ _ _ _ _ (make_spec _ _)).
    fold w1 s.
    erewrite bind_Done; cycle 1.
    { apply (Copy_full _ a w1 (mentry (heap w) a) m n);
        cbn [mat Rows Cols Stride Data]; fold m n; try done; try lia.
      - simpl. rewrite length_app. simpl. lia.
      - rewrite Hs1, length_replicate. lia.
      - right. simpl. intros E. symmetry in E.
        pose proof (valid_ptr_lt _ _ _ Hva E). lia.
      - intros i j Hi Hj. rewrite (at_val_prefix (heap w)) by done.
        by apply at_val_wf. }
    unfold ret. cbn [mat Data]. do 2 f_equal.
    change (tab (m * n) (fun k => mentry (heap w) a (k / n) (k mod n))) with A.
    rewrite Hs1.
    unfold pre. rewrite take_ge by lia.
    rewrite drop_ge by (rewrite length_replicate; lia). done. }
  assert (Hsc : forall C, length C = m * n ->
            scratch (set_arr w1 s (C ++ [])) s (length (heap w)) C []).
  { intros C HC. split; [done|]. split.
    - rewrite set_arr_heap_length. simpl. rewrite length_app. simpl. lia.
    - split; [|done]. rewrite (arr_of_set_arr w1 s s _ (length (heap w))); try done.
      simpl. rewrite length_app. simpl. lia. }
  (* the kernel, twice *)
  unfold factor_of. cbn [Rows Cols Stride Data]. fold A.
  set (k := Nat.min m n).
  set (tau0 := replicate k f0).
  set (g0 := mkGeneral m n n A).
  pose proof (Hqok g0 tau0) as Hq.
  set (q1 := k_Geqrf g0 tau0 (replicate 1 f0) (-1)) in *.
  set (a1 := fit A (fst (fst q1))).
  set (tau1 := fit tau0 (snd (fst q1))).
  set (work1 := fit (replicate 1 f0) (snd q1)) in *.
  assert (Hw1 : exists y, work1 !! 0 = Some y).
  { apply lookup_lt_is_Some_2. unfold work1. rewrite fit_length. simpl. lia. }
  destruct Hw1 as [y Hy]. rewrite Hy in Hq |- *. simpl in Hq.
  change (default f0 (Some y)) with y.
  destruct (Z.ltb_spec (int_of_float y) 0) as [|_]; [lia|].
  set (work := replicate (Z.to_nat (int_of_float y)) f0).
  set (q2 := k_Geqrf (with_data g0 a1) tau1 work (Z.of_nat (length work))).
  exists (fit a1 (fst (fst q2))), (fit tau1 (snd (fst q2))).
  eexists. split; [reflexivity|].
  assert (Ha1 : length a1 = m * n) by (unfold a1; by rewrite fit_length).
  split.
  - unfold Factorize. fold m n.
    destruct (Nat.ltb_spec m n) as [|_]; [lia|].
    rewrite (bind_Done _ _ _ _ _ EC). cbn [mat].
    erewrite bind_Done; [|eapply Geqrf_scratch; by apply Hsc].
    cbn zeta. cbn [Rows Cols Stride Data fst snd]. fold k tau0 g0 q1 a1 tau1 work1.
    rewrite (set_arr_set_arr w1 s s) by done.
    erewrite bind_Done; [|by apply (work_alloc_ok _ y)].
    fold work.
    erewrite bind_Done; [|eapply Geqrf_scratch; by apply Hsc].
    cbn zeta. cbn [Rows Cols Stride Data fst snd].
    rewrite (set_arr_set_arr w1 s s) by done.
    reflexivity.
  - rewrite set_arr_pool, set_arr_gets, set_arr_puts.
    split.
    { rewrite app_nil_r. unfold w1, s.
      rewrite <- (length_replicate (m * n) f0) at 2 3.
      apply set_arr_fresh. }
    split; [by rewrite fit_length|].
    split; [unfold tau1, tau0; by rewrite !fit_length, length_replicate|done].
Qed.

End Factorize_proofs.

(** ** The shape panics *)

Section Shape_proofs.
Context {K : Kernels}.

Lemma noshape_Geqrf a tau0 work lwork : noshape (Geqrf a tau0 work lwork).
Proof. by intros w. Qed.

Lemma noshape_Ormqr side trans a tau0 c work lwork :
  noshape (Ormqr side trans a tau0 c work lwork).
Proof. by intros w. Qed.

Lemma noshape_Trtrs trans a b : noshape (Trtrs trans a b).
Proof. by intros w. Qed.

Lemma noshape_Gemm tA tB alpha a b beta c : noshape (Gemm tA tB alpha a b beta c).
Proof. by intros w. Qed.

Lemma noshape_work_alloc work : noshape (work_alloc work).
Proof.
  unfold work_alloc. apply noshape_bind; [apply noshape_lrd|].
  intros. apply noshape_make_local.
Qed.

Lemma noshape_Ormqr2 side trans a tau0 c : noshape (Ormqr2 side trans a tau0 c).
Proof.
  unfold Ormqr2. apply noshape_bind; [apply noshape_Ormqr|]. intros.
  apply noshape_bind; [apply noshape_work_alloc|]. intros.
  apply noshape_bind; [apply noshape_Ormqr|]. intros. apply noshape_ret.
Qed.

Lemma noshape_Clone m a : noshape (Clone m a).
Proof.
  unfold Clone. apply noshape_bind; [apply noshape_make|]. intros.
  apply noshape_bind; [apply noshape_Copy|]. intros. apply noshape_ret.
Qed.

(** Factorize panics with ErrShape exactly when m < n. *)
Lemma Factorize_ErrShape q a w :
  Factorize q a w = Panic ErrShape <-> fst (MDims a) < snd (MDims a).
Proof.
  unfold Factorize. destruct (Nat.ltb_spec (fst (MDims a)) (snd (MDims a))).
  - by split.
  - split; [|lia]. intros E. exfalso. revert E.
    apply noshape_bind; [apply noshape_Clone|]. intros d.
    apply noshape_bind; [apply noshape_Geqrf|]. intros tw.
    apply noshape_bind; [apply noshape_work_alloc|]. intros work.
    apply noshape_bind; [apply noshape_Geqrf|]. intros. apply noshape_ret.
Qed.

(** SolveQR on a factorized QR panics with ErrShape exactly when the rows
    of B are not those the transpose flag asks for. *)
Lemma SolveQR_ErrShape m q d (trans : bool) (b : operand Matrix) w :
  qr q = Some d ->
  SolveQR m q trans b w = Panic ErrShape <->
  fst (MDims (read (MDense m) b)) <> (if trans then Cols (mat d) else Rows (mat d)).
Proof.
  intros Hq. unfold SolveQR. rewrite Hq.
  rewrite (bind_Done (deref (Some d)) _ w d w eq_refl).
  cbn [Dims fst snd].
  assert (Htail : forall m1 x,
    noshape (Copy x (read (MDense m1) b) ;;;
      let t := mkTriangular (Cols (mat d)) (Stride (mat d)) (Data (mat d))
                            Upper NonUnit in
      if trans then
        ok <- Trtrs Trans t (mat x) ;;
        if negb ok then ret (m1, Some (Condition infinity)) else
        for_ (Cols (mat d)) (Rows (mat d)) (fun i =>
          for_ 0 (snd (MDims (read (MDense m) b))) (fun j =>
            wr (Data (mat x)) (i * Stride (mat x) + j) f0)) ;;;
        Ormqr2 Left NoTrans (mat d) (tau q) (mat x) ;;;
        Copy m1 (MDense x) ;;;
        putWorkspace x ;;;
        ret (m1, None)
      else
        Ormqr2 Left Trans (mat d) (tau q) (mat x) ;;;
        ok <- Trtrs NoTrans t (mat x) ;;
        if negb ok then ret (m1, Some (Condition infinity)) else
        Copy m1 (MDense x) ;;;
        putWorkspace x ;;;
        ret (m1, None))).
  { intros m1 x. apply noshape_bind; [apply noshape_Copy|]. intros _.
    cbn zeta. destruct trans.
    - apply noshape_bind; [apply noshape_Trtrs|]. intros ok.
      destruct (negb ok); [apply noshape_ret|].
      apply noshape_bind.
      { apply noshape_for. intros i. apply noshape_for. intros j.
        apply noshape_wr. }
      intros _. apply noshape_bind; [apply noshape_Ormqr2|]. intros _.
      apply noshape_bind; [apply noshape_Copy|]. intros _.
      apply noshape_bind; [apply noshape_putWorkspace|]. intros _.
      apply noshape_ret.
    - apply noshape_bind; [apply noshape_Ormqr2|]. intros _.
      apply noshape_bind; [apply noshape_Trtrs|]. intros ok.
      destruct (negb ok); [apply noshape_ret|].
      apply noshape_bind; [apply noshape_Copy|]. intros _.
      apply noshape_bind; [apply noshape_putWorkspace|]. intros _.
      apply noshape_ret. }
  assert (Hrest : forall c0 : M Dense, noshape c0 ->
    noshape (m1 <- c0 ;;
             x <- getWorkspace (Nat.max (Rows (mat d)) (Cols (mat d)))
                               (snd (MDims (read (MDense m) b))) false ;;
             Copy x (read (MDense m1) b) ;;;
      let t := mkTriangular (Cols (mat d)) (Stride (mat d)) (Data (mat d))
                            Upper NonUnit in
      if trans then
        ok <- Trtrs Trans t (mat x) ;;
        if negb ok then ret (m1, Some (Condition infinity)) else
        for_ (Cols (mat d)) (Rows (mat d)) (fun i =>
          for_ 0 (snd (MDims (read (MDense m) b))) (fun j =>
            wr (Data (mat x)) (i * Stride (mat x) + j) f0)) ;;;
        Ormqr2 Left NoTrans (mat d) (tau q) (mat x) ;;;
        Copy m1 (MDense x) ;;;
        putWorkspace x ;;;
        ret (m1, None)
      else
        Ormqr2 Left Trans (mat d) (tau q) (mat x) ;;;
        ok <- Trtrs NoTrans t (mat x) ;;
        if negb ok then ret (m1, Some (Condition infinity)) else
        Copy m1 (MDense x) ;;;
        putWorkspace x ;;;
        ret (m1, None))).
  { intros c0 Hc0. apply noshape_bind; [done|]. intros m1.
    apply noshape_bind; [apply noshape_getWorkspace|]. intros x. apply Htail. }
  destruct trans.
  - destruct (Nat.eqb_spec (Cols (mat d)) (fst (MDims (read (MDense m) b)))) as [E|E]; cbn [negb].
    + split; [|by intros H; exfalso; apply H].
      intros HP. exfalso. revert HP. apply Hrest. apply noshape_reuseAs.
    + split; [by intros _; congruence|]. intros _.
      by apply bind_Panic.
  - destruct (Nat.eqb_spec (Rows (mat d)) (fst (MDims (read (MDense m) b)))) as [E|E]; cbn [negb].
    + split; [|by intros H; exfalso; apply H].
      intros HP. exfalso. revert HP. apply Hrest. apply noshape_reuseAs.
    + split; [by intros _; congruence|]. intros _.
      by apply bind_Panic.
Qed.

End Shape_proofs.

(** ** RFromQR *)

(** RFromQR, in full: the first n rows of the receiver become the upper
    triangle of the factor; the rows below hold what the storage of the
    receiver held (zeros when it is fresh). *)
Lemma RFromQR_core m q d w :
  wf_QR (heap w) q d -> Cols (mat d) <= Rows (mat d) ->
  valid (heap w) (Data (mat m)) ->
  s_ptr (Data (mat m)) <> s_ptr (Data (mat d)) ->
  exists sm w',
    RFromQR m q w =
      Done (mkDense (mkGeneral (Rows (mat d)) (Cols (mat d)) (Cols (mat d)) sm)
                    (Rows (mat d)) (Cols (mat d))) w' /\
    s_len sm = Rows (mat d) * Cols (mat d) /\
    (forall i j, i < Cols (mat d) -> j < Cols (mat d) ->
       contents (heap w') sm !! (i * Cols (mat d) + j) =
       Some (if j <? i then f0 else entry (gen_val (heap w) (mat d)) i j)) /\
    (forall k, Cols (mat d) * Cols (mat d) <= k ->
       k < Rows (mat d) * Cols (mat d) ->
       contents (heap w') sm !! k =
       if Rows (mat d) * Cols (mat d) <=? s_cap (Data (mat m))
       then arr_of (heap w) (Data (mat m)) !! k else Some f0) /\
    contents (heap w') (Data (mat d)) = contents (heap w) (Data (mat d)) /\
    pool w' = pool w /\ gets w' = gets w /\ puts w' = puts w /\
    (Rows (mat d) * Cols (mat d) <= s_cap (Data (mat m)) ->
     sm = reslice (Data (mat m)) (Rows (mat d) * Cols (mat d))) /\
    valid (heap w') sm /\
    (forall t, valid (heap w) t -> valid (heap w') t) /\
    (forall t, valid (heap w) t -> s_ptr t <> s_ptr (Data (mat m)) ->
       arr_of (heap w') t = arr_of (heap w) t /\ s_ptr t <> s_ptr sm).
Proof.
  intros (Hq & [Hvd Hrd] & Ht) Hcr Hvm Hsep.
  set (r := Rows (mat d)) in *. set (c := Cols (mat d)) in *.
  set (g := gen_val (heap w) (mat d)).
  destruct (reuseAs_spec m r c w Hvm)
    as (s1 & w1 & E1 & Hl1 & Hv1 & Hpre1 & Hpool1 & Hg1 & Hpu1 & Hfr1 & Hcase).
  assert (Hnd : s_ptr s1 <> s_ptr (Data (mat d))).
  { intros E. symmetry in E. revert E. apply Hfr1; [done|congruence]. }
  set (f := fun i j => if j <? i then f0 else entry g i j).
  set (arr1 := arr_of (heap w1) s1).
  pose proof (valid_arr_len _ _ Hv1) as Hal. fold arr1 in Hal.
  set (t := mkTriDense (mkTriangular c (Stride (mat d)) (Data (mat d))
                                     Upper NonUnit)).
  assert (E2 : Copy (mkDense (mkGeneral r c c s1) r c) (MTri t) w1 =
               Done (c, c) (set_arr w1 s1
                 (pre (tab (c * c) (fun k => f (k / c) (k mod c))) arr1 (c * c)))).
  { apply (Copy_full (mkDense (mkGeneral r c c s1) r c) (MTri t) w1 f c c);
      cbn [mat Rows Cols Stride Data MDims tmat N fst snd mdata tData];
      try done; try lia; try nia.
    - destruct (s_ptr s1) as [b1|] eqn:Eb; [|done]. by apply (valid_ptr_lt _ s1).
    - unfold t. cbn [tmat N]. lia.
    - fold arr1. nia.
    - by right.
    - intros i j Hi Hj. cbn [at_val tmat Uplo tStride tData]. unfold Upper, f.
      destruct (j <? i); [done|].
      rewrite (sl_get_entry (heap w1) (mat d)); fold r c; try done; try lia.
      + by rewrite (gen_val_eq (heap w) (heap w1)) by (by apply arr_of_prefix).
      + by apply (valid_prefix (heap w)). }
  exists s1, (set_arr w1 s1
    (pre (tab (c * c) (fun k => f (k / c) (k mod c))) arr1 (c * c))).
  split.
  { unfold RFromQR. rewrite Hq.
    rewrite (bind_Done (deref (Some d)) _ w d w eq_refl).
    cbn [Dims fst snd]. fold r c.
    rewrite (bind_Done _ _ _ _ _ E1). fold t.
    by rewrite (bind_Done _ _ _ _ _ E2). }
  split; [done|].
  assert (Hcont : 0 < r * c ->
    contents (heap (set_arr w1 s1
      (pre (tab (c * c) (fun k => f (k / c) (k mod c))) arr1 (c * c)))) s1
    = take (r * c) (pre (tab (c * c) (fun k => f (k / c) (k mod c))) arr1 (c * c))).
  { intros Hpos. destruct (valid_ptr_Some _ _ Hv1) as (b1 & Eb & Hb1); [lia|].
    unfold contents. by rewrite (arr_of_set_arr w1 s1 s1 _ b1), Hl1. }
  split.
  { intros i j Hi Hj. rewrite Hcont by nia.
    rewrite lookup_take_lt by nia.
    rewrite pre_lookup_lt by (rewrite ?tab_length; nia).
    rewrite tab_lookup by nia.
    by destruct (div_mod_rc i j c Hj) as [-> ->]. }
  split.
  { intros k Hk1 Hk2. rewrite Hcont by lia.
    rewrite lookup_take_lt by lia.
    rewrite pre_lookup_ge by (rewrite ?tab_length; lia).
    unfold arr1.
    destruct Hcase as [(Hle & -> & ->)|(Hlt & Hb1 & Hz & _)].
    - destruct (Nat.leb_spec (r * c) (s_cap (Data (mat m)))); [done|lia].
    - destruct (Nat.leb_spec (r * c) (s_cap (Data (mat m)))); [lia|].
      rewrite Hz. by apply lookup_replicate_2. }
  rewrite set_arr_pool, set_arr_gets, set_arr_puts.
  split.
  { unfold contents.
    rewrite arr_of_set_arr_ne by done. by rewrite (arr_of_prefix (heap w)). }
  do 3 (split; [done|]).
  split.
  { intros Hle. destruct Hcase as [(_ & _ & ->)|(Hlt & _)]; [done|lia]. }
  assert (Hval : forall u, valid (heap w1) u ->
            valid (heap (set_arr w1 s1
              (pre (tab (c * c) (fun k => f (k / c) (k mod c))) arr1 (c * c)))) u).
  { intros u Hvu. apply valid_set_arr_len; [done|].
    apply pre_length; [by rewrite tab_length|fold arr1; nia]. }
  split; [by apply Hval|].
  split; [intros u Hvu; apply Hval; by apply (valid_prefix (heap w))|].
  intros u Hvu Hnu.
  assert (Hn1 : s_ptr u <> s_ptr s1) by (by apply Hfr1).
  split; [|done].
  rewrite arr_of_set_arr_ne by congruence. by apply arr_of_prefix.
Qed.

(** ** SolveQRVec *)

Lemma VreuseAs_spec v r w :
  valid (heap w) (vData (vmat v)) ->
  exists s1 w1,
    VreuseAs v r w = Done (mkVec (mkVector 1 s1) r) w1 /\
    s_len s1 = r /\ valid (heap w1) s1 /\
    heap w `prefix_of` heap w1 /\
    pool w1 = pool w /\ gets w1 = gets w /\ puts w1 = puts w /\
    (forall t, valid (heap w) t -> s_ptr t <> s_ptr (vData (vmat v)) ->
               s_ptr t <> s_ptr s1).
Proof.
  intros Hv. unfold VreuseAs.
  destruct (Nat.leb_spec r (s_cap (vData (vmat v)))) as [Hle|Hgt].
  - exists (reslice (vData (vmat v)) r), w. unfold ret.
    destruct Hv as (H1 & H2 & H3).
    repeat split; try done; simpl; lia.
  - eexists _, _. rewrite (bind_Done _ _ _ _ _ (make_spec _ _)). unfold ret.
    split; [reflexivity|]. simpl.
    split; [done|]. split; [apply valid_fresh|].
    split; [by eexists|]. do 3 (split; [done|]).
    intros t Ht _ E. pose proof (valid_ptr_lt _ _ (length (heap w)) Ht) as Hlt.
    rewrite E in Hlt. specialize (Hlt eq_refl). lia.
Qed.

Lemma flat_prefix h h1 a :
  wf_matrix h a -> h `prefix_of` h1 -> flat h1 a = flat h a.
Proof.
  intros Hwf Hp. unfold flat, mentry. apply tab_ext. intros k _.
  by rewrite (at_val_prefix h h1).
Qed.

Lemma wf_matrix_prefix h h1 a :
  wf_matrix h a -> h `prefix_of` h1 -> wf_matrix h1 a.
Proof.
  intros Hwf Hp. destruct a as [d|t]; simpl in *;
    destruct Hwf as [H1 H2]; (split; [by apply (valid_prefix h)|done]).
Qed.

Section SolveQRVec_proofs.
Context {K : Kernels}.

(** SolveQRVec resizes the destination and hands the two vectors, seen as
    one-column matrices, to SolveQR. *)
Lemma SolveQRVec_eq v q d (trans : bool) (b : operand Vector) w :
  qr q = Some d ->
  SolveQRVec v q trans b w =
  (v1 <- VreuseAs v (if trans then Rows (mat d) else Cols (mat d)) ;;
   me <- SolveQR (vecAsDense v1) q trans
                 (Other (MDense (vecAsDense (read v1 b)))) ;;
   ret (v1, snd me)) w.
Proof.
  intros Hq. unfold SolveQRVec. rewrite Hq.
  rewrite (bind_Done (deref (Some d)) _ w d w eq_refl).
  cbn [Dims fst snd]. by destruct trans.
Qed.

(** The solution is found in the storage of the destination vector: what
    SolveQR writes through the one-column matrix is written to the vector.
    The vector b is another object or the destination itself, which is read
    as it has been resized. *)
Lemma SolveQRVec_core v q d (trans : bool) (b : operand Vector) w :
  wf_QR (heap w) q d ->
  match b with
  | Other a => wf_dense (heap w) (vecAsDense a) /\ off_pool w (vData (vmat a))
  | Self => True
  end ->
  valid (heap w) (vData (vmat v)) ->
  pool_ok w -> off_pool w (Data (mat d)) ->
  off_pool w (vData (vmat v)) ->
  Ormqr_query_ok ->
  let rows := if trans then Rows (mat d) else Cols (mat d) in
  match b with Other a => n a | Self => rows end
    = (if trans then Cols (mat d) else Rows (mat d)) ->
  exists sv w1 (stale : list float) ok X w',
    let v1 := mkVec (mkVector 1 sv) rows in
    VreuseAs v rows w = Done v1 w1 /\
    heap w `prefix_of` heap w1 /\
    length stale = Nat.max (Rows (mat d)) (Cols (mat d)) * 1 /\
    solve_scratch trans (gen_val (heap w) (mat d)) (tau q)
      (mkGeneral (Nat.max (Rows (mat d)) (Cols (mat d))) 1 1
         (pre (flat (heap w1) (MDense (vecAsDense (read v1 b)))) stale
              (n (read v1 b) * 1)))
      = Some (ok, X) /\
    SolveQRVec v q trans b w =
      Done (v1, if ok then None else Some (Condition infinity)) w' /\
    s_len sv = rows /\
    (ok = true -> contents (heap w') sv = take rows X).
Proof.
  intros Hwq Hb Hv Hp Hpd Hpv Hqok rows Hshape.
  destruct (VreuseAs_spec v rows w Hv)
    as (sv & w1 & E1 & Hl1 & Hv1 & Hpre1 & Hpool1 & Hg1 & Hpu1 & Hfr1).
  set (v1 := mkVec (mkVector 1 sv) rows).
  pose proof Hwq as (Hq & [Hvd Hrd] & Ht).
  assert (Hp1 : pool_ok w1).
  { apply (pool_ok_step w); [done..|]. intros t _ Hvt.
    by apply (valid_prefix (heap w)). }
  assert (Ho1 : off_pool w1 sv).
  { unfold off_pool. rewrite Hpool1, Forall_forall. intros t Hin.
    unfold pool_ok, off_pool in Hp, Hpv. rewrite Forall_forall in Hp, Hpv.
    destruct (Hp t Hin) as [_ Hvt]. apply Hfr1; [done|]. by apply Hpv. }
  assert (Hb1 : wf_dense (heap w1) (vecAsDense (read v1 b)) /\
                off_pool w1 (vData (vmat (read v1 b)))).
  { destruct b as [|a]; cbn [read].
    - split; [|done]. split; [done|].
      unfold in_range, v1.
      cbn [vecAsDense mat Rows Cols Stride Data vmat vData n Inc].
      destruct (Nat.eq_dec rows 0) as [E0|E0]; [by left|]. right. right. lia.
    - destruct Hb as [[Hb1 Hb2] Hb3]. split; [|by apply (off_pool_step w)].
      split; [by apply (valid_prefix (heap w))|done]. }
  destruct Hb1 as [Hwb1 Hob1].
  destruct (SolveQR_other (vecAsDense v1) q d trans
              (MDense (vecAsDense (read v1 b))) w1)
    as (sm & xs & stale & ok & X & w' & Hst & _ & _ & _ & Hsol & ES & Hsm & Hlm
        & Hcont & _); try done.
  { split; [done|]. split; [|done]. split; [by apply (valid_prefix (heap w))|done]. }
  { by apply (off_pool_step w). }
  { destruct b; done. }
  cbn [MDims Dims vecAsDense mat Rows Cols fst snd Data] in Hst, Hsol, ES, Hsm,
    Hlm, Hcont.
  fold rows in Hsm, Hlm, Hcont, ES.
  assert (Esm : sm = reslice sv (rows * 1)).
  { apply Hsm. cbn [vmat vData v1]. destruct Hv1 as (? & ? & ?). lia. }
  exists sv, w1, stale, ok, X, w'. cbn zeta. fold v1.
  split; [exact E1|]. split; [done|]. split; [done|]. split.
  { rewrite <- Hsol. f_equal. apply gen_val_eq. symmetry. by apply arr_of_prefix. }
  split.
  { rewrite (SolveQRVec_eq v q d) by done. fold rows.
    rewrite (bind_Done _ _ _ _ _ E1). fold v1.
    by rewrite (bind_Done _ _ _ _ _ ES). }
  split; [done|].
  intros Hok. specialize (Hcont Hok). rewrite Nat.mul_1_r in Hcont.
  rewrite <- Hcont, Esm. unfold contents, reslice, arr_of.
  simpl. by rewrite Hl1, Nat.mul_1_r.
Qed.

(** The same when b is another object than the destination. *)
Lemma SolveQRVec_other v q d (trans : bool) (b : Vector) w :
  wf_QR (heap w) q d -> wf_dense (heap w) (vecAsDense b) ->
  valid (heap w) (vData (vmat v)) ->
  pool_ok w -> off_pool w (Data (mat d)) -> off_pool w (vData (vmat b)) ->
  off_pool w (vData (vmat v)) ->
  Ormqr_query_ok ->
  n b = (if trans then Cols (mat d) else Rows (mat d)) ->
  exists sv (stale : list float) ok X w',
    length stale = Nat.max (Rows (mat d)) (Cols (mat d)) * 1 /\
    solve_scratch trans (gen_val (heap w) (mat d)) (tau q)
      (mkGeneral (Nat.max (Rows (mat d)) (Cols (mat d))) 1 1
         (pre (flat (heap w) (MDense (vecAsDense b))) stale (n b * 1)))
      = Some (ok, X) /\
    SolveQRVec v q trans (Other b) w =
      Done (mkVec (mkVector 1 sv)
                  (if trans then Rows (mat d) else Cols (mat d)),
            if ok then None else Some (Condition infinity)) w' /\
    s_len sv = (if trans then Rows (mat d) else Cols (mat d)) /\
    (ok = true ->
     contents (heap w') sv =
     take (if trans then Rows (mat d) else Cols (mat d)) X).
Proof.
  intros Hwq Hb Hv Hp Hpd Hpb Hpv Hqok Hshape.
  destruct (SolveQRVec_core v q d trans (Other b) w)
    as (sv & w1 & stale & ok & X & w' & E1 & Hpre & Hst & Hsol & E & Hl & Hc);
    try done.
  cbn [read] in Hsol.
  rewrite (flat_prefix (heap w) _ (MDense (vecAsDense b))) in Hsol by done.
  by exists sv, stale, ok, X, w'.
Qed.

End SolveQRVec_proofs.

(** ** The reference kernels and the concrete inputs *)

Lemma ref_Ormqr_query_ok : @Ormqr_query_ok RefKernels.
Proof. intros side trans g tau0 x. vm_compute. discriminate. Qed.

Lemma ref_Geqrf_query_ok : @Geqrf_query_ok RefKernels.
Proof. intros g tau0. vm_compute. discriminate. Qed.

Lemma in_range_intro g :
  (Rows g - 1) * Stride g + Cols g <= s_len (Data g) -> in_range g.
Proof. intros H. right. by right. Qed.

Lemma valid_intro h s b :
  s_ptr s = Some b -> b < length h -> s_len s <= s_cap s ->
  s_cap s <= length (arr_of h s) -> valid h s.
Proof. intros E Hb H1 H2. split; [done|]. split; [done|]. by rewrite E. Qed.

Lemma valid_nil h : valid h nil_slice.
Proof. unfold valid. simpl. lia. Qed.

Ltac concrete :=
  repeat match goal with
  | |- _ /\ _ => split
  | |- valid _ _ =>
      first [apply valid_nil | eapply valid_intro; [reflexivity|simpl; lia..]]
  | |- in_range _ => apply in_range_intro; simpl; lia
  | |- pool_ok _ => apply Forall_nil_2
  | |- off_pool _ _ => apply Forall_nil_2
  | |- wf_QR _ _ _ => unfold wf_QR
  | |- wf_dense _ _ => unfold wf_dense
  | |- wf_matrix _ _ => unfold wf_matrix
  | |- @Ormqr_query_ok _ => apply ref_Ormqr_query_ok
  | |- @Geqrf_query_ok _ => apply ref_Geqrf_query_ok
  | |- _ = _ => reflexivity
  | |- _ <> _ => discriminate
  | |- _ <= _ => simpl; lia
  | |- _ < _ => simpl; lia
  end.

Lemma ex_wf_QR : wf_QR (heap ex_w1) ex_qr ex_F.
Proof. concrete. Qed.

Lemma sing_wf_QR : wf_QR (heap sing_w1) sing_qr (mkDense (mkGeneral 3 2 2 (mkSlice (Some 2) 6 6)) 3 2).
Proof. concrete. Qed.

Lemma tall_wf_QR : wf_QR (heap tall_w1) tall_qr tall_F.
Proof. concrete. Qed.

(** The factorization of the example reproduces A: Q·R, formed by the
    reference matrix product, is within 2^-34 (less than 1e-10) of A. *)
Example ex_reconstruction :
  match @QFromQR RefKernels emptyDense ex_qr ex_w1 with
  | Done mq wq =>
      match RFromQR emptyDense ex_qr wq with
      | Done mr wr =>
          forallb (fun xy => (abs (fst xy - snd xy) <? 0x1p-34)%float)
            (zip (ref_Gemm NoTrans NoTrans f1 (gen_val (heap wr) (mat mq))
                           (gen_val (heap wr) (mat mr)) f0
                           (mkGeneral 3 2 2 (replicate 6 f0)))
                 (contents (heap wr) (Data (mat ex_A))))
      | Panic _ => false
      end
  | Panic _ => false
  end = true.
Proof. vm_compute. reflexivity. Qed.

(** * The claims *)

Section Claims.
Context {K : Kernels}.

Lemma solve_scratch_inv (trans : bool) g tau0 x ok X :
  solve_scratch trans g tau0 x = Some (ok, X) ->
  if trans then
    ok = fst (k_Trtrs Trans (tri_of g) x) /\
    (ok = true ->
     apply_Q Left NoTrans g tau0
       (with_data x (zero_extend (Cols g) (Rows g) (Cols x)
                       (fit (Data x) (snd (k_Trtrs Trans (tri_of g) x)))))
     = Some X) /\
    (ok = false -> X = fit (Data x) (snd (k_Trtrs Trans (tri_of g) x)))
  else
    exists x1,
      apply_Q Left Trans g tau0 x = Some x1 /\
      ok = fst (k_Trtrs NoTrans (tri_of g) (with_data x x1)) /\
      X = fit x1 (snd (k_Trtrs NoTrans (tri_of g) (with_data x x1))).
Proof.
  unfold solve_scratch. destruct trans.
  - destruct (fst (k_Trtrs Trans (tri_of g) x)) eqn:E.
    + destruct (apply_Q _ _ _ _ _) as [x3|] eqn:E3; [|done].
      simpl. intros [= <- <-]. by repeat split.
    + intros [= <- <-]. by repeat split.
  - destruct (apply_Q Left Trans g tau0 x) as [x1|] eqn:E1; [|done].
    simpl. intros [= <- <-]. by exists x1.
Qed.

(** Claim C3.  Factorize panics with ErrShape if and only if m < n, and on
    a matrix with m >= n it returns (it has no error result and makes no
    singularity check); SolveQR on a factorized QR panics with ErrShape if
    and only if the row count of B is not n (transposed) or m (not
    transposed), and returns otherwise.  B is another object or the receiver
    itself; its row count is read when the call starts. *)
Theorem shape_violations :
  (forall q a w,
     Factorize q a w = Panic ErrShape <-> fst (MDims a) < snd (MDims a)) /\
  (forall q a w,
     wf_matrix (heap w) a -> Geqrf_query_ok ->
     snd (MDims a) <= fst (MDims a) ->
     exists q' w', Factorize q a w = Done q' w') /\
  (forall m q d (trans : bool) (b : operand Matrix) w,
     qr q = Some d ->
     (SolveQR m q trans b w = Panic ErrShape <->
      fst (MDims (read (MDense m) b))
        <> (if trans then Cols (mat d) else Rows (mat d)))) /\
  (forall m q d (trans : bool) (b : operand Matrix) w,
     wf_QR (heap w) q d -> wf_matrix (heap w) (read (MDense m) b) ->
     valid (heap w) (Data (mat m)) ->
     pool_ok w -> off_pool w (Data (mat d)) ->
     off_pool w (mdata (read (MDense m) b)) ->
     off_pool w (Data (mat m)) -> Ormqr_query_ok ->
     fst (MDims (read (MDense m) b))
       = (if trans then Cols (mat d) else Rows (mat d)) ->
     exists r w', SolveQR m q trans b w = Done r w').
Proof.
  split; [apply Factorize_ErrShape|].
  split.
  { intros q a w Ha Hq Hmn.
    destruct (Factorize_core q a w Ha Hmn Hq) as (F & t & w' & _ & E & _).
    eauto. }
  split; [intros; by apply SolveQR_ErrShape|].
  intros m q d trans b w Hq Hb Hm Hp Hpd Hpb Hpm Hqok Hshape.
  destruct (SolveQR_core m q d trans b w)
    as (sm & xs & stale & ok & X & w' & _ & _ & _ & _ & _ & ES & _); try done.
  eauto.
Qed.

(** Claim C4.  For every call of SolveQR whose shapes agree, SolveQR
    returns, and its error is Condition(+Inf) exactly when the
    triangular-solve kernel reports failure on the scratch, and nil when
    the kernel reports success.  B is another object or the receiver itself;
    the scratch holds what the copy finds in B (the elements of B when it
    is another object), followed by what the buffer held. *)
Theorem SolveQR_condition m q d (trans : bool) (b : operand Matrix) w :
  wf_QR (heap w) q d -> wf_matrix (heap w) (read (MDense m) b) ->
  valid (heap w) (Data (mat m)) ->
  pool_ok w -> off_pool w (Data (mat d)) ->
  off_pool w (mdata (read (MDense m) b)) ->
  off_pool w (Data (mat m)) ->
  Ormqr_query_ok ->
  fst (MDims (read (MDense m) b))
    = (if trans then Cols (mat d) else Rows (mat d)) ->
  let r := Rows (mat d) in
  let c := Cols (mat d) in
  let bc := snd (MDims (read (MDense m) b)) in
  let g := gen_val (heap w) (mat d) in
  let B := copied (heap w) m (if trans then r else c) b in
  exists m' err w' (stale : list float) (xin : General (list float)),
    let x0 := mkGeneral (Nat.max r c) bc bc (B ++ drop (length B) stale) in
    length stale = Nat.max r c * bc /\
    (if trans then xin = x0
     else exists x1, apply_Q Left Trans g (tau q) x0 = Some x1 /\
                     xin = with_data x0 x1) /\
    SolveQR m q trans b w = Done (m', err) w' /\
    err = if fst (k_Trtrs (if trans then Trans else NoTrans) (tri_of g) xin)
          then None else Some (Condition infinity).
Proof.
  intros Hq Hb Hm Hp Hpd Hpb Hpm Hqok Hshape r c bc g B.
  destruct (SolveQR_core m q d trans b w)
    as (sm & xs & stale & ok & X & w' & Hst & _ & _ & _ & Hsol & ES & _);
    try done.
  fold r c bc B in Hsol, Hst, ES.
  rewrite (pre_app_exact B stale (length B) eq_refl) in Hsol.
  pose proof (solve_scratch_inv _ _ _ _ _ _ Hsol) as Hinv.
  destruct trans.
  - destruct Hinv as (Ho & _). subst ok.
    eexists _, _, w', stale, _. cbn zeta.
    split; [done|]. split; [reflexivity|]. split; [exact ES|]. reflexivity.
  - destruct Hinv as (x1 & Hx1 & Ho & _). subst ok.
    eexists _, _, w', stale, _. cbn zeta.
    split; [done|]. split; [by exists x1|]. split; [exact ES|]. reflexivity.
Qed.

(** Claim C6.  For every QR of an m×n factor, QFromQR makes the receiver
    m×m and leaves in it the identity multiplied on the right, for
    i = 0, 1, ..., min(m,n)-1 in this order, by H = I - tau[i] v vᵗ, where v is
    zero above index i, one at index i and column i of the factor below, H
    being formed by the rank-1-update kernel and the product by the
    matrix-multiply kernel. *)
Theorem QFromQR_reflectors m q d w :
  wf_QR (heap w) q d -> valid (heap w) (Data (mat m)) ->
  s_ptr (Data (mat m)) <> s_ptr (Data (mat d)) ->
  pool_ok w -> off_pool w (Data (mat d)) -> off_pool w (Data (mat m)) ->
  let r := Rows (mat d) in
  let g := gen_val (heap w) (mat d) in
  let v := fun i => tab r (fun j =>
             if j <? i then f0 else if j =? i then f1 else entry g j i) in
  let H := fun i =>
    fit (eye r) (k_Ger (- default f0 (tau q !! i))%float
                       (mkVector 1 (v i)) (mkVector 1 (v i)) (sq r (eye r))) in
  exists m' w',
    QFromQR m q w = Done m' w' /\
    Dims m' = (r, r) /\
    contents (heap w') (Data (mat m')) =
    foldl (fun Q i =>
             fit Q (k_Gemm NoTrans NoTrans f1 (sq r Q) (sq r (H i)) f0 (sq r Q)))
          (eye r) (seq 0 (Nat.min r (Cols (mat d)))).
Proof.
  intros Hq Hm Hsep Hp Hpd Hpm r g v H.
  destruct (QFromQR_core m q d w) as (sm & w' & E & _ & Hc & _); try done.
  eexists _, w'. split; [exact E|]. split; [done|].
  cbn [mat Data]. by rewrite Hc.
Qed.

(** Claim C9.  SolveQRVec resizes the destination vector to m (transposed)
    or n (not transposed) and then returns what SolveQR returns on the two
    vectors reinterpreted as one-column matrices: n rows, one column, the rows
    one increment of the vector apart, on the slice of the vector itself.
    Nothing is copied: entry (i, 0) of the matrix is element i of the vector
    in every store, and between the resize and SolveQR the store does not
    change.  The vector b is another object or the destination itself, which
    is reinterpreted as it has been resized.  With another vector b of the
    right length the call returns, and the solution that SolveQR writes is
    found in the storage of the destination vector; with the destination
    itself as b it returns when the factor is square. *)
Theorem SolveQRVec_delegates v q d (trans : bool) (b : operand Vector) w :
  qr q = Some d ->
  let rows := if trans then Rows (mat d) else Cols (mat d) in
  (exists v1 w1,
     VreuseAs v rows w = Done v1 w1 /\ n v1 = rows /\
     let bv := read v1 b in
     let mv := mkDense (mkGeneral (n v1) 1 (Inc (vmat v1)) (vData (vmat v1)))
                       (n v1) 1 in
     let bm := mkDense (mkGeneral (n bv) 1 (Inc (vmat bv)) (vData (vmat bv)))
                       (n bv) 1 in
     SolveQRVec v q trans b w =
       match SolveQR mv q trans (Other (MDense bm)) w1 with
       | Done me w' => Done (v1, snd me) w'
       | Panic p => Panic p
       end) /\
  (forall (u : Vector) h,
     Dims (vecAsDense u) = (n u, 1) /\
     Data (mat (vecAsDense u)) = vData (vmat u) /\
     forall i, at_val h (MDense (vecAsDense u)) i 0 = vat h u i) /\
  (wf_QR (heap w) q d -> valid (heap w) (vData (vmat v)) ->
   pool_ok w -> off_pool w (Data (mat d)) ->
   off_pool w (vData (vmat v)) -> Ormqr_query_ok ->
   match b with
   | Other a =>
       wf_dense (heap w) (vecAsDense a) -> off_pool w (vData (vmat a)) ->
       n a = (if trans then Cols (mat d) else Rows (mat d)) ->
       exists v' (stale : list float) ok X w',
         solve_scratch trans (gen_val (heap w) (mat d)) (tau q)
           (mkGeneral (Nat.max (Rows (mat d)) (Cols (mat d))) 1 1
              (flat (heap w) (MDense (vecAsDense a)) ++ drop (n a) stale))
           = Some (ok, X) /\
         SolveQRVec v q trans (Other a) w =
           Done (v', if ok then None else Some (Condition infinity)) w' /\
         n v' = rows /\
         (ok = true -> contents (heap w') (vData (vmat v')) = take rows X)
   | Self =>
       Rows (mat d) = Cols (mat d) ->
       exists v' e w',
         SolveQRVec v q trans Self w = Done (v', e) w' /\ n v' = rows
   end).
Proof.
  intros Hq rows. split; [|split].
  - assert (Hv : exists v1 w1, VreuseAs v rows w = Done v1 w1 /\ n v1 = rows).
    { unfold VreuseAs. destruct (rows <=? s_cap (vData (vmat v))).
      - by eexists _, _.
      - rewrite (bind_Done _ _ _ _ _ (make_spec _ _)). by eexists _, _. }
    destruct Hv as (v1 & w1 & E1 & Hn).
    exists v1, w1. do 2 (split; [done|]). cbn zeta.
    rewrite (SolveQRVec_eq v q d) by done. fold rows.
    rewrite (bind_Done _ _ _ _ _ E1). unfold bind.
    change (mkDense (mkGeneral (n v1) 1 (Inc (vmat v1)) (vData (vmat v1)))
                    (n v1) 1) with (vecAsDense v1).
    change (mkDense (mkGeneral (n (read v1 b)) 1 (Inc (vmat (read v1 b)))
                               (vData (vmat (read v1 b)))) (n (read v1 b)) 1)
      with (vecAsDense (read v1 b)).
    by destruct (SolveQR _ _ _ _ _).
  - intros u h. split; [done|]. split; [done|]. intros i.
    unfold vat. cbn [at_val vecAsDense mat Stride Data].
    by rewrite Nat.add_0_r.
  - intros Hwq Hv Hp Hpd Hpv Hqok. destruct b as [|a].
    + intros Hsq.
      destruct (SolveQRVec_core v q d trans Self w)
        as (sv & w1 & stale & ok & X & w' & _ & _ & _ & _ & E & _); try done.
      { cbn zeta. destruct trans; congruence. }
      eexists _, _, w'. split; [exact E|done].
    + intros Hb Hpb Hshape.
      destruct (SolveQRVec_other v q d trans a w)
        as (sv & stale & ok & X & w' & _ & Hsol & E & Hl & Hc); try done.
      fold rows in E, Hl, Hc.
      exists (mkVec (mkVector 1 sv) rows), stale, ok, X, w'.
      split; [|done].
      rewrite <- Hsol. do 2 f_equal.
      rewrite Nat.mul_1_r. symmetry. apply pre_app_exact.
      rewrite flat_length. cbn [MDims Dims vecAsDense mat Rows Cols fst snd]. lia.
Qed.

(** Claim C10.  For every m×n matrix a with m >= n, Factorize leaves every
    backing array that existed as it was, the storage of a among them: the
    factor is computed in a new array that the QR alone holds. *)
Theorem Factorize_frame q a w :
  wf_matrix (heap w) a -> snd (MDims a) <= fst (MDims a) ->
  Geqrf_query_ok ->
  exists q' d w',
    Factorize q a w = Done q' w' /\ qr q' = Some d /\
    heap w `prefix_of` heap w' /\
    arr_of (heap w') (mdata a) = arr_of (heap w) (mdata a) /\
    flat (heap w') a = flat (heap w) a /\
    s_ptr (Data (mat d)) = Some (length (heap w)) /\
    s_ptr (Data (mat d)) <> s_ptr (mdata a).
Proof.
  intros Ha Hmn Hq.
  destruct (Factorize_core q a w Ha Hmn Hq)
    as (F & t & w' & _ & E & Hh & _).
  assert (Hp : heap w `prefix_of` heap w') by (rewrite Hh; by eexists).
  pose proof (wf_matrix_valid _ _ Ha) as Hva.
  eexists _, _, w'. split; [exact E|]. split; [reflexivity|].
  split; [done|]. split; [by apply arr_of_prefix|].
  split; [by apply flat_prefix|]. split; [done|].
  cbn [mat Data s_ptr]. intros Heq. symmetry in Heq.
  pose proof (valid_ptr_lt _ _ _ Hva Heq). lia.
Qed.

End Claims.

(** Property X20.  For every call of SolveQR whose shapes agree and whose B
    is another object than the receiver: B is first copied to the top of the
    scratch, which is what getWorkspace gives for max(m,n) × columns(B)
    elements: the first buffer of the pool that is large enough, or a new
    array; below B it shows what it held.  The scratch is not the storage of
    any slice of the store that is off the pool (B, the factor and the
    receiver among them), nor of the resized receiver.  The kernels then get
    the scratch.  Not transposed: the transpose of the orthogonal factor is
    applied on the left, then the triangular solve with R runs in place.
    Transposed: the triangular solve with Rᵗ runs in place, the rows from n
    on are set to zero, and the orthogonal factor (not its transpose) is
    applied on the left.  When the call returns the scratch holds what the
    last kernel left, and on success the receiver is
    (m if trans else n) × columns(B) and holds the first rows of it. *)
Theorem SolveQR_algorithm {K : Kernels} m q d (trans : bool) (b : Matrix) w :
  wf_QR (heap w) q d -> wf_matrix (heap w) b ->
  valid (heap w) (Data (mat m)) ->
  pool_ok w -> off_pool w (Data (mat d)) -> off_pool w (mdata b) ->
  off_pool w (Data (mat m)) ->
  Ormqr_query_ok ->
  fst (MDims b) = (if trans then Cols (mat d) else Rows (mat d)) ->
  let r := Rows (mat d) in
  let c := Cols (mat d) in
  let bc := snd (MDims b) in
  let g := gen_val (heap w) (mat d) in
  let rows := if trans then r else c in
  let need := Nat.max r c * bc in
  let len := length (heap w) +
             (if rows * bc <=? s_cap (Data (mat m)) then 0 else 1) in
  let xs := fst (taken need (pool w) len) in
  let stale := held need (pool w) (heap w) in
  exists sm ok X w',
    let x0 := mkGeneral (Nat.max r c) bc bc
                (flat (heap w) b ++ drop (fst (MDims b) * bc) stale) in
    length stale = need /\ s_len xs = need /\
    (forall t, valid (heap w) t -> off_pool w t -> s_ptr t <> s_ptr xs) /\
    s_ptr xs <> s_ptr sm /\
    (if trans then
       ok = fst (k_Trtrs Trans (tri_of g) x0) /\
       (ok = true ->
        apply_Q Left NoTrans g (tau q)
          (with_data x0 (zero_extend c r bc
                           (fit (Data x0) (snd (k_Trtrs Trans (tri_of g) x0)))))
        = Some X) /\
       (ok = false -> X = fit (Data x0) (snd (k_Trtrs Trans (tri_of g) x0)))
     else
       exists x1,
         apply_Q Left Trans g (tau q) x0 = Some x1 /\
         ok = fst (k_Trtrs NoTrans (tri_of g) (with_data x0 x1)) /\
         X = fit x1 (snd (k_Trtrs NoTrans (tri_of g) (with_data x0 x1)))) /\
    SolveQR m q trans (Other b) w =
      Done (mkDense (mkGeneral rows bc bc sm) rows bc,
            if ok then None else Some (Condition infinity)) w' /\
    valid (heap w') xs /\ contents (heap w') xs = X /\
    (ok = true -> contents (heap w') sm = take (rows * bc) X).
Proof.
  intros Hq Hb Hm Hp Hpd Hpb Hpm Hqok Hshape r c bc g rows need len xs stale.
  destruct (SolveQR_other m q d trans b w)
    as (sm & xs' & stale' & ok & X & w' & Hst & _ & _ & H3 & Hsol & ES & _ & _
        & Hcont & _ & _ & Hfr & Hlx & Hcx & Exs & _ & Est); try done.
  cbn zeta in Exs, Est. fold r c bc rows need len in Exs, Est.
  fold xs in Exs. fold stale in Est. subst xs' stale'.
  destruct Hfr as (_ & _ & _ & _ & Hvx & _ & _ & _ & _ & Hind).
  exists sm, ok, X, w'. cbn zeta.
  assert (Ex : pre (flat (heap w) b) stale (fst (MDims b) * snd (MDims b))
               = flat (heap w) b ++ drop (fst (MDims b) * bc) stale).
  { apply pre_app_exact, flat_length. }
  rewrite Ex in Hsol.
  split; [done|]. split; [done|]. split; [done|]. split; [done|].
  split; [|done].
  pose proof (solve_scratch_inv _ _ _ _ _ _ Hsol) as Hinv.
  destruct trans; done.
Qed.

(** Property X5.  QFromQR gives the same matrix whatever the receiver held and
    whichever storage it had. *)
Lemma QFromQR_any_receiver {K : Kernels} m1 m2 q d w :
  wf_QR (heap w) q d -> pool_ok w -> off_pool w (Data (mat d)) ->
  valid (heap w) (Data (mat m1)) -> valid (heap w) (Data (mat m2)) ->
  s_ptr (Data (mat m1)) <> s_ptr (Data (mat d)) ->
  s_ptr (Data (mat m2)) <> s_ptr (Data (mat d)) ->
  off_pool w (Data (mat m1)) -> off_pool w (Data (mat m2)) ->
  exists r1 w1 r2 w2,
    QFromQR m1 q w = Done r1 w1 /\ QFromQR m2 q w = Done r2 w2 /\
    Dims r1 = Dims r2 /\
    contents (heap w1) (Data (mat r1)) = contents (heap w2) (Data (mat r2)).
Proof.
  intros Hq Hp Hpd Hv1 Hv2 Hs1 Hs2 Ho1 Ho2.
  destruct (QFromQR_core m1 q d w) as (s1 & w1 & E1 & _ & Hc1 & _); try done.
  destruct (QFromQR_core m2 q d w) as (s2 & w2 & E2 & _ & Hc2 & _); try done.
  eexists _, w1, _, w2. split; [exact E1|]. split; [exact E2|].
  split; [done|]. cbn [mat Data]. by rewrite Hc1, Hc2.
Qed.

(** ** The claims on the concrete inputs *)

(** Least squares on the example: A X = (1, 2, 4)ᵗ has the solution
    (2/3, 1/12)ᵗ of the normal equations. *)
Example ex_least_squares :
  match @SolveQR RefKernels emptyDense ex_qr false (Other (MDense ex_B)) ex_w1 with
  | Done (m', None) w' =>
      forallb (fun xy => (abs (fst xy - snd xy) <? 0x1p-34)%float)
        (zip (contents (heap w') (Data (mat m')))
             [(2 / 3)%float; (1 / 12)%float])
  | _ => false
  end = true.
Proof. vm_compute. reflexivity. Qed.

(** Minimum norm on the example: Aᵗ X = (1, 2)ᵗ has the solution
    (5/6, 1/3, -1/6)ᵗ of least norm. *)
Example ex_minimum_norm :
  match @SolveQR RefKernels emptyDense ex_qr true (Other (MDense ex_Bt)) ex_w1 with
  | Done (m', None) w' =>
      forallb (fun xy => (abs (fst xy - snd xy) <? 0x1p-34)%float)
        (zip (contents (heap w') (Data (mat m')))
             [(5 / 6)%float; (1 / 3)%float; (- (1 / 6))%float])
  | _ => false
  end = true.
Proof. vm_compute. reflexivity. Qed.

(** The vector solver leaves the same solution in the storage of the
    destination vector. *)
Example ex_vector_solve :
  match @SolveQRVec RefKernels ex_v ex_qr false (Other ex_b) ex_w1,
        @SolveQR RefKernels emptyDense ex_qr false (Other (MDense ex_B)) ex_w1 with
  | Done (v', None) w', Done (m', None) w'' =>
      contents (heap w') (vData (vmat v')) = contents (heap w'') (Data (mat m'))
  | _, _ => False
  end.
Proof. vm_compute. reflexivity. Qed.

(** Factorize on a 2×5 matrix panics with ErrShape. *)
Example ex_wide_panics :
  @Factorize RefKernels (mkQR None [])
    (MDense (mkDense (mkGeneral 2 5 5 (mkSlice (Some 0) 10 10)) 2 5))
    (mkWorld [replicate 10 f1] [] 0 0) = Panic ErrShape.
Proof. reflexivity. Qed.

Lemma SolveQR_algorithm_witness :
  (wf_QR (heap ex_w1) ex_qr ex_F /\ wf_matrix (heap ex_w1) (MDense ex_B) /\
   valid (heap ex_w1) (Data (mat emptyDense)) /\ pool_ok ex_w1 /\
   off_pool ex_w1 (Data (mat ex_F)) /\ off_pool ex_w1 (mdata (MDense ex_B)) /\
   off_pool ex_w1 (Data (mat emptyDense)) /\ @Ormqr_query_ok RefKernels /\
   fst (MDims (MDense ex_B)) = Rows (mat ex_F)) /\
  exists m' e w',
    @SolveQR RefKernels emptyDense ex_qr false (Other (MDense ex_B)) ex_w1
    = Done (m', e) w'.
Proof.
  assert (H : wf_QR (heap ex_w1) ex_qr ex_F /\ wf_matrix (heap ex_w1) (MDense ex_B) /\
   valid (heap ex_w1) (Data (mat emptyDense)) /\ pool_ok ex_w1 /\
   off_pool ex_w1 (Data (mat ex_F)) /\ off_pool ex_w1 (mdata (MDense ex_B)) /\
   off_pool ex_w1 (Data (mat emptyDense)) /\ @Ormqr_query_ok RefKernels /\
   fst (MDims (MDense ex_B)) = Rows (mat ex_F)) by concrete.
  split; [exact H|].
  destruct H as (H1 & H2 & H3 & H4 & H5 & H6 & H7 & H8 & H9).
  destruct (@SolveQR_algorithm RefKernels emptyDense ex_qr ex_F false
              (MDense ex_B) ex_w1 H1 H2 H3 H4 H5 H6 H7 H8 H9)
    as (sm & ok & X & w' & _ & _ & _ & _ & _ & E & _).
  eexists _, _, w'. exact E.
Defined.

Lemma shape_violations_witness :
  (wf_matrix (heap ex_w0) (MDense ex_A) /\ @Geqrf_query_ok RefKernels /\
   snd (MDims (MDense ex_A)) <= fst (MDims (MDense ex_A)) /\
   qr ex_qr = Some ex_F /\
   wf_QR (heap ex_w1) ex_qr ex_F /\ wf_matrix (heap ex_w1) (MDense ex_Bt) /\
   valid (heap ex_w1) (Data (mat emptyDense)) /\ pool_ok ex_w1 /\
   off_pool ex_w1 (Data (mat ex_F)) /\ off_pool ex_w1 (mdata (MDense ex_Bt)) /\
   off_pool ex_w1 (Data (mat emptyDense)) /\ @Ormqr_query_ok RefKernels /\
   fst (MDims (MDense ex_Bt)) = Cols (mat ex_F)) /\
  (exists q' w',
     @Factorize RefKernels (mkQR None []) (MDense ex_A) ex_w0 = Done q' w') /\
  (@SolveQR RefKernels emptyDense ex_qr false (Other (MDense ex_Bt)) ex_w1
   = Panic ErrShape <-> fst (MDims (MDense ex_Bt)) <> Rows (mat ex_F)) /\
  (exists r w',
     @SolveQR RefKernels emptyDense ex_qr true (Other (MDense ex_Bt)) ex_w1 = Done r w').
Proof.
  assert (H : wf_matrix (heap ex_w0) (MDense ex_A) /\ @Geqrf_query_ok RefKernels /\
   snd (MDims (MDense ex_A)) <= fst (MDims (MDense ex_A)) /\
   qr ex_qr = Some ex_F /\
   wf_QR (heap ex_w1) ex_qr ex_F /\ wf_matrix (heap ex_w1) (MDense ex_Bt) /\
   valid (heap ex_w1) (Data (mat emptyDense)) /\ pool_ok ex_w1 /\
   off_pool ex_w1 (Data (mat ex_F)) /\ off_pool ex_w1 (mdata (MDense ex_Bt)) /\
   off_pool ex_w1 (Data (mat emptyDense)) /\ @Ormqr_query_ok RefKernels /\
   fst (MDims (MDense ex_Bt)) = Cols (mat ex_F)) by concrete.
  split; [exact H|].
  destruct H as (H1 & H2 & H3 & H4 & G1 & G2 & G3 & G4 & G5 & G6 & G7 & G8 & G9).
  destruct (@shape_violations RefKernels) as (_ & HF & HS & HD).
  split; [|split].
  - exact (HF (mkQR None []) (MDense ex_A) ex_w0 H1 H2 H3).
  - exact (HS emptyDense ex_qr ex_F false (Other (MDense ex_Bt)) ex_w1 H4).
  - exact (HD emptyDense ex_qr ex_F true (Other (MDense ex_Bt)) ex_w1
              G1 G2 G3 G4 G5 G6 G7 G8 G9).
Defined.

Lemma SolveQR_condition_witness :
  (wf_QR (heap sing_w1) sing_qr
         (mkDense (mkGeneral 3 2 2 (mkSlice (Some 2) 6 6)) 3 2) /\
   wf_matrix (heap sing_w1) (MDense ex_B) /\
   valid (heap sing_w1) (Data (mat emptyDense)) /\ pool_ok sing_w1 /\
   off_pool sing_w1 (mkSlice (Some 2) 6 6) /\
   off_pool sing_w1 (mdata (MDense ex_B)) /\
   off_pool sing_w1 (Data (mat emptyDense)) /\ @Ormqr_query_ok RefKernels /\
   fst (MDims (MDense ex_B)) = 3) /\
  exists m' e w',
    @SolveQR RefKernels emptyDense sing_qr false (Other (MDense ex_B)) sing_w1
    = Done (m', e) w'.
Proof.
  assert (H : wf_QR (heap sing_w1) sing_qr
         (mkDense (mkGeneral 3 2 2 (mkSlice (Some 2) 6 6)) 3 2) /\
   wf_matrix (heap sing_w1) (MDense ex_B) /\
   valid (heap sing_w1) (Data (mat emptyDense)) /\ pool_ok sing_w1 /\
   off_pool sing_w1 (mkSlice (Some 2) 6 6) /\
   off_pool sing_w1 (mdata (MDense ex_B)) /\
   off_pool sing_w1 (Data (mat emptyDense)) /\ @Ormqr_query_ok RefKernels /\
   fst (MDims (MDense ex_B)) = 3) by concrete.
  split; [exact H|].
  destruct H as (H1 & H2 & H3 & H4 & H5 & H6 & H7 & H8 & H9).
  destruct (@SolveQR_condition RefKernels emptyDense sing_qr _ false
              (Other (MDense ex_B)) sing_w1 H1 H2 H3 H4 H5 H6 H7 H8 H9)
    as (m' & e & w' & stale & xin & _ & _ & E & _).
  eexists _, _, w'. exact E.
Defined.

Lemma QFromQR_reflectors_witness :
  (wf_QR (heap ex_w1) ex_qr ex_F /\
   valid (heap ex_w1) (Data (mat emptyDense)) /\
   s_ptr (Data (mat emptyDense)) <> s_ptr (Data (mat ex_F)) /\
   pool_ok ex_w1 /\ off_pool ex_w1 (Data (mat ex_F)) /\
   off_pool ex_w1 (Data (mat emptyDense))) /\
  exists m' w',
    @QFromQR RefKernels emptyDense ex_qr ex_w1 = Done m' w' /\ Dims m' = (3, 3).
Proof.
  assert (H : wf_QR (heap ex_w1) ex_qr ex_F /\
   valid (heap ex_w1) (Data (mat emptyDense)) /\
   s_ptr (Data (mat emptyDense)) <> s_ptr (Data (mat ex_F)) /\
   pool_ok ex_w1 /\ off_pool ex_w1 (Data (mat ex_F)) /\
   off_pool ex_w1 (Data (mat emptyDense))) by concrete.
  split; [exact H|]. destruct H as (H1 & H2 & H3 & H4 & H5 & H6).
  destruct (@QFromQR_reflectors RefKernels emptyDense ex_qr ex_F ex_w1
              H1 H2 H3 H4 H5 H6) as (m' & w' & E & Hd & _).
  exists m', w'. split; [exact E|exact Hd].
Defined.

Lemma SolveQRVec_delegates_witness :
  (qr ex_qr = Some ex_F /\
   wf_QR (heap ex_w1) ex_qr ex_F /\ valid (heap ex_w1) (vData (vmat ex_v)) /\
   pool_ok ex_w1 /\ off_pool ex_w1 (Data (mat ex_F)) /\
   off_pool ex_w1 (vData (vmat ex_v)) /\ @Ormqr_query_ok RefKernels /\
   wf_dense (heap ex_w1) (vecAsDense ex_b) /\
   off_pool ex_w1 (vData (vmat ex_b)) /\ n ex_b = Rows (mat ex_F)) /\
  (exists v1 w1,
     VreuseAs ex_v 2 ex_w1 = Done v1 w1 /\
     @SolveQRVec RefKernels ex_v ex_qr false (Other ex_b) ex_w1 =
       match @SolveQR RefKernels
               (mkDense (mkGeneral (n v1) 1 (Inc (vmat v1)) (vData (vmat v1)))
                        (n v1) 1) ex_qr false
               (Other (MDense (mkDense (mkGeneral 3 1 1 (mkSlice (Some 1) 3 3))
                                       3 1))) w1 with
       | Done me w' => Done (v1, snd me) w'
       | Panic p => Panic p
       end) /\
  (exists v' e w',
     @SolveQRVec RefKernels ex_v ex_qr false (Other ex_b) ex_w1
     = Done (v', e) w' /\ n v' = 2).
Proof.
  assert (H : qr ex_qr = Some ex_F /\
   wf_QR (heap ex_w1) ex_qr ex_F /\ valid (heap ex_w1) (vData (vmat ex_v)) /\
   pool_ok ex_w1 /\ off_pool ex_w1 (Data (mat ex_F)) /\
   off_pool ex_w1 (vData (vmat ex_v)) /\ @Ormqr_query_ok RefKernels /\
   wf_dense (heap ex_w1) (vecAsDense ex_b) /\
   off_pool ex_w1 (vData (vmat ex_b)) /\ n ex_b = Rows (mat ex_F)) by concrete.
  split; [exact H|].
  destruct H as (H0 & H1 & H2 & H3 & H4 & H5 & H6 & H7 & H8 & H9).
  destruct (@SolveQRVec_delegates RefKernels ex_v ex_qr ex_F false (Other ex_b)
              ex_w1 H0) as ((v1 & w1 & E1 & _ & E2) & _ & HS).
  split.
  - exists v1, w1. split; [exact E1|exact E2].
  - destruct (HS H1 H2 H3 H4 H5 H6 H7 H8 H9)
      as (v' & stale & ok & X & w' & _ & E & Hn & _).
    eexists v', _, w'. split; [exact E|exact Hn].
Defined.

Lemma Factorize_frame_witness :
  (wf_matrix (heap ex_w0) (MDense ex_A) /\
   snd (MDims (MDense ex_A)) <= fst (MDims (MDense ex_A)) /\
   @Geqrf_query_ok RefKernels) /\
  exists q' w',
    @Factorize RefKernels (mkQR None []) (MDense ex_A) ex_w0 = Done q' w' /\
    arr_of (heap w') (Data (mat ex_A)) = arr_of (heap ex_w0) (Data (mat ex_A)).
Proof.
  assert (H : wf_matrix (heap ex_w0) (MDense ex_A) /\
   snd (MDims (MDense ex_A)) <= fst (MDims (MDense ex_A)) /\
   @Geqrf_query_ok RefKernels) by concrete.
  split; [exact H|]. destruct H as (H1 & H2 & H3).
  destruct (@Factorize_frame RefKernels (mkQR None []) (MDense ex_A) ex_w0
              H1 H2 H3) as (q' & d & w' & E & _ & _ & Ha & _).
  exists q', w'. split; [exact E|exact Ha].
Defined.

(** ** Where the code departs from the claims *)


(** Claim C5 at a 2×1 factor and a 2×1 destination that holds (9, 9)ᵗ:
    RFromQR keeps the storage of the destination and leaves 9 at entry
    (1, 0), below the triangle, where the upper trapezoidal matrix has 0. *)
Theorem RFromQR_stale_below_triangle :
  exists m' w',
    RFromQR tall_dst tall_qr tall_w1 = Done m' w' /\
    Dims m' = (2, 1) /\
    s_ptr (Data (mat m')) = s_ptr (Data (mat tall_dst)) /\
    at_val (heap w') (MDense m') 0 0 = Some (-5)%float /\
    at_val (heap w') (MDense m') 1 0 = Some 9%float.
Proof. eexists _, _. split; [vm_compute; reflexivity|]. by vm_compute. Qed.

(** Claim C7 at the same input: RFromQR into the destination that holds
    (9, 9)ᵗ gives 9 at entry (1, 0), and into a fresh destination it gives 0;
    a second call into the first destination gives 9 again. *)
Theorem RFromQR_reuse_differs :
  exists m1 w1 m2 w2 m3 w3,
    RFromQR tall_dst tall_qr tall_w1 = Done m1 w1 /\
    RFromQR emptyDense tall_qr tall_w1 = Done m2 w2 /\
    RFromQR m1 tall_qr w1 = Done m3 w3 /\
    at_val (heap w1) (MDense m1) 1 0 = Some 9%float /\
    at_val (heap w2) (MDense m2) 1 0 = Some 0%float /\
    at_val (heap w3) (MDense m3) 1 0 = Some 9%float.
Proof.
  eexists _, _, _, _, _, _.
  split; [vm_compute; reflexivity|].
  split; [vm_compute; reflexivity|].
  split; [vm_compute; reflexivity|]. by vm_compute.
Qed.

(** Claim C8 at two inputs: QFromQR takes a buffer from the pool and gives
    none back; SolveQR on a factor whose R is singular takes a buffer,
    returns Condition(+Inf) and gives none back. *)
Theorem pool_buffers_not_released :
  (exists m' w',
     @QFromQR RefKernels emptyDense ex_qr ex_w1 = Done m' w' /\
     gets w' = 1 /\ puts w' = 0) /\
  (exists m' w',
     @SolveQR RefKernels emptyDense sing_qr false (Other (MDense ex_B)) sing_w1
     = Done (m', Some (Condition infinity)) w' /\
     gets w' = 1 /\ puts w' = 0).
Proof.
  split; eexists _, _; (split; [vm_compute; reflexivity|]); by vm_compute.
Qed.

(** * Further properties of qr.go *)

Lemma sl_get_contents h s k :
  k < s_len s -> sl_get h s k = contents h s !! k.
Proof.
  intros Hk. unfold sl_get, contents.
  destruct (Nat.ltb_spec k (s_len s)); [|lia]. by rewrite lookup_take_lt.
Qed.

Lemma reslice_len s : reslice s (s_len s) = s.
Proof. by destruct s. Qed.

Lemma contents_length h s : valid h s -> length (contents h s) = s_len s.
Proof.
  intros Hv. pose proof (valid_arr_len _ _ Hv). unfold contents.
  rewrite length_take. lia.
Qed.

Lemma pool_ok_sub w w' :
  pool_ok w -> (forall t, valid (heap w) t -> valid (heap w') t) ->
  (forall p, p ∈ pool w' -> p ∈ pool w) -> pool_ok w'.
Proof.
  unfold pool_ok. rewrite !Forall_forall. intros Hp Hv Hs p Hin.
  destruct (Hp p (Hs p Hin)) as [H1 H2]. split; [done|by apply Hv].
Qed.

Lemma off_pool_sub w w' t :
  off_pool w t -> (forall p, p ∈ pool w' -> p ∈ pool w) -> off_pool w' t.
Proof.
  unfold off_pool. rewrite !Forall_forall. intros Hp Hs p Hin.
  by apply Hp, Hs.
Qed.

Lemma wf_QR_step h h' q d :
  wf_QR h q d -> (forall t, valid h t -> valid h' t) -> wf_QR h' q d.
Proof.
  intros (Hq & [Hv Hr] & Ht) Hval. split; [done|]. split; [|done].
  split; [by apply Hval|done].
Qed.

Lemma gen_val_contents h h' g :
  contents h' (Data g) = contents h (Data g) -> gen_val h' g = gen_val h g.
Proof. intros E. unfold gen_val. by rewrite E. Qed.

Section More.
Context {K : Kernels}.

(** Property X1.  RFromQR into a destination whose storage is too small for
    m×n, the zero value among them, or from a square factor: the destination
    becomes exactly the m×n upper trapezoidal matrix: the entries of the
    factor on and above the diagonal, zero below it. *)
Theorem RFromQR_upper_trapezoidal m q d w :
  wf_QR (heap w) q d -> Cols (mat d) <= Rows (mat d) ->
  valid (heap w) (Data (mat m)) ->
  s_ptr (Data (mat m)) <> s_ptr (Data (mat d)) ->
  s_cap (Data (mat m)) < Rows (mat d) * Cols (mat d) \/
    Rows (mat d) = Cols (mat d) ->
  exists m' w',
    RFromQR m q w = Done m' w' /\
    Dims m' = (Rows (mat d), Cols (mat d)) /\
    forall i j, i < Rows (mat d) -> j < Cols (mat d) ->
      at_val (heap w') (MDense m') i j =
      Some (if j <? i then f0 else entry (gen_val (heap w) (mat d)) i j).
Proof.
  intros Hq Hcr Hvm Hsep Hcase.
  destruct (RFromQR_core m q d w Hq Hcr Hvm Hsep)
    as (sm & w' & E & Hl & Htop & Hbot & _).
  set (r := Rows (mat d)) in *. set (c := Cols (mat d)) in *.
  eexists _, w'. split; [exact E|]. split; [done|].
  intros i j Hi Hj. cbn [at_val mat Stride Data].
  rewrite sl_get_contents by nia.
  destruct (decide (i < c)) as [Hic|Hic].
  - by apply Htop.
  - destruct Hcase as [Hcap|Hsq]; [|lia].
    rewrite Hbot by nia.
    destruct (Nat.leb_spec (r * c) (s_cap (Data (mat m)))); [lia|].
    destruct (Nat.ltb_spec j i); [done|lia].
Qed.

(** Property X2.  RFromQR into a destination whose storage is large enough for
    m×n: the storage is kept, and the rows from n on, which the copy of the
    n×n triangle does not reach, hold the elements the storage held. *)
Theorem RFromQR_rows_below_kept m q d w :
  wf_QR (heap w) q d -> Cols (mat d) <= Rows (mat d) ->
  valid (heap w) (Data (mat m)) ->
  s_ptr (Data (mat m)) <> s_ptr (Data (mat d)) ->
  Rows (mat d) * Cols (mat d) <= s_cap (Data (mat m)) ->
  exists m' w',
    RFromQR m q w = Done m' w' /\
    s_ptr (Data (mat m')) = s_ptr (Data (mat m)) /\
    forall i j, Cols (mat d) <= i -> i < Rows (mat d) -> j < Cols (mat d) ->
      at_val (heap w') (MDense m') i j =
      arr_of (heap w) (Data (mat m)) !! (i * Cols (mat d) + j).
Proof.
  intros Hq Hcr Hvm Hsep Hcap.
  destruct (RFromQR_core m q d w Hq Hcr Hvm Hsep)
    as (sm & w' & E & Hl & _ & Hbot & _ & _ & _ & _ & Hsm & _).
  set (r := Rows (mat d)) in *. set (c := Cols (mat d)) in *.
  eexists _, w'. split; [exact E|]. cbn [mat Data].
  split; [by rewrite (Hsm Hcap)|].
  intros i j Hi1 Hi2 Hj. cbn [at_val mat Stride Data].
  rewrite sl_get_contents by nia. rewrite Hbot by nia.
  by destruct (Nat.leb_spec (r * c) (s_cap (Data (mat m)))); [|lia].
Qed.

(** Property X3.  RFromQR a second time into its own result: the destination
    is the same matrix on the same storage with the same elements; neither
    call touches the pool. *)
Theorem RFromQR_twice m q d w :
  wf_QR (heap w) q d -> Cols (mat d) <= Rows (mat d) ->
  valid (heap w) (Data (mat m)) ->
  s_ptr (Data (mat m)) <> s_ptr (Data (mat d)) ->
  exists m1 w1 w2,
    RFromQR m q w = Done m1 w1 /\ RFromQR m1 q w1 = Done m1 w2 /\
    contents (heap w2) (Data (mat m1)) = contents (heap w1) (Data (mat m1)) /\
    pool w2 = pool w /\ gets w2 = gets w /\ puts w2 = puts w.
Proof.
  intros Hq Hcr Hvm Hsep.
  destruct (RFromQR_core m q d w Hq Hcr Hvm Hsep)
    as (sm & w1 & E1 & Hl1 & Htop1 & Hbot1 & Hd1 & Hp1 & Hg1 & Hu1 & _ & Hv1
        & Hval1 & Hfr1).
  set (r := Rows (mat d)) in *. set (c := Cols (mat d)) in *.
  set (m1 := mkDense (mkGeneral r c c sm) r c) in *.
  pose proof Hq as (_ & [Hvd _] & _).
  destruct (Hfr1 (Data (mat d)) Hvd) as [_ Hnd]; [congruence|].
  destruct (RFromQR_core m1 q d w1) as (sm2 & w2 & E2 & Hl2 & Htop2 & Hbot2
        & Hd2 & Hp2 & Hg2 & Hu2 & Hsm2 & Hv2 & _); try done.
  { by apply (wf_QR_step (heap w)). }
  fold r c in E2, Hl2, Htop2, Hbot2, Hsm2.
  unfold m1 in Hbot2, Hsm2. cbn [mat Data] in Hbot2, Hsm2.
  assert (Hcap : r * c <= s_cap sm) by (destruct Hv1 as (? & ? & ?); lia).
  assert (Es : sm2 = sm).
  { rewrite (Hsm2 Hcap), <- Hl1. apply reslice_len. }
  subst sm2. exists m1, w1, w2. split; [exact E1|]. split; [exact E2|].
  split; [|split; [congruence|split; congruence]].
  unfold m1. cbn [mat Data]. apply list_eq. intros k.
  destruct (decide (k < r * c)) as [Hk|Hk]; cycle 1.
  { rewrite !lookup_ge_None_2; [done|rewrite contents_length by done; lia..]. }
  destruct (decide (k < c * c)) as [Hkc|Hkc].
  - assert (Hc0 : 0 < c) by nia.
    assert (Ek : k = k / c * c + k mod c)
      by (rewrite (Nat.div_mod_eq k c) at 1; lia).
    assert (Hi : k / c < c) by (apply Nat.Div0.div_lt_upper_bound; lia).
    assert (Hj : k mod c < c) by (apply Nat.mod_upper_bound; lia).
    rewrite Ek, Htop1, Htop2 by done.
    by rewrite (gen_val_contents (heap w) (heap w1)).
  - rewrite Hbot2 by lia.
    destruct (Nat.leb_spec (r * c) (s_cap sm)); [|lia].
    unfold contents. rewrite lookup_take_lt by lia. done.
Qed.

(** Property X4.  RFromQR writes only the storage of its destination: every
    other slice of the store keeps its backing array, the factor among them,
    and the workspace pool is not used. *)
Theorem RFromQR_frame m q d w :
  wf_QR (heap w) q d -> Cols (mat d) <= Rows (mat d) ->
  valid (heap w) (Data (mat m)) ->
  s_ptr (Data (mat m)) <> s_ptr (Data (mat d)) ->
  exists m' w',
    RFromQR m q w = Done m' w' /\
    (forall t, valid (heap w) t -> s_ptr t <> s_ptr (Data (mat m)) ->
       arr_of (heap w') t = arr_of (heap w) t) /\
    arr_of (heap w') (Data (mat d)) = arr_of (heap w) (Data (mat d)) /\
    wf_QR (heap w') q d /\
    pool w' = pool w /\ gets w' = gets w /\ puts w' = puts w.
Proof.
  intros Hq Hcr Hvm Hsep.
  destruct (RFromQR_core m q d w Hq Hcr Hvm Hsep)
    as (sm & w1 & E1 & _ & _ & _ & _ & Hp1 & Hg1 & Hu1 & _ & _ & Hval1 & Hfr1).
  pose proof Hq as (_ & [Hvd _] & _).
  eexists _, w1. split; [exact E1|].
  split; [intros t Hvt Hnt; by apply Hfr1|].
  split; [apply Hfr1; [done|congruence]|].
  split; [by apply (wf_QR_step (heap w))|done].
Qed.

(** Property X6.  QFromQR a second time into its own result: the destination
    is the same matrix on the same storage with the same elements; each call
    takes a buffer from the pool and gives none back. *)
Theorem QFromQR_twice m q d w :
  wf_QR (heap w) q d -> valid (heap w) (Data (mat m)) ->
  s_ptr (Data (mat m)) <> s_ptr (Data (mat d)) ->
  pool_ok w -> off_pool w (Data (mat d)) -> off_pool w (Data (mat m)) ->
  exists m1 w1 w2,
    QFromQR m q w = Done m1 w1 /\ QFromQR m1 q w1 = Done m1 w2 /\
    contents (heap w2) (Data (mat m1)) = contents (heap w1) (Data (mat m1)) /\
    gets w2 = gets w + 2 /\ puts w2 = puts w.
Proof.
  intros Hq Hvm Hsep Hp Hpd Hpm.
  destruct (QFromQR_core m q d w Hq Hvm Hsep Hp Hpd Hpm)
    as (sm & w1 & E1 & Hl1 & Hc1 & Hg1 & Hu1 & Hd1 & _ & Hv1 & Hval1 & Hfr1
        & Hsub1 & Ho1).
  set (r := Rows (mat d)) in *.
  pose proof Hq as (_ & [Hvd _] & _).
  destruct (Hfr1 (Data (mat d)) Hvd Hpd) as [_ Hnd]; [congruence|].
  destruct (QFromQR_core (mkDense (mkGeneral r r r sm) r r) q d w1)
    as (sm2 & w2 & E2 & Hl2 & Hc2 & Hg2 & Hu2 & _ & Hsm2 & _); try done.
  { by apply (wf_QR_step (heap w)). }
  { by apply (pool_ok_sub w). }
  { by apply (off_pool_sub w). }
  fold r in E2, Hl2, Hsm2. cbn [mat Data] in Hsm2.
  assert (Hcap : r * r <= s_cap sm) by (destruct Hv1 as (? & ? & ?); lia).
  assert (Es : sm2 = sm).
  { rewrite (Hsm2 Hcap), <- Hl1. apply reslice_len. }
  subst sm2. eexists _, w1, w2. split; [exact E1|]. split; [exact E2|].
  split; [|lia]. cbn [mat Data]. rewrite Hc1, Hc2.
  by rewrite (gen_val_contents (heap w) (heap w1)).
Qed.

(** Property X7.  QFromQR writes only the storage of its destination and
    buffers of the pool: every other slice of the store keeps its backing
    array, the factor among them; the pool gains no buffer, and the store
    stays one on which the extractors and the solver can be called again. *)
Theorem QFromQR_frame m q d w :
  wf_QR (heap w) q d -> valid (heap w) (Data (mat m)) ->
  s_ptr (Data (mat m)) <> s_ptr (Data (mat d)) ->
  pool_ok w -> off_pool w (Data (mat d)) -> off_pool w (Data (mat m)) ->
  exists m' w',
    QFromQR m q w = Done m' w' /\
    (forall t, valid (heap w) t -> off_pool w t ->
       s_ptr t <> s_ptr (Data (mat m)) ->
       arr_of (heap w') t = arr_of (heap w) t /\
       s_ptr t <> s_ptr (Data (mat m'))) /\
    wf_QR (heap w') q d /\
    gen_val (heap w') (mat d) = gen_val (heap w) (mat d) /\
    pool_ok w' /\ off_pool w' (Data (mat d)) /\ off_pool w' (Data (mat m')) /\
    (forall p, p ∈ pool w' -> p ∈ pool w).
Proof.
  intros Hq Hvm Hsep Hp Hpd Hpm.
  destruct (QFromQR_core m q d w Hq Hvm Hsep Hp Hpd Hpm)
    as (sm & w1 & E1 & _ & _ & _ & _ & Hd1 & _ & _ & Hval1 & Hfr1 & Hsub1 & Ho1).
  eexists _, w1. split; [exact E1|]. cbn [mat Data].
  split; [done|]. split; [by apply (wf_QR_step (heap w))|].
  split; [by apply gen_val_contents|].
  split; [by apply (pool_ok_sub w)|].
  split; [by apply (off_pool_sub w)|done].
Qed.

(** Property X8.  QFromQR from a factor without columns: no reflector is
    applied and the destination is the m×m identity. *)
Theorem QFromQR_no_columns m q d w :
  wf_QR (heap w) q d -> valid (heap w) (Data (mat m)) ->
  s_ptr (Data (mat m)) <> s_ptr (Data (mat d)) ->
  pool_ok w -> off_pool w (Data (mat d)) -> off_pool w (Data (mat m)) ->
  Cols (mat d) = 0 ->
  exists m' w',
    QFromQR m q w = Done m' w' /\
    Dims m' = (Rows (mat d), Rows (mat d)) /\
    forall i j, i < Rows (mat d) -> j < Rows (mat d) ->
      at_val (heap w') (MDense m') i j = Some (if i =? j then f1 else f0).
Proof.
  intros Hq Hvm Hsep Hp Hpd Hpm Hc0.
  destruct (QFromQR_core m q d w Hq Hvm Hsep Hp Hpd Hpm)
    as (sm & w1 & E1 & Hl1 & Hc1 & _).
  eexists _, w1. split; [exact E1|]. split; [done|].
  intros i j Hi Hj. cbn [at_val mat Stride Data].
  rewrite sl_get_contents by nia. rewrite Hc1.
  unfold Q_explicit. cbn [gen_val Rows Cols]. rewrite Hc0, Nat.min_0_r.
  cbn [seq foldl]. by apply eye_lookup.
Qed.

End More.

Lemma flat_eq h h' a :
  arr_of h' (mdata a) = arr_of h (mdata a) -> flat h' a = flat h a.
Proof.
  intros E. unfold flat, mentry. apply tab_ext. intros k _. f_equal.
  destruct a as [d|t]; simpl in *; unfold sl_get; by rewrite E.
Qed.

Lemma wf_matrix_step h h' a :
  wf_matrix h a -> (forall t, valid h t -> valid h' t) -> wf_matrix h' a.
Proof.
  intros Hwf Hval. destruct a as [d|t]; simpl in *;
    destruct Hwf as [H1 H2]; (split; [by apply Hval|done]).
Qed.

Lemma pre_full h a (stale : list float) :
  length stale = fst (MDims a) * snd (MDims a) ->
  pre (flat h a) stale (fst (MDims a) * snd (MDims a)) = flat h a.
Proof.
  intros Hst. rewrite <- Hst. apply pre_all. by rewrite flat_length.
Qed.

(** After SolveQR the store is one on which the same call can be made
    again. *)
Lemma SolveQR_keeps s q d b w sm xs ok w' :
  wf_QR (heap w) q d -> wf_matrix (heap w) b -> pool_ok w ->
  off_pool w (Data (mat d)) -> off_pool w (mdata b) ->
  s_ptr xs <> s_ptr (mdata b) -> s_ptr xs <> s_ptr (Data (mat d)) ->
  s_ptr xs <> s_ptr sm ->
  SolveQR_frame w s sm xs ok w' ->
  wf_QR (heap w') q d /\ wf_matrix (heap w') b /\ pool_ok w' /\
  off_pool w' (Data (mat d)) /\ off_pool w' (mdata b) /\ off_pool w' sm /\
  (s_ptr s <> s_ptr (Data (mat d)) ->
   gen_val (heap w') (mat d) = gen_val (heap w) (mat d)) /\
  (s_ptr s <> s_ptr (mdata b) -> flat (heap w') b = flat (heap w) b).
Proof.
  intros Hq Hb Hp Hpd Hpb Hxb Hxd Hxm
         (Hval & Hfr & _ & Hvm & Hvx & Hsx & Hom & Hpl & _).
  assert (Hoff : forall t, off_pool w t -> s_ptr xs <> s_ptr t -> off_pool w' t).
  { intros t Hot Hnt. unfold off_pool in *. rewrite Forall_forall in *.
    intros p Hin. destruct (Hpl p Hin) as [Hin'|[_ ->]]; [by apply Hot|done]. }
  split; [by apply (wf_QR_step (heap w))|].
  split; [by apply (wf_matrix_step (heap w))|].
  split.
  { unfold pool_ok in *. rewrite Forall_forall in *. intros p Hin.
    destruct (Hpl p Hin) as [Hin'|[_ ->]]; [|done].
    destruct (Hp p Hin') as [H1 H2]. split; [done|by apply Hval]. }
  do 3 (split; [by apply Hoff|]).
  pose proof Hq as (_ & [Hvd _] & _).
  pose proof (wf_matrix_valid _ _ Hb) as Hvb.
  split.
  - intros Hn. apply gen_val_eq. apply Hfr; [done|done|congruence].
  - intros Hn. apply flat_eq. apply Hfr; [done|done|congruence].
Qed.

Section More2.
Context {K : Kernels}.

(** Property X9.  SolveQR with a B that has max(m,n) rows (so with every m×n
    factor that Factorize gives, m >= n, when not transposed): B fills the
    scratch, and the result is given by the kernels from the elements of the
    factor and of B alone, whatever the buffer of the pool held. *)
Theorem SolveQR_full_scratch m q d (trans : bool) b w :
  wf_QR (heap w) q d -> wf_matrix (heap w) b ->
  valid (heap w) (Data (mat m)) ->
  pool_ok w -> off_pool w (Data (mat d)) -> off_pool w (mdata b) ->
  off_pool w (Data (mat m)) ->
  Ormqr_query_ok ->
  fst (MDims b) = (if trans then Cols (mat d) else Rows (mat d)) ->
  Nat.max (Rows (mat d)) (Cols (mat d)) <= fst (MDims b) ->
  exists ok X m' w',
    solve_scratch trans (gen_val (heap w) (mat d)) (tau q)
      (mkGeneral (fst (MDims b)) (snd (MDims b)) (snd (MDims b))
                 (flat (heap w) b)) = Some (ok, X) /\
    SolveQR m q trans (Other b) w =
      Done (m', if ok then None else Some (Condition infinity)) w' /\
    Dims m' = (if trans then Rows (mat d) else Cols (mat d), snd (MDims b)) /\
    (ok = true ->
     contents (heap w') (Data (mat m')) =
     take ((if trans then Rows (mat d) else Cols (mat d)) * snd (MDims b)) X).
Proof.
  intros Hq Hb Hvm Hp Hpd Hpb Hpm Hqok Hshape Hfull.
  destruct (SolveQR_other m q d trans b w)
    as (sm & xs & stale & ok & X & w' & Hst & _ & _ & _ & Hsol & ES & _ & _
        & Hcont & _); try done.
  assert (HR : Nat.max (Rows (mat d)) (Cols (mat d)) = fst (MDims b)).
  { rewrite Hshape in *. destruct trans; lia. }
  rewrite HR in Hsol, Hst.
  rewrite (pre_full _ _ _ Hst) in Hsol.
  exists ok, X. eexists _, w'. split; [exact Hsol|]. split; [exact ES|].
  split; [done|]. exact Hcont.
Qed.

(** Property X10.  SolveQR writes only the storage of its receiver and buffers
    of the pool: every other slice of the store keeps its backing array, so
    the factor and B are what they were unless the receiver shares their
    storage, and the store stays one on which SolveQR can be called again. *)
Theorem SolveQR_writes_receiver_only m q d (trans : bool) b w :
  wf_QR (heap w) q d -> wf_matrix (heap w) b ->
  valid (heap w) (Data (mat m)) ->
  pool_ok w -> off_pool w (Data (mat d)) -> off_pool w (mdata b) ->
  off_pool w (Data (mat m)) ->
  Ormqr_query_ok ->
  fst (MDims b) = (if trans then Cols (mat d) else Rows (mat d)) ->
  exists m' e w',
    SolveQR m q trans (Other b) w = Done (m', e) w' /\
    (forall t, valid (heap w) t -> off_pool w t ->
       s_ptr t <> s_ptr (Data (mat m)) ->
       arr_of (heap w') t = arr_of (heap w) t) /\
    (s_ptr (Data (mat m)) <> s_ptr (Data (mat d)) ->
     gen_val (heap w') (mat d) = gen_val (heap w) (mat d)) /\
    (s_ptr (Data (mat m)) <> s_ptr (mdata b) ->
     flat (heap w') b = flat (heap w) b) /\
    wf_QR (heap w') q d /\ wf_matrix (heap w') b /\
    valid (heap w') (Data (mat m')) /\ pool_ok w' /\
    off_pool w' (Data (mat d)) /\ off_pool w' (mdata b) /\
    off_pool w' (Data (mat m')).
Proof.
  intros Hq Hb Hvm Hp Hpd Hpb Hpm Hqok Hshape.
  destruct (SolveQR_other m q d trans b w)
    as (sm & xs & stale & ok & X & w' & _ & Hxb & Hxd & Hxm & _ & ES & _ & _
        & _ & _ & _ & Hfr & _); try done.
  destruct (SolveQR_keeps _ q d b w sm xs ok w' Hq Hb Hp Hpd Hpb Hxb Hxd Hxm Hfr)
    as (K1 & K2 & K3 & K4 & K5 & K6 & K7 & K8).
  destruct Hfr as (_ & Hfr & _ & Hvm' & _).
  eexists _, _, w'. split; [exact ES|]. cbn [mat Data].
  split; [intros t Hvt Hot Hnt; by apply Hfr|]. done.
Qed.

(** Property X11.  When the triangular solve fails, SolveQR returns
    Condition(+Inf) having written no backing array that is off the pool: the
    receiver was resized but, when its storage was kept, it holds the
    elements it held; the buffer taken from the pool is not given back.  B
    is another object or the receiver itself. *)
Theorem SolveQR_failure_writes_nothing m q d (trans : bool)
    (b : operand Matrix) w :
  wf_QR (heap w) q d -> wf_matrix (heap w) (read (MDense m) b) ->
  valid (heap w) (Data (mat m)) ->
  pool_ok w -> off_pool w (Data (mat d)) ->
  off_pool w (mdata (read (MDense m) b)) ->
  off_pool w (Data (mat m)) ->
  Ormqr_query_ok ->
  fst (MDims (read (MDense m) b))
    = (if trans then Cols (mat d) else Rows (mat d)) ->
  exists m' e w',
    SolveQR m q trans b w = Done (m', e) w' /\
    (e <> None ->
     e = Some (Condition infinity) /\
     (forall t, valid (heap w) t -> off_pool w t ->
        arr_of (heap w') t = arr_of (heap w) t) /\
     (s_len (Data (mat m')) <= s_cap (Data (mat m)) ->
      contents (heap w') (Data (mat m')) =
      take (s_len (Data (mat m'))) (arr_of (heap w) (Data (mat m)))) /\
     (forall p, p ∈ pool w' -> p ∈ pool w) /\
     puts w' = puts w).
Proof.
  intros Hq Hb Hvm Hp Hpd Hpb Hpm Hqok Hshape.
  destruct (SolveQR_core m q d trans b w)
    as (sm & xs & stale & ok & X & w' & _ & _ & _ & _ & _ & ES & Hsm & Hlm
        & _ & _ & Hpu & Hfr & _); try done.
  destruct Hfr as (_ & _ & Hfail & _ & _ & _ & _ & Hpl & _).
  eexists _, _, w'. split; [exact ES|]. cbn [mat Data].
  destruct ok; [done|]. intros _. split; [done|].
  specialize (Hfail eq_refl). split; [exact Hfail|].
  split.
  { rewrite Hlm. intros Hle. rewrite (Hsm Hle). unfold contents.
    cbn [reslice s_len]. f_equal.
    rewrite <- (Hfail (Data (mat m)) Hvm Hpm). by unfold arr_of. }
  split; [|done].
  intros p Hin. by destruct (Hpl p Hin) as [?|[? _]].
Qed.

(** Property X12.  The pool across SolveQR: one buffer is taken on every
    call, the scratch, which is what getWorkspace gives for
    max(m,n) × columns(B) elements from the pool as it is when the call
    starts (the first buffer that is large enough, or a new array), and which
    holds what the last kernel left when the call returns.  On success the
    scratch, and nothing else, is given back: the pool is the scratch
    followed by the buffers getWorkspace left; the scratch is allocated and
    is not the storage of the result, of the factor or of B.  On failure
    nothing is given back: the pool is what getWorkspace left.  B is
    another object or the receiver itself. *)
Theorem SolveQR_pool_accounting m q d (trans : bool) (b : operand Matrix) w :
  wf_QR (heap w) q d -> wf_matrix (heap w) (read (MDense m) b) ->
  valid (heap w) (Data (mat m)) ->
  pool_ok w -> off_pool w (Data (mat d)) ->
  off_pool w (mdata (read (MDense m) b)) ->
  off_pool w (Data (mat m)) ->
  Ormqr_query_ok ->
  fst (MDims (read (MDense m) b))
    = (if trans then Cols (mat d) else Rows (mat d)) ->
  let rows := if trans then Rows (mat d) else Cols (mat d) in
  let bc := snd (MDims (read (MDense m) b)) in
  let need := Nat.max (Rows (mat d)) (Cols (mat d)) * bc in
  let len := length (heap w) +
             (if rows * bc <=? s_cap (Data (mat m)) then 0 else 1) in
  let xs := fst (taken need (pool w) len) in
  let rest := snd (taken need (pool w) len) in
  let x0 := mkGeneral (Nat.max (Rows (mat d)) (Cols (mat d))) bc bc
              (pre (copied (heap w) m rows b) (held need (pool w) (heap w))
                   (length (copied (heap w) m rows b))) in
  exists m' ok X w',
    solve_scratch trans (gen_val (heap w) (mat d)) (tau q) x0 = Some (ok, X) /\
    SolveQR m q trans b w =
      Done (m', if ok then None else Some (Condition infinity)) w' /\
    gets w' = Datatypes.S (gets w) /\
    s_len xs = need /\ valid (heap w') xs /\ contents (heap w') xs = X /\
    s_ptr xs <> s_ptr (Data (mat m')) /\
    s_ptr xs <> s_ptr (Data (mat d)) /\
    s_ptr xs <> s_ptr (mdata (read (MDense m) b)) /\
    (if ok
     then puts w' = Datatypes.S (puts w) /\ pool w' = xs :: rest
     else puts w' = puts w /\ pool w' = rest).
Proof.
  intros Hq Hb Hvm Hp Hpd Hpb Hpm Hqok Hshape rows bc need len xs rest x0.
  destruct (SolveQR_core m q d trans b w)
    as (sm & xs' & stale & ok & X & w' & _ & Hxb & Hxd & Hxm & Hsol & ES & _ & _
        & _ & Hge & Hpu & Hfr & Hlx & Hcx & Exs & Epl & Est); try done.
  cbn zeta in Exs, Epl, Est, Hsol, Hlx, ES.
  fold rows bc need len in Exs, Epl, Est, Hsol, Hlx, ES.
  fold xs in Exs. fold rest in Epl. subst xs' stale.
  destruct Hfr as (_ & _ & _ & _ & Hvx & _).
  eexists _, ok, X, w'. split; [exact Hsol|]. split; [exact ES|].
  cbn [mat Data]. do 7 (split; [done|]).
  destruct ok; by split.
Qed.

(** Property X13.  SolveQR a second time into its own result, with a B that
    has max(m,n) rows and a receiver that shares no storage with the factor or
    with B: the same result and the same error, in the same storage. *)
Theorem SolveQR_twice m q d (trans : bool) b w :
  wf_QR (heap w) q d -> wf_matrix (heap w) b ->
  valid (heap w) (Data (mat m)) ->
  pool_ok w -> off_pool w (Data (mat d)) -> off_pool w (mdata b) ->
  off_pool w (Data (mat m)) ->
  Ormqr_query_ok ->
  fst (MDims b) = (if trans then Cols (mat d) else Rows (mat d)) ->
  Nat.max (Rows (mat d)) (Cols (mat d)) <= fst (MDims b) ->
  s_ptr (Data (mat m)) <> s_ptr (Data (mat d)) ->
  s_ptr (Data (mat m)) <> s_ptr (mdata b) ->
  exists m1 e w1 w2,
    SolveQR m q trans (Other b) w = Done (m1, e) w1 /\
    SolveQR m1 q trans (Other b) w1 = Done (m1, e) w2 /\
    (e = None ->
     contents (heap w2) (Data (mat m1)) = contents (heap w1) (Data (mat m1))).
Proof.
  intros Hq Hb Hvm Hp Hpd Hpb Hpm Hqok Hshape Hfull Hnd Hnb.
  destruct (SolveQR_other m q d trans b w)
    as (sm & xs & stale & ok & X & w1 & Hst & Hxb & Hxd & Hxm & Hsol & ES & _
        & Hlm & Hcont & _ & _ & Hfr & _); try done.
  destruct (SolveQR_keeps _ q d b w sm xs ok w1 Hq Hb Hp Hpd Hpb Hxb Hxd Hxm Hfr)
    as (K1 & K2 & K3 & K4 & K5 & K6 & K7 & K8).
  pose proof Hfr as (_ & _ & _ & Hvm1 & _).
  set (rows := if trans then Rows (mat d) else Cols (mat d)) in *.
  set (bc := snd (MDims b)) in *.
  destruct (SolveQR_other (mkDense (mkGeneral rows bc bc sm) rows bc)
              q d trans b w1)
    as (sm2 & xs2 & stale2 & ok2 & X2 & w2 & Hst2 & _ & _ & _ & Hsol2 & ES2
        & Hsm2 & _ & Hcont2 & _); try done.
  fold rows bc in ES2, Hsm2, Hcont2, Hsol2, Hst2. cbn [mat Data] in Hsm2.
  assert (Hcap : rows * bc <= s_cap sm) by (destruct Hvm1 as (? & ? & ?); lia).
  assert (Es : sm2 = sm).
  { rewrite (Hsm2 Hcap), <- Hlm. apply reslice_len. }
  subst sm2.
  assert (HR : Nat.max (Rows (mat d)) (Cols (mat d)) = fst (MDims b)).
  { rewrite Hshape in *. destruct trans; lia. }
  rewrite HR in Hsol, Hst, Hsol2, Hst2.
  rewrite (pre_full _ _ _ Hst) in Hsol.
  rewrite (pre_full _ _ _ Hst2) in Hsol2.
  rewrite (K7 Hnd), (K8 Hnb), Hsol in Hsol2.
  injection Hsol2 as <- <-.
  eexists _, _, w1, w2. split; [exact ES|]. split; [exact ES2|].
  cbn [mat Data]. destruct ok; [|done]. intros _.
  by rewrite Hcont, Hcont2.
Qed.

End More2.


(** The QR that Factorize leaves: the slice of the new backing array, seen
    as an m×n matrix of contiguous rows. *)
Lemma factor_wf (h : list (list float)) (F tau1 : list float) m n :
  length F = m * n -> length tau1 = Nat.min m n ->
  let s := mkSlice (Some (length h)) (m * n) (m * n) in
  let d := mkDense (mkGeneral m n n s) m n in
  wf_QR (h ++ [F]) (mkQR (Some d) tau1) d /\
  gen_val (h ++ [F]) (mat d) = mkGeneral m n n F.
Proof.
  intros HF Ht s d.
  assert (Ea : arr_of (h ++ [F]) s = F).
  { unfold arr_of. simpl. by rewrite list_lookup_middle. }
  split.
  - split; [done|]. split; [|done]. split.
    + change (Data (mat d)) with s.
      apply (valid_intro _ _ (length h)); [done| |done|].
      * rewrite length_app. simpl. lia.
      * rewrite Ea. simpl. lia.
    + unfold in_range. cbn [d mat Rows Cols Stride Data s_len s].
      destruct m as [|m']; [by left|]. right. right. lia.
  - unfold gen_val, contents. cbn [d mat Rows Cols Stride Data s_len s].
    rewrite Ea. f_equal. apply take_ge. lia.
Qed.

Lemma pool_fresh w p :
  pool_ok w -> p ∈ pool w -> s_ptr p <> Some (length (heap w)).
Proof.
  unfold pool_ok. rewrite Forall_forall. intros Hp Hin E.
  destruct (Hp p Hin) as [_ Hv].
  pose proof (valid_ptr_lt _ _ _ Hv E). lia.
Qed.

Section More3.
Context {K : Kernels}.


(** Property X15.  Factorize, then SolveQR not transposed with a B of m rows
    that is another object than the receiver:
    the call returns, and the solution is what the kernels give from the
    elements of A and of B: the factorization kernel on A, then Qᵗ applied to
    B and the triangular solve with R. *)
Theorem Factorize_then_SolveQR q a m b w :
  wf_matrix (heap w) a -> wf_matrix (heap w) b ->
  valid (heap w) (Data (mat m)) ->
  snd (MDims a) <= fst (MDims a) -> fst (MDims b) = fst (MDims a) ->
  pool_ok w -> off_pool w (mdata b) -> off_pool w (Data (mat m)) ->
  Geqrf_query_ok -> Ormqr_query_ok ->
  exists F tau1 ok X q' w1 m' w2,
    factor_of (mkGeneral (fst (MDims a)) (snd (MDims a)) (snd (MDims a))
                         (flat (heap w) a)) = Some (F, tau1) /\
    solve_scratch false
      (mkGeneral (fst (MDims a)) (snd (MDims a)) (snd (MDims a)) F) tau1
      (mkGeneral (fst (MDims b)) (snd (MDims b)) (snd (MDims b))
                 (flat (heap w) b)) = Some (ok, X) /\
    Factorize q a w = Done q' w1 /\
    SolveQR m q' false (Other b) w1 =
      Done (m', if ok then None else Some (Condition infinity)) w2 /\
    Dims m' = (snd (MDims a), snd (MDims b)) /\
    (ok = true ->
     contents (heap w2) (Data (mat m')) =
     take (snd (MDims a) * snd (MDims b)) X).
Proof.
  intros Ha Hb Hvm Hmn Hbr Hp Hpb Hpm Hgq Hoq.
  destruct (Factorize_core q a w Ha Hmn Hgq)
    as (F & tau1 & w1 & Hfac & E & Hh & HF & Ht & Hpl & Hg & Hu).
  destruct (factor_wf (heap w) F tau1 _ _ HF Ht) as [Hwf Hgv].
  set (d := mkDense (mkGeneral (fst (MDims a)) (snd (MDims a)) (snd (MDims a))
               (mkSlice (Some (length (heap w)))
                  (fst (MDims a) * snd (MDims a))
                  (fst (MDims a) * snd (MDims a))))
               (fst (MDims a)) (snd (MDims a))) in *.
  set (q' := mkQR (Some d) tau1) in *.
  assert (Hpre : heap w `prefix_of` heap w1) by (rewrite Hh; by eexists).
  rewrite <- Hh in Hwf, Hgv.
  destruct (SolveQR_other m q' d false b w1)
    as (sm & xs & stale & ok & X & w2 & Hst & _ & _ & _ & Hsol & ES & _ & _
        & Hcont & _); try done.
  { by apply (wf_matrix_prefix (heap w)). }
  { by apply (valid_prefix (heap w)). }
  { apply (pool_ok_step w); [done..|]. intros t _ Hvt.
    by apply (valid_prefix (heap w)). }
  { unfold off_pool. rewrite Hpl, Forall_forall. intros p Hin.
    cbn [d mat Data s_ptr]. by apply pool_fresh. }
  { by apply (off_pool_step w). }
  { by apply (off_pool_step w). }
  rewrite Hgv in Hsol.
  unfold d in Hst, Hsol, ES, Hcont.
  cbn [mat Rows Cols] in Hst, Hsol, ES, Hcont.
  rewrite Nat.max_l in Hst, Hsol by done.
  rewrite <- Hbr in Hst. rewrite (pre_full _ _ _ Hst) in Hsol.
  rewrite (flat_prefix (heap w)) in Hsol by done.
  exists F, tau1, ok, X, q'. eexists w1, _, w2.
  split; [exact Hfac|]. split; [rewrite Hbr; exact Hsol|]. split; [exact E|].
  split; [exact ES|]. split; [done|]. exact Hcont.
Qed.

(** Property X16.  Factorize, then the extractors: QFromQR gives the m×m
    product of the reflectors that the factorization kernel left for A, and
    RFromQR gives in its first n rows the upper triangle of what the kernel
    left. *)
Theorem Factorize_then_extract q a mq mr w :
  wf_matrix (heap w) a -> snd (MDims a) <= fst (MDims a) ->
  valid (heap w) (Data (mat mq)) -> valid (heap w) (Data (mat mr)) ->
  pool_ok w -> off_pool w (Data (mat mq)) ->
  Geqrf_query_ok ->
  exists F tau1 q' w1 Q wq R wr,
    factor_of (mkGeneral (fst (MDims a)) (snd (MDims a)) (snd (MDims a))
                         (flat (heap w) a)) = Some (F, tau1) /\
    Factorize q a w = Done q' w1 /\
    QFromQR mq q' w1 = Done Q wq /\
    Dims Q = (fst (MDims a), fst (MDims a)) /\
    contents (heap wq) (Data (mat Q)) =
      Q_explicit (mkGeneral (fst (MDims a)) (snd (MDims a)) (snd (MDims a)) F)
                 tau1 /\
    RFromQR mr q' w1 = Done R wr /\
    Dims R = MDims a /\
    forall i j, i < snd (MDims a) -> j < snd (MDims a) ->
      at_val (heap wr) (MDense R) i j =
      Some (if j <? i then f0
            else default f0 (F !! (i * snd (MDims a) + j))).
Proof.
  intros Ha Hmn Hvq Hvr Hp Hpq Hgq.
  destruct (Factorize_core q a w Ha Hmn Hgq)
    as (F & tau1 & w1 & Hfac & E & Hh & HF & Ht & Hpl & Hg & Hu).
  destruct (factor_wf (heap w) F tau1 _ _ HF Ht) as [Hwf Hgv].
  set (d := mkDense (mkGeneral (fst (MDims a)) (snd (MDims a)) (snd (MDims a))
               (mkSlice (Some (length (heap w)))
                  (fst (MDims a) * snd (MDims a))
                  (fst (MDims a) * snd (MDims a))))
               (fst (MDims a)) (snd (MDims a))) in *.
  set (q' := mkQR (Some d) tau1) in *.
  assert (Hpre : heap w `prefix_of` heap w1) by (rewrite Hh; by eexists).
  rewrite <- Hh in Hwf, Hgv.
  assert (Hfresh : forall t, valid (heap w) t ->
            s_ptr t <> s_ptr (Data (mat d))).
  { intros t Hvt Et. cbn [d mat Data s_ptr] in Et.
    pose proof (valid_ptr_lt _ _ _ Hvt Et). lia. }
  destruct (QFromQR_core mq q' d w1)
    as (sq & wq & EQ & _ & HcQ & _); try done.
  { by apply (valid_prefix (heap w)). }
  { by apply Hfresh. }
  { apply (pool_ok_step w); [done..|]. intros t _ Hvt.
    by apply (valid_prefix (heap w)). }
  { unfold off_pool. rewrite Hpl, Forall_forall. intros p Hin.
    cbn [d mat Data s_ptr]. by apply pool_fresh. }
  { by apply (off_pool_step w). }
  destruct (RFromQR_core mr q' d w1)
    as (sr & wr & ER & Hlr & Htop & _); try done.
  { by apply (valid_prefix (heap w)). }
  { by apply Hfresh. }
  rewrite Hgv in HcQ, Htop.
  unfold d in EQ, HcQ, ER, Hlr, Htop.
  cbn [mat Rows Cols] in EQ, HcQ, ER, Hlr, Htop.
  exists F, tau1, q'. eexists w1, _, wq, _, wr.
  split; [exact Hfac|]. split; [exact E|]. split; [exact EQ|].
  split; [done|]. split; [exact HcQ|]. split; [exact ER|].
  split; [by destruct (MDims a)|].
  intros i j Hi Hj. cbn [at_val mat Stride Data].
  rewrite sl_get_contents by nia. by rewrite Htop.
Qed.

(** Property X17.  SolveQRVec on a factorized QR panics with ErrShape exactly
    when the length of b, as SolveQRVec finds it after it has resized the
    destination, is not n (transposed) or m (not transposed): resizing the
    destination never panics, and the only shape check is the one of SolveQR
    on the one-column matrix of b.  When b is another vector that is its own
    length; when b is the destination itself it is the length the
    destination has just been given, so that the call panics unless the
    factor is square. *)
Theorem SolveQRVec_ErrShape v q d (trans : bool) (b : operand Vector) w :
  qr q = Some d ->
  SolveQRVec v q trans b w = Panic ErrShape <->
  match b with
  | Other a => n a
  | Self => if trans then Rows (mat d) else Cols (mat d)
  end <> (if trans then Cols (mat d) else Rows (mat d)).
Proof.
  intros Hq. rewrite (SolveQRVec_eq v q d trans b w Hq).
  set (rows := if trans then Rows (mat d) else Cols (mat d)).
  assert (Ev : exists v1 w1, VreuseAs v rows w = Done v1 w1 /\ n v1 = rows).
  { unfold VreuseAs. destruct (rows <=? s_cap (vData (vmat v))).
    - by eexists _, _.
    - eexists _, _. by rewrite (bind_Done _ _ _ _ _ (make_spec _ _)). }
  destruct Ev as (v1 & w1 & Ev & Hn).
  rewrite (bind_Done _ _ _ _ _ Ev).
  assert (En : match b with Other a => n a | Self => rows end
               = fst (MDims (read (MDense (vecAsDense v1))
                        (Other (MDense (vecAsDense (read v1 b))))))).
  { destruct b; cbn [read MDims Dims vecAsDense mat Rows fst]; done. }
  rewrite En.
  rewrite <- (SolveQR_ErrShape (vecAsDense v1) q d trans
                (Other (MDense (vecAsDense (read v1 b)))) w1 Hq).
  unfold bind.
  destruct (SolveQR (vecAsDense v1) q trans
              (Other (MDense (vecAsDense (read v1 b)))) w1)
    as [me w2|p]; simpl; [split; intros [=]|split; intros [= ->]; done].
Qed.

End More3.

(** ** The further properties on the concrete inputs *)

Ltac pooled :=
  repeat match goal with
  | |- pool_ok _ => unfold pool_ok
  | |- off_pool _ _ => unfold off_pool
  | |- Forall _ (pool _) => cbn [pool ex_w2]
  | |- Forall _ [] => apply Forall_nil_2
  | |- Forall _ (_ :: _) => apply Forall_cons; split
  | |- is_Some _ => by eexists
  | |- _ => progress concrete
  end.

(** With a buffer on the pool: the solve takes it and gives it back. *)
Example ex_pool_reused :
  match @SolveQR RefKernels emptyDense ex_qr false (Other (MDense ex_B)) ex_w2 with
  | Done (m', None) w' =>
      pool w' = [mkSlice (Some 4) 3 3] /\ length (heap w') = 6 /\
      gets w' = 1 /\ puts w' = 1
  | _ => False
  end.
Proof. vm_compute. done. Qed.

Lemma RFromQR_upper_trapezoidal_witness :
  (wf_QR (heap ex_w1) ex_qr ex_F /\ Cols (mat ex_F) <= Rows (mat ex_F) /\
   valid (heap ex_w1) (Data (mat emptyDense)) /\
   s_ptr (Data (mat emptyDense)) <> s_ptr (Data (mat ex_F)) /\
   (s_cap (Data (mat emptyDense)) < Rows (mat ex_F) * Cols (mat ex_F) \/
    Rows (mat ex_F) = Cols (mat ex_F))) /\
  exists m' w', RFromQR emptyDense ex_qr ex_w1 = Done m' w' /\ Dims m' = (3, 2).
Proof.
  assert (H : wf_QR (heap ex_w1) ex_qr ex_F /\ Cols (mat ex_F) <= Rows (mat ex_F) /\
   valid (heap ex_w1) (Data (mat emptyDense)) /\
   s_ptr (Data (mat emptyDense)) <> s_ptr (Data (mat ex_F)) /\
   (s_cap (Data (mat emptyDense)) < Rows (mat ex_F) * Cols (mat ex_F) \/
    Rows (mat ex_F) = Cols (mat ex_F))) by (concrete; left; simpl; lia).
  split; [exact H|]. destruct H as (H1 & H2 & H3 & H4 & H5).
  destruct (RFromQR_upper_trapezoidal emptyDense ex_qr ex_F ex_w1
              H1 H2 H3 H4 H5) as (m' & w' & E & Hd & _).
  exists m', w'. split; [exact E|exact Hd].
Defined.

Lemma RFromQR_rows_below_kept_witness :
  (wf_QR (heap tall_w1) tall_qr tall_F /\ Cols (mat tall_F) <= Rows (mat tall_F) /\
   valid (heap tall_w1) (Data (mat tall_dst)) /\
   s_ptr (Data (mat tall_dst)) <> s_ptr (Data (mat tall_F)) /\
   Rows (mat tall_F) * Cols (mat tall_F) <= s_cap (Data (mat tall_dst))) /\
  exists m' w',
    RFromQR tall_dst tall_qr tall_w1 = Done m' w' /\
    at_val (heap w') (MDense m') 1 0 = Some 9%float.
Proof.
  assert (H : wf_QR (heap tall_w1) tall_qr tall_F /\
   Cols (mat tall_F) <= Rows (mat tall_F) /\
   valid (heap tall_w1) (Data (mat tall_dst)) /\
   s_ptr (Data (mat tall_dst)) <> s_ptr (Data (mat tall_F)) /\
   Rows (mat tall_F) * Cols (mat tall_F) <= s_cap (Data (mat tall_dst)))
    by concrete.
  split; [exact H|]. destruct H as (H1 & H2 & H3 & H4 & H5).
  destruct (RFromQR_rows_below_kept tall_dst tall_qr tall_F tall_w1
              H1 H2 H3 H4 H5) as (m' & w' & E & _ & Hk).
  exists m', w'. split; [exact E|].
  apply (Hk 1 0); simpl; lia.
Defined.

Lemma RFromQR_twice_witness :
  (wf_QR (heap tall_w1) tall_qr tall_F /\ Cols (mat tall_F) <= Rows (mat tall_F) /\
   valid (heap tall_w1) (Data (mat tall_dst)) /\
   s_ptr (Data (mat tall_dst)) <> s_ptr (Data (mat tall_F))) /\
  exists m1 w1 w2,
    RFromQR tall_dst tall_qr tall_w1 = Done m1 w1 /\
    RFromQR m1 tall_qr w1 = Done m1 w2.
Proof.
  assert (H : wf_QR (heap tall_w1) tall_qr tall_F /\
   Cols (mat tall_F) <= Rows (mat tall_F) /\
   valid (heap tall_w1) (Data (mat tall_dst)) /\
   s_ptr (Data (mat tall_dst)) <> s_ptr (Data (mat tall_F))) by concrete.
  split; [exact H|]. destruct H as (H1 & H2 & H3 & H4).
  destruct (RFromQR_twice tall_dst tall_qr tall_F tall_w1 H1 H2 H3 H4)
    as (m1 & w1 & w2 & E1 & E2 & _).
  exists m1, w1, w2. split; [exact E1|exact E2].
Defined.

Lemma RFromQR_frame_witness :
  (wf_QR (heap ex_w1) ex_qr ex_F /\ Cols (mat ex_F) <= Rows (mat ex_F) /\
   valid (heap ex_w1) (Data (mat emptyDense)) /\
   s_ptr (Data (mat emptyDense)) <> s_ptr (Data (mat ex_F))) /\
  exists m' w',
    RFromQR emptyDense ex_qr ex_w1 = Done m' w' /\
    arr_of (heap w') (Data (mat ex_F)) = arr_of (heap ex_w1) (Data (mat ex_F)).
Proof.
  assert (H : wf_QR (heap ex_w1) ex_qr ex_F /\
   Cols (mat ex_F) <= Rows (mat ex_F) /\
   valid (heap ex_w1) (Data (mat emptyDense)) /\
   s_ptr (Data (mat emptyDense)) <> s_ptr (Data (mat ex_F))) by concrete.
  split; [exact H|]. destruct H as (H1 & H2 & H3 & H4).
  destruct (RFromQR_frame emptyDense ex_qr ex_F ex_w1 H1 H2 H3 H4)
    as (m' & w' & E & _ & Hf & _).
  exists m', w'. split; [exact E|exact Hf].
Defined.

Lemma QFromQR_any_receiver_witness :
  (wf_QR (heap ex_w1) ex_qr ex_F /\ pool_ok ex_w1 /\
   off_pool ex_w1 (Data (mat ex_F)) /\
   valid (heap ex_w1) (Data (mat emptyDense)) /\
   valid (heap ex_w1) (Data (mat ex_A)) /\
   s_ptr (Data (mat emptyDense)) <> s_ptr (Data (mat ex_F)) /\
   s_ptr (Data (mat ex_A)) <> s_ptr (Data (mat ex_F)) /\
   off_pool ex_w1 (Data (mat emptyDense)) /\
   off_pool ex_w1 (Data (mat ex_A))) /\
  exists r1 w1 r2 w2,
    @QFromQR RefKernels emptyDense ex_qr ex_w1 = Done r1 w1 /\
    @QFromQR RefKernels ex_A ex_qr ex_w1 = Done r2 w2 /\
    contents (heap w1) (Data (mat r1)) = contents (heap w2) (Data (mat r2)).
Proof.
  assert (H : wf_QR (heap ex_w1) ex_qr ex_F /\ pool_ok ex_w1 /\
   off_pool ex_w1 (Data (mat ex_F)) /\
   valid (heap ex_w1) (Data (mat emptyDense)) /\
   valid (heap ex_w1) (Data (mat ex_A)) /\
   s_ptr (Data (mat emptyDense)) <> s_ptr (Data (mat ex_F)) /\
   s_ptr (Data (mat ex_A)) <> s_ptr (Data (mat ex_F)) /\
   off_pool ex_w1 (Data (mat emptyDense)) /\
   off_pool ex_w1 (Data (mat ex_A))) by concrete.
  split; [exact H|].
  destruct H as (H1 & H2 & H3 & H4 & H5 & H6 & H7 & H8 & H9).
  destruct (@QFromQR_any_receiver RefKernels emptyDense ex_A ex_qr ex_F ex_w1
              H1 H2 H3 H4 H5 H6 H7 H8 H9)
    as (r1 & w1 & r2 & w2 & E1 & E2 & _ & Hc).
  exists r1, w1, r2, w2. split; [exact E1|]. split; [exact E2|exact Hc].
Defined.

Lemma QFromQR_twice_witness :
  (wf_QR (heap ex_w2) ex_qr ex_F /\
   valid (heap ex_w2) (Data (mat emptyDense)) /\
   s_ptr (Data (mat emptyDense)) <> s_ptr (Data (mat ex_F)) /\
   pool_ok ex_w2 /\ off_pool ex_w2 (Data (mat ex_F)) /\
   off_pool ex_w2 (Data (mat emptyDense))) /\
  exists m1 w1 w2,
    @QFromQR RefKernels emptyDense ex_qr ex_w2 = Done m1 w1 /\
    @QFromQR RefKernels m1 ex_qr w1 = Done m1 w2.
Proof.
  assert (H : wf_QR (heap ex_w2) ex_qr ex_F /\
   valid (heap ex_w2) (Data (mat emptyDense)) /\
   s_ptr (Data (mat emptyDense)) <> s_ptr (Data (mat ex_F)) /\
   pool_ok ex_w2 /\ off_pool ex_w2 (Data (mat ex_F)) /\
   off_pool ex_w2 (Data (mat emptyDense))) by pooled.
  split; [exact H|]. destruct H as (H1 & H2 & H3 & H4 & H5 & H6).
  destruct (@QFromQR_twice RefKernels emptyDense ex_qr ex_F ex_w2
              H1 H2 H3 H4 H5 H6) as (m1 & w1 & w2 & E1 & E2 & _).
  exists m1, w1, w2. split; [exact E1|exact E2].
Defined.

Lemma QFromQR_frame_witness :
  (wf_QR (heap ex_w2) ex_qr ex_F /\
   valid (heap ex_w2) (Data (mat emptyDense)) /\
   s_ptr (Data (mat emptyDense)) <> s_ptr (Data (mat ex_F)) /\
   pool_ok ex_w2 /\ off_pool ex_w2 (Data (mat ex_F)) /\
   off_pool ex_w2 (Data (mat emptyDense))) /\
  exists m' w',
    @QFromQR RefKernels emptyDense ex_qr ex_w2 = Done m' w' /\
    wf_QR (heap w') ex_qr ex_F.
Proof.
  assert (H : wf_QR (heap ex_w2) ex_qr ex_F /\
   valid (heap ex_w2) (Data (mat emptyDense)) /\
   s_ptr (Data (mat emptyDense)) <> s_ptr (Data (mat ex_F)) /\
   pool_ok ex_w2 /\ off_pool ex_w2 (Data (mat ex_F)) /\
   off_pool ex_w2 (Data (mat emptyDense))) by pooled.
  split; [exact H|]. destruct H as (H1 & H2 & H3 & H4 & H5 & H6).
  destruct (@QFromQR_frame RefKernels emptyDense ex_qr ex_F ex_w2
              H1 H2 H3 H4 H5 H6) as (m' & w' & E & _ & Hw & _).
  exists m', w'. split; [exact E|exact Hw].
Defined.

Lemma QFromQR_no_columns_witness :
  (wf_QR (heap nocol_w) nocol_qr nocol_F /\
   valid (heap nocol_w) (Data (mat emptyDense)) /\
   s_ptr (Data (mat emptyDense)) <> s_ptr (Data (mat nocol_F)) /\
   pool_ok nocol_w /\ off_pool nocol_w (Data (mat nocol_F)) /\
   off_pool nocol_w (Data (mat emptyDense)) /\ Cols (mat nocol_F) = 0) /\
  exists m' w',
    @QFromQR RefKernels emptyDense nocol_qr nocol_w = Done m' w' /\
    at_val (heap w') (MDense m') 1 1 = Some f1.
Proof.
  assert (H : wf_QR (heap nocol_w) nocol_qr nocol_F /\
   valid (heap nocol_w) (Data (mat emptyDense)) /\
   s_ptr (Data (mat emptyDense)) <> s_ptr (Data (mat nocol_F)) /\
   pool_ok nocol_w /\ off_pool nocol_w (Data (mat nocol_F)) /\
   off_pool nocol_w (Data (mat emptyDense)) /\ Cols (mat nocol_F) = 0)
    by concrete.
  split; [exact H|]. destruct H as (H1 & H2 & H3 & H4 & H5 & H6 & H7).
  destruct (@QFromQR_no_columns RefKernels emptyDense nocol_qr nocol_F nocol_w
              H1 H2 H3 H4 H5 H6 H7) as (m' & w' & E & _ & Hi).
  exists m', w'. split; [exact E|]. apply (Hi 1 1); simpl; lia.
Defined.

Lemma SolveQR_full_scratch_witness :
  (wf_QR (heap ex_w2) ex_qr ex_F /\ wf_matrix (heap ex_w2) (MDense ex_B) /\
   valid (heap ex_w2) (Data (mat emptyDense)) /\ pool_ok ex_w2 /\
   off_pool ex_w2 (Data (mat ex_F)) /\ off_pool ex_w2 (mdata (MDense ex_B)) /\
   off_pool ex_w2 (Data (mat emptyDense)) /\ @Ormqr_query_ok RefKernels /\
   fst (MDims (MDense ex_B)) = Rows (mat ex_F) /\
   Nat.max (Rows (mat ex_F)) (Cols (mat ex_F)) <= fst (MDims (MDense ex_B))) /\
  exists m' e w',
    @SolveQR RefKernels emptyDense ex_qr false (Other (MDense ex_B)) ex_w2
    = Done (m', e) w' /\ Dims m' = (2, 1).
Proof.
  assert (H : wf_QR (heap ex_w2) ex_qr ex_F /\
   wf_matrix (heap ex_w2) (MDense ex_B) /\
   valid (heap ex_w2) (Data (mat emptyDense)) /\ pool_ok ex_w2 /\
   off_pool ex_w2 (Data (mat ex_F)) /\ off_pool ex_w2 (mdata (MDense ex_B)) /\
   off_pool ex_w2 (Data (mat emptyDense)) /\ @Ormqr_query_ok RefKernels /\
   fst (MDims (MDense ex_B)) = Rows (mat ex_F) /\
   Nat.max (Rows (mat ex_F)) (Cols (mat ex_F)) <= fst (MDims (MDense ex_B)))
    by pooled.
  split; [exact H|].
  destruct H as (H1 & H2 & H3 & H4 & H5 & H6 & H7 & H8 & H9 & H10).
  destruct (@SolveQR_full_scratch RefKernels emptyDense ex_qr ex_F false
              (MDense ex_B) ex_w2 H1 H2 H3 H4 H5 H6 H7 H8 H9 H10)
    as (ok & X & m' & w' & _ & E & Hd & _).
  eexists m', _, w'. split; [exact E|exact Hd].
Defined.

Lemma SolveQR_writes_receiver_only_witness :
  (wf_QR (heap ex_w2) ex_qr ex_F /\ wf_matrix (heap ex_w2) (MDense ex_B) /\
   valid (heap ex_w2) (Data (mat emptyDense)) /\ pool_ok ex_w2 /\
   off_pool ex_w2 (Data (mat ex_F)) /\ off_pool ex_w2 (mdata (MDense ex_B)) /\
   off_pool ex_w2 (Data (mat emptyDense)) /\ @Ormqr_query_ok RefKernels /\
   fst (MDims (MDense ex_B)) = Rows (mat ex_F)) /\
  exists m' e w',
    @SolveQR RefKernels emptyDense ex_qr false (Other (MDense ex_B)) ex_w2
    = Done (m', e) w' /\
    flat (heap w') (MDense ex_B) = flat (heap ex_w2) (MDense ex_B).
Proof.
  assert (H : wf_QR (heap ex_w2) ex_qr ex_F /\
   wf_matrix (heap ex_w2) (MDense ex_B) /\
   valid (heap ex_w2) (Data (mat emptyDense)) /\ pool_ok ex_w2 /\
   off_pool ex_w2 (Data (mat ex_F)) /\ off_pool ex_w2 (mdata (MDense ex_B)) /\
   off_pool ex_w2 (Data (mat emptyDense)) /\ @Ormqr_query_ok RefKernels /\
   fst (MDims (MDense ex_B)) = Rows (mat ex_F)) by pooled.
  split; [exact H|].
  destruct H as (H1 & H2 & H3 & H4 & H5 & H6 & H7 & H8 & H9).
  destruct (@SolveQR_writes_receiver_only RefKernels emptyDense ex_qr ex_F false
              (MDense ex_B) ex_w2 H1 H2 H3 H4 H5 H6 H7 H8 H9)
    as (m' & e & w' & E & _ & _ & Hb & _).
  exists m', e, w'. split; [exact E|]. apply Hb. discriminate.
Defined.

Lemma SolveQR_failure_writes_nothing_witness :
  (wf_QR (heap sing_w1) sing_qr
         (mkDense (mkGeneral 3 2 2 (mkSlice (Some 2) 6 6)) 3 2) /\
   wf_matrix (heap sing_w1) (MDense ex_B) /\
   valid (heap sing_w1) (Data (mat emptyDense)) /\ pool_ok sing_w1 /\
   off_pool sing_w1 (mkSlice (Some 2) 6 6) /\
   off_pool sing_w1 (mdata (MDense ex_B)) /\
   off_pool sing_w1 (Data (mat emptyDense)) /\ @Ormqr_query_ok RefKernels /\
   fst (MDims (MDense ex_B)) = 3) /\
  exists m' e w',
    @SolveQR RefKernels emptyDense sing_qr false (Other (MDense ex_B)) sing_w1
    = Done (m', e) w'.
Proof.
  assert (H : wf_QR (heap sing_w1) sing_qr
         (mkDense (mkGeneral 3 2 2 (mkSlice (Some 2) 6 6)) 3 2) /\
   wf_matrix (heap sing_w1) (MDense ex_B) /\
   valid (heap sing_w1) (Data (mat emptyDense)) /\ pool_ok sing_w1 /\
   off_pool sing_w1 (mkSlice (Some 2) 6 6) /\
   off_pool sing_w1 (mdata (MDense ex_B)) /\
   off_pool sing_w1 (Data (mat emptyDense)) /\ @Ormqr_query_ok RefKernels /\
   fst (MDims (MDense ex_B)) = 3) by concrete.
  split; [exact H|].
  destruct H as (H1 & H2 & H3 & H4 & H5 & H6 & H7 & H8 & H9).
  destruct (@SolveQR_failure_writes_nothing RefKernels emptyDense sing_qr _ false
              (Other (MDense ex_B)) sing_w1 H1 H2 H3 H4 H5 H6 H7 H8 H9)
    as (m' & e & w' & E & _).
  exists m', e, w'. exact E.
Defined.

Lemma SolveQR_pool_accounting_witness :
  (wf_QR (heap ex_w2) ex_qr ex_F /\ wf_matrix (heap ex_w2) (MDense ex_B) /\
   valid (heap ex_w2) (Data (mat emptyDense)) /\ pool_ok ex_w2 /\
   off_pool ex_w2 (Data (mat ex_F)) /\ off_pool ex_w2 (mdata (MDense ex_B)) /\
   off_pool ex_w2 (Data (mat emptyDense)) /\ @Ormqr_query_ok RefKernels /\
   fst (MDims (MDense ex_B)) = Rows (mat ex_F)) /\
  exists m' e w',
    @SolveQR RefKernels emptyDense ex_qr false (Other (MDense ex_B)) ex_w2
    = Done (m', e) w' /\ gets w' = 1 /\
    s_len (fst (taken 3 (pool ex_w2) 6)) = 3.
Proof.
  assert (H : wf_QR (heap ex_w2) ex_qr ex_F /\
   wf_matrix (heap ex_w2) (MDense ex_B) /\
   valid (heap ex_w2) (Data (mat emptyDense)) /\ pool_ok ex_w2 /\
   off_pool ex_w2 (Data (mat ex_F)) /\ off_pool ex_w2 (mdata (MDense ex_B)) /\
   off_pool ex_w2 (Data (mat emptyDense)) /\ @Ormqr_query_ok RefKernels /\
   fst (MDims (MDense ex_B)) = Rows (mat ex_F)) by pooled.
  split; [exact H|].
  destruct H as (H1 & H2 & H3 & H4 & H5 & H6 & H7 & H8 & H9).
  destruct (@SolveQR_pool_accounting RefKernels emptyDense ex_qr ex_F false
              (Other (MDense ex_B)) ex_w2 H1 H2 H3 H4 H5 H6 H7 H8 H9)
    as (m' & ok & X & w' & _ & E & Hg & Hl & _).
  eexists m', _, w'. split; [exact E|]. split; [exact Hg|exact Hl].
Defined.

Lemma SolveQR_twice_witness :
  (wf_QR (heap ex_w2) ex_qr ex_F /\ wf_matrix (heap ex_w2) (MDense ex_B) /\
   valid (heap ex_w2) (Data (mat emptyDense)) /\ pool_ok ex_w2 /\
   off_pool ex_w2 (Data (mat ex_F)) /\ off_pool ex_w2 (mdata (MDense ex_B)) /\
   off_pool ex_w2 (Data (mat emptyDense)) /\ @Ormqr_query_ok RefKernels /\
   fst (MDims (MDense ex_B)) = Rows (mat ex_F) /\
   Nat.max (Rows (mat ex_F)) (Cols (mat ex_F)) <= fst (MDims (MDense ex_B)) /\
   s_ptr (Data (mat emptyDense)) <> s_ptr (Data (mat ex_F)) /\
   s_ptr (Data (mat emptyDense)) <> s_ptr (mdata (MDense ex_B))) /\
  exists m1 e w1 w2,
    @SolveQR RefKernels emptyDense ex_qr false (Other (MDense ex_B)) ex_w2
    = Done (m1, e) w1 /\
    @SolveQR RefKernels m1 ex_qr false (Other (MDense ex_B)) w1 = Done (m1, e) w2.
Proof.
  assert (H : wf_QR (heap ex_w2) ex_qr ex_F /\
   wf_matrix (heap ex_w2) (MDense ex_B) /\
   valid (heap ex_w2) (Data (mat emptyDense)) /\ pool_ok ex_w2 /\
   off_pool ex_w2 (Data (mat ex_F)) /\ off_pool ex_w2 (mdata (MDense ex_B)) /\
   off_pool ex_w2 (Data (mat emptyDense)) /\ @Ormqr_query_ok RefKernels /\
   fst (MDims (MDense ex_B)) = Rows (mat ex_F) /\
   Nat.max (Rows (mat ex_F)) (Cols (mat ex_F)) <= fst (MDims (MDense ex_B)) /\
   s_ptr (Data (mat emptyDense)) <> s_ptr (Data (mat ex_F)) /\
   s_ptr (Data (mat emptyDense)) <> s_ptr (mdata (MDense ex_B))) by pooled.
  split; [exact H|].
  destruct H as (H1 & H2 & H3 & H4 & H5 & H6 & H7 & H8 & H9 & H10 & H11 & H12).
  destruct (@SolveQR_twice RefKernels emptyDense ex_qr ex_F false
              (MDense ex_B) ex_w2 H1 H2 H3 H4 H5 H6 H7 H8 H9 H10 H11 H12)
    as (m1 & e & w1 & w2 & E1 & E2 & _).
  exists m1, e, w1, w2. split; [exact E1|exact E2].
Defined.


Lemma Factorize_then_SolveQR_witness :
  (wf_matrix (heap ex_w0) (MDense ex_A) /\ wf_matrix (heap ex_w0) (MDense ex_B) /\
   valid (heap ex_w0) (Data (mat emptyDense)) /\
   snd (MDims (MDense ex_A)) <= fst (MDims (MDense ex_A)) /\
   fst (MDims (MDense ex_B)) = fst (MDims (MDense ex_A)) /\
   pool_ok ex_w0 /\ off_pool ex_w0 (mdata (MDense ex_B)) /\
   off_pool ex_w0 (Data (mat emptyDense)) /\
   @Geqrf_query_ok RefKernels /\ @Ormqr_query_ok RefKernels) /\
  exists q' w1 m' e w2,
    @Factorize RefKernels (mkQR None []) (MDense ex_A) ex_w0 = Done q' w1 /\
    @SolveQR RefKernels emptyDense q' false (Other (MDense ex_B)) w1 = Done (m', e) w2 /\
    Dims m' = (2, 1).
Proof.
  assert (H : wf_matrix (heap ex_w0) (MDense ex_A) /\
   wf_matrix (heap ex_w0) (MDense ex_B) /\
   valid (heap ex_w0) (Data (mat emptyDense)) /\
   snd (MDims (MDense ex_A)) <= fst (MDims (MDense ex_A)) /\
   fst (MDims (MDense ex_B)) = fst (MDims (MDense ex_A)) /\
   pool_ok ex_w0 /\ off_pool ex_w0 (mdata (MDense ex_B)) /\
   off_pool ex_w0 (Data (mat emptyDense)) /\
   @Geqrf_query_ok RefKernels /\ @Ormqr_query_ok RefKernels) by concrete.
  split; [exact H|].
  destruct H as (H1 & H2 & H3 & H4 & H5 & H6 & H7 & H8 & H9 & H10).
  destruct (@Factorize_then_SolveQR RefKernels (mkQR None []) (MDense ex_A)
              emptyDense (MDense ex_B) ex_w0 H1 H2 H3 H4 H5 H6 H7 H8 H9 H10)
    as (F & tau1 & ok & X & q' & w1 & m' & w2 & _ & _ & E1 & E2 & Hd & _).
  eexists q', w1, m', _, w2. split; [exact E1|]. split; [exact E2|exact Hd].
Defined.

Lemma Factorize_then_extract_witness :
  (wf_matrix (heap ex_w0) (MDense ex_A) /\
   snd (MDims (MDense ex_A)) <= fst (MDims (MDense ex_A)) /\
   valid (heap ex_w0) (Data (mat emptyDense)) /\
   valid (heap ex_w0) (Data (mat ex_B)) /\
   pool_ok ex_w0 /\ off_pool ex_w0 (Data (mat emptyDense)) /\
   @Geqrf_query_ok RefKernels) /\
  exists q' w1 Q wq R wr,
    @Factorize RefKernels (mkQR None []) (MDense ex_A) ex_w0 = Done q' w1 /\
    @QFromQR RefKernels emptyDense q' w1 = Done Q wq /\
    RFromQR ex_B q' w1 = Done R wr /\
    Dims Q = (3, 3) /\ Dims R = (3, 2).
Proof.
  assert (H : wf_matrix (heap ex_w0) (MDense ex_A) /\
   snd (MDims (MDense ex_A)) <= fst (MDims (MDense ex_A)) /\
   valid (heap ex_w0) (Data (mat emptyDense)) /\
   valid (heap ex_w0) (Data (mat ex_B)) /\
   pool_ok ex_w0 /\ off_pool ex_w0 (Data (mat emptyDense)) /\
   @Geqrf_query_ok RefKernels) by concrete.
  split; [exact H|].
  destruct H as (H1 & H2 & H3 & H4 & H5 & H6 & H7).
  destruct (@Factorize_then_extract RefKernels (mkQR None []) (MDense ex_A)
              emptyDense ex_B ex_w0 H1 H2 H3 H4 H5 H6 H7)
    as (F & tau1 & q' & w1 & Q & wq & R & wr & _ & E1 & E2 & HdQ & _ & E3
        & HdR & _).
  exists q', w1, Q, wq, R, wr. split; [exact E1|]. split; [exact E2|].
  split; [exact E3|]. split; [exact HdQ|exact HdR].
Defined.

Lemma SolveQRVec_ErrShape_witness :
  qr ex_qr = Some ex_F /\
  (@SolveQRVec RefKernels ex_b ex_qr false Self ex_w1 = Panic ErrShape <->
   Cols (mat ex_F) <> Rows (mat ex_F)).
Proof.
  assert (H : qr ex_qr = Some ex_F) by reflexivity.
  split; [exact H|].
  exact (@SolveQRVec_ErrShape RefKernels ex_b ex_qr ex_F false Self ex_w1 H).
Defined.

Section More4.
Context {K : Kernels}.

(** Property X18.  SolveQRVec and SolveQR agree: with a vector b of max(m,n)
    elements that is another object than the destination, the vector solve
    into any destination vector and the matrix solve of b seen as a
    one-column matrix into any receiver return the same error and, on
    success, the same elements; the destination vector has increment 1 and as
    many elements as the matrix has rows. *)
Theorem SolveQRVec_agrees_with_SolveQR v m q d (trans : bool) b w :
  wf_QR (heap w) q d -> wf_dense (heap w) (vecAsDense b) ->
  valid (heap w) (vData (vmat v)) -> valid (heap w) (Data (mat m)) ->
  pool_ok w -> off_pool w (Data (mat d)) -> off_pool w (vData (vmat b)) ->
  off_pool w (vData (vmat v)) -> off_pool w (Data (mat m)) ->
  Ormqr_query_ok ->
  n b = (if trans then Cols (mat d) else Rows (mat d)) ->
  Nat.max (Rows (mat d)) (Cols (mat d)) <= n b ->
  exists v' m' e wv wm,
    SolveQRVec v q trans (Other b) w = Done (v', e) wv /\
    SolveQR m q trans (Other (MDense (vecAsDense b))) w = Done (m', e) wm /\
    n v' = Rows (mat m') /\ Inc (vmat v') = 1 /\
    (e = None ->
     contents (heap wv) (vData (vmat v')) =
     contents (heap wm) (Data (mat m'))).
Proof.
  intros Hq Hb Hvv Hvm Hp Hpd Hpb Hpv Hpm Hqok Hshape Hfull.
  destruct (SolveQRVec_other v q d trans b w)
    as (sv & stale & ok & X & wv & Hst & Hsol & EV & Hlv & Hcv); try done.
  destruct (SolveQR_other m q d trans (MDense (vecAsDense b)) w)
    as (sm & xs & stale' & ok' & X' & wm & Hst' & _ & _ & _ & Hsol' & ES & _
        & _ & Hcm & _); try done.
  cbn [MDims Dims vecAsDense mat Rows Cols fst snd] in Hst', Hsol', ES, Hcm.
  assert (HR : Nat.max (Rows (mat d)) (Cols (mat d)) = n b).
  { rewrite Hshape in *. destruct trans; lia. }
  rewrite HR in Hst, Hsol, Hst', Hsol'.
  assert (Ep : forall st, length st = n b * 1 ->
            pre (flat (heap w) (MDense (vecAsDense b))) st (n b * 1)
            = flat (heap w) (MDense (vecAsDense b))).
  { intros st Hs. exact (pre_full (heap w) (MDense (vecAsDense b)) st Hs). }
  rewrite (Ep stale Hst) in Hsol. rewrite (Ep stale' Hst') in Hsol'.
  rewrite Hsol in Hsol'. injection Hsol' as <- <-.
  eexists _, _, _, wv, wm. split; [exact EV|]. split; [exact ES|].
  split; [done|]. split; [done|].
  cbn [vmat vData mat Data]. destruct ok; [|done]. intros _.
  rewrite (Hcv eq_refl), (Hcm eq_refl). by rewrite Nat.mul_1_r.
Qed.

(** Property X19.  Factorize a second time with the QR it returned, on the
    same matrix: the factor has the same shape and the same elements and
    the scalars are the same; the factor is held in an array that is new
    again, and the array of the first factor is left as it was. *)
Theorem Factorize_twice q a w :
  wf_matrix (heap w) a -> snd (MDims a) <= fst (MDims a) ->
  Geqrf_query_ok ->
  exists q1 d1 w1 q2 d2 w2,
    Factorize q a w = Done q1 w1 /\ qr q1 = Some d1 /\
    Factorize q1 a w1 = Done q2 w2 /\ qr q2 = Some d2 /\
    tau q2 = tau q1 /\ Dims d2 = Dims d1 /\
    contents (heap w2) (Data (mat d2)) = contents (heap w1) (Data (mat d1)) /\
    contents (heap w2) (Data (mat d1)) = contents (heap w1) (Data (mat d1)) /\
    s_ptr (Data (mat d2)) <> s_ptr (Data (mat d1)).
Proof.
  intros Ha Hmn Hgq.
  destruct (Factorize_core q a w Ha Hmn Hgq)
    as (F & tau1 & w1 & Hfac & E1 & Hh1 & HF & Ht & _).
  assert (Hpre : heap w `prefix_of` heap w1) by (rewrite Hh1; by eexists).
  assert (Ha1 : wf_matrix (heap w1) a) by (by apply (wf_matrix_prefix (heap w))).
  destruct (Factorize_core
              (mkQR (Some (mkDense
                 (mkGeneral (fst (MDims a)) (snd (MDims a)) (snd (MDims a))
                    (mkSlice (Some (length (heap w)))
                       (fst (MDims a) * snd (MDims a))
                       (fst (MDims a) * snd (MDims a))))
                 (fst (MDims a)) (snd (MDims a)))) tau1) a w1 Ha1 Hmn Hgq)
    as (F2 & tau2 & w2 & Hfac2 & E2 & Hh2 & _).
  rewrite (flat_prefix (heap w)), Hfac in Hfac2 by done.
  injection Hfac2 as <- <-.
  destruct (factor_wf (heap w) F tau1 _ _ HF Ht) as [Hwf1 Hg1].
  destruct (factor_wf (heap w1) F tau1 _ _ HF Ht) as [Hwf2 Hg2].
  rewrite <- Hh1 in Hwf1, Hg1. rewrite <- Hh2 in Hg2.
  apply (f_equal Data) in Hg1, Hg2. cbn [gen_val Data mat] in Hg1, Hg2.
  eexists _, _, w1, _, _, w2. split; [exact E1|]. split; [reflexivity|].
  split; [exact E2|]. split; [reflexivity|]. split; [done|]. split; [done|].
  cbn [mat Data]. split; [by rewrite Hg1, Hg2|].
  split.
  - apply contents_prefix; [|rewrite Hh2; by eexists].
    by destruct Hwf1 as (_ & [Hv _] & _).
  - cbn [s_ptr]. rewrite Hh1, length_app. simpl. intros [= Hl]. lia.
Qed.

End More4.

Lemma SolveQRVec_agrees_with_SolveQR_witness :
  (wf_QR (heap ex_w2) ex_qr ex_F /\ wf_dense (heap ex_w2) (vecAsDense ex_b) /\
   valid (heap ex_w2) (vData (vmat ex_v)) /\
   valid (heap ex_w2) (Data (mat emptyDense)) /\ pool_ok ex_w2 /\
   off_pool ex_w2 (Data (mat ex_F)) /\ off_pool ex_w2 (vData (vmat ex_b)) /\
   off_pool ex_w2 (vData (vmat ex_v)) /\
   off_pool ex_w2 (Data (mat emptyDense)) /\ @Ormqr_query_ok RefKernels /\
   n ex_b = Rows (mat ex_F) /\
   Nat.max (Rows (mat ex_F)) (Cols (mat ex_F)) <= n ex_b) /\
  exists v' m' e wv wm,
    @SolveQRVec RefKernels ex_v ex_qr false (Other ex_b) ex_w2 = Done (v', e) wv /\
    @SolveQR RefKernels emptyDense ex_qr false (Other (MDense (vecAsDense ex_b))) ex_w2
    = Done (m', e) wm.
Proof.
  assert (H : wf_QR (heap ex_w2) ex_qr ex_F /\
   wf_dense (heap ex_w2) (vecAsDense ex_b) /\
   valid (heap ex_w2) (vData (vmat ex_v)) /\
   valid (heap ex_w2) (Data (mat emptyDense)) /\ pool_ok ex_w2 /\
   off_pool ex_w2 (Data (mat ex_F)) /\ off_pool ex_w2 (vData (vmat ex_b)) /\
   off_pool ex_w2 (vData (vmat ex_v)) /\
   off_pool ex_w2 (Data (mat emptyDense)) /\ @Ormqr_query_ok RefKernels /\
   n ex_b = Rows (mat ex_F) /\
   Nat.max (Rows (mat ex_F)) (Cols (mat ex_F)) <= n ex_b) by pooled.
  split; [exact H|].
  destruct H as (H1 & H2 & H3 & H4 & H5 & H6 & H7 & H8 & H9 & H10 & H11 & H12).
  destruct (@SolveQRVec_agrees_with_SolveQR RefKernels ex_v emptyDense ex_qr ex_F
              false ex_b ex_w2 H1 H2 H3 H4 H5 H6 H7 H8 H9 H10 H11 H12)
    as (v' & m' & e & wv & wm & E1 & E2 & _).
  exists v', m', e, wv, wm. split; [exact E1|exact E2].
Defined.

Lemma Factorize_twice_witness :
  (wf_matrix (heap ex_w0) (MDense ex_A) /\
   snd (MDims (MDense ex_A)) <= fst (MDims (MDense ex_A)) /\
   @Geqrf_query_ok RefKernels) /\
  exists q1 w1 q2 w2,
    @Factorize RefKernels (mkQR None []) (MDense ex_A) ex_w0 = Done q1 w1 /\
    @Factorize RefKernels q1 (MDense ex_A) w1 = Done q2 w2 /\
    tau q2 = tau q1.
Proof.
  assert (H : wf_matrix (heap ex_w0) (MDense ex_A) /\
   snd (MDims (MDense ex_A)) <= fst (MDims (MDense ex_A)) /\
   @Geqrf_query_ok RefKernels) by concrete.
  split; [exact H|]. destruct H as (H1 & H2 & H3).
  destruct (@Factorize_twice RefKernels (mkQR None []) (MDense ex_A) ex_w0
              H1 H2 H3)
    as (q1 & d1 & w1 & q2 & d2 & w2 & E1 & _ & E2 & _ & Ht & _).
  exists q1, w1, q2, w2. split; [exact E1|]. split; [exact E2|exact Ht].
Defined.
